(** * GridSquare: Maidenhead locator decoding and great-circle geodesy

    A shallow embedding of [gridsquare.hpp] (namespace [GridSquare]).

    The header computes on C++ [double].  The program is embedded once,
    over an interface [Double] of the operations it applies to doubles,
    and read in two ways:

    - [Binary64]: IEEE-754 binary64 with round-to-nearest-even, on Rocq's
      primitive floats, every operation rounded on its own (no fused
      multiply-add).  [+ - * /], [sqrt], [fmod], [round] and the
      conversions are exactly specified by the standard, so this reading is
      bit-exact for them.  [sin], [cos] and [atan2] come from the platform's
      math library, which is not part of the repository: they are taken as
      a parameter ([Libm]), and a property that depends on them states
      what it needs of them.
    - [Exact]: doubles read as real numbers, [M_PI] as the number pi and
      the math library as the mathematical functions.  No rounding, no
      NaN, no infinity.

    What holds in every reading is proved over the interface.  Strings are
    byte strings in the C locale; [int] has 32 bits. *)

From Stdlib Require Import ZArith QArith Bool List String Ascii Lia.
From Stdlib Require Import Reals Lra.
From Stdlib Require Floats.
Import ListNotations.

Set Implicit Arguments.

(** ** Characters ([<cctype>], C locale) and strings *)

Definition code (c : ascii) : Z := Z.of_nat (nat_of_ascii c).

(** [::toupper]: the lower-case letters move to upper case. *)
Definition toupper (c : ascii) : ascii :=
  if ((97 <=? code c) && (code c <=? 122))%Z
  then ascii_of_nat (nat_of_ascii c - 32)
  else c.

Definition isupper (c : ascii) : bool := ((65 <=? code c) && (code c <=? 90))%Z.
Definition islower (c : ascii) : bool := ((97 <=? code c) && (code c <=? 122))%Z.

(** [std::isalpha] and [std::isdigit]. *)
Definition isalpha (c : ascii) : bool := isupper c || islower c.
Definition isdigit (c : ascii) : bool := ((48 <=? code c) && (code c <=? 57))%Z.

(** [std::transform(grid.begin(), grid.end(), grid.begin(), f)]. *)
Fixpoint transform (f : ascii -> ascii) (s : string) : string :=
  match s with
  | EmptyString => EmptyString
  | String c s' => String (f c) (transform f s')
  end.

(** [grid[i]]: [std::string::operator[]] yields the terminating NUL at
    [i = size()]; the program never indexes further. *)
Definition char_at (s : string) (i : nat) : ascii :=
  match String.get i s with
  | Some c => c
  | None => Ascii.zero
  end.

(** ** Exceptions: [std::invalid_argument] carries its message *)

Inductive result (A : Type) : Type :=
| Ok (a : A)
| InvalidArgument (what : string).

Arguments Ok {A} a.
Arguments InvalidArgument {A} what.

Definition bind {A B : Type} (r : result A) (k : A -> result B) : result B :=
  match r with
  | Ok a => k a
  | InvalidArgument w => InvalidArgument w
  end.

Notation "x <- r ;; k" := (bind r (fun x => k))
  (at level 61, r at next level, right associativity).

Definition is_error {A : Type} (r : result A) : bool :=
  match r with
  | Ok _ => false
  | InvalidArgument _ => true
  end.

(** ** The operations of [double] *)

Declare Scope double_scope.
Delimit Scope double_scope with dbl.

(** Arithmetic the language and IEEE-754 fix: literals, the conversion from
    [int], the four operations, comparison, [std::sqrt], [fmod],
    [std::round] and [static_cast<int>] (undefined, here [None], when the
    truncated value is not an [int]). *)
Class Double (D : Type) : Type := {
  lit : Q -> D;
  of_int : Z -> D;
  add : D -> D -> D;
  sub : D -> D -> D;
  mul : D -> D -> D;
  div : D -> D -> D;
  ltb : D -> D -> bool;
  M_PI : D;
  std_sqrt : D -> D;
  fmod : D -> D -> D;
  std_round : D -> D;
  to_int : D -> option Z
}.

(** The transcendental functions of [<cmath>]. *)
Class Libm (D : Type) : Type := {
  std_sin : D -> D;
  std_cos : D -> D;
  std_atan2 : D -> D -> D
}.

Infix "+" := add : double_scope.
Infix "-" := sub : double_scope.
Infix "*" := mul : double_scope.
Infix "/" := div : double_scope.
Infix "<?" := ltb : double_scope.
(** A decimal literal denotes its value, a rational in lowest terms. *)
Notation "# q" := (lit (Qred q%Q)) (at level 1, q constr at level 0, format "# q") : double_scope.

(** ** The program *)

(** Distance units. *)
Inductive Unit : Type :=
| KILOMETERS
| MILES
| NAUTICAL_MILES.

Section Program.

Context {D : Type} {dbl : Double D} {libm : Libm D}.
Local Open Scope double_scope.

(** Earth radius in different units. *)
Definition EARTH_RADIUS_KM : D := #6371.0.
Definition EARTH_RADIUS_MI : D := #3959.0.
Definition EARTH_RADIUS_NM : D := #3440.0.

(** Coordinate pair (latitude, longitude) in decimal degrees. *)
Record Coordinate : Type := mkCoordinate {
  latitude : D;
  longitude : D
}.

(** Result of distance/bearing calculation. *)
Record DistanceResult : Type := mkDistanceResult {
  distance : D;
  bearing : D;
  backBearing : D;
  from : Coordinate;
  to : Coordinate
}.

Definition toRadians (degrees : D) : D := degrees * M_PI / #180.0.

Definition toDegrees (radians : D) : D := radians * #180.0 / M_PI.

(** Normalize angle to 0-360 range. *)
Definition normalizeAngle (angle : D) : D :=
  let angle := fmod angle #360.0 in
  if angle <? of_int 0 then angle + #360.0 else angle.

(** [grid[i] - base], as the [int] converted to [double]. *)
Definition offset (grid : string) (i : nat) (base : ascii) : D :=
  of_int (code (char_at grid i) - code base).

(** Convert Maidenhead grid square to latitude/longitude. *)
Definition toLatLon (grid : string) : result Coordinate :=
  let grid := transform toupper grid in
  let len := String.length grid in
  if (negb (len =? 2) && negb (len =? 4) && negb (len =? 6) && negb (len =? 8))%nat then
    InvalidArgument "Grid square must be 2, 4, 6, or 8 characters"
  else if negb (isalpha (char_at grid 0)) || negb (isalpha (char_at grid 1)) then
    InvalidArgument "First two characters must be letters"
  else if (4 <=? len)%nat && (negb (isdigit (char_at grid 2)) || negb (isdigit (char_at grid 3))) then
    InvalidArgument "Characters 3-4 must be digits"
  else if (6 <=? len)%nat && (negb (isalpha (char_at grid 4)) || negb (isalpha (char_at grid 5))) then
    InvalidArgument "Characters 5-6 must be letters"
  else if (len =? 8)%nat && (negb (isdigit (char_at grid 6)) || negb (isdigit (char_at grid 7))) then
    InvalidArgument "Characters 7-8 must be digits"
  else
    (* Field (first 2 characters) *)
    let lon := offset grid 0 "A" * #20.0 - #180.0 in
    let lat := offset grid 1 "A" * #10.0 - #90.0 in
    (* Square (characters 3-4) *)
    let '(lon, lat) :=
      if (4 <=? len)%nat
      then (lon + offset grid 2 "0" * #2.0, lat + offset grid 3 "0" * #1.0)
      else (lon, lat) in
    (* Subsquare (characters 5-6) *)
    let '(lon, lat) :=
      if (6 <=? len)%nat
      then (lon + offset grid 4 "A" * (#2.0 / #24.0),
            lat + offset grid 5 "A" * (#1.0 / #24.0))
      else (lon, lat) in
    (* Extended square (characters 7-8) *)
    let '(lon, lat) :=
      if (len =? 8)%nat
      then (lon + offset grid 6 "0" * (#2.0 / #240.0),
            lat + offset grid 7 "0" * (#1.0 / #240.0))
      else (lon, lat) in
    (* Return center of the grid square *)
    let '(lon, lat) :=
      if (len =? 2)%nat then (lon + #10.0, lat + #5.0)
      else if (len =? 4)%nat then (lon + #1.0, lat + #0.5)
      else if (len =? 6)%nat then (lon + #1.0 / #24.0, lat + #1.0 / #48.0)
      else if (len =? 8)%nat then (lon + #1.0 / #240.0, lat + #1.0 / #480.0)
      else (lon, lat) in
    Ok (mkCoordinate lat lon).

(** The local [a] of [calculateDistance] (its conversions to radians and
    the Haversine formula), under a name of its own. *)
Definition haversine (coord1 coord2 : Coordinate) : D :=
  let lat1 := toRadians (latitude coord1) in
  let lat2 := toRadians (latitude coord2) in
  let dLat := toRadians (latitude coord2 - latitude coord1) in
  let dLon := toRadians (longitude coord2 - longitude coord1) in
  std_sin (dLat / #2.0) * std_sin (dLat / #2.0) +
  std_cos lat1 * std_cos lat2 *
  std_sin (dLon / #2.0) * std_sin (dLon / #2.0).

(** The [switch] of [calculateDistance]: Earth radius by unit.  Its
    [default] is not reached by a value of the enumeration. *)
Definition radius (unit : Unit) : D :=
  match unit with
  | KILOMETERS => EARTH_RADIUS_KM
  | MILES => EARTH_RADIUS_MI
  | NAUTICAL_MILES => EARTH_RADIUS_NM
  end.

(** The local [c] of [calculateDistance]: the central angle, in radians. *)
Definition central_angle (coord1 coord2 : Coordinate) : D :=
  let a := haversine coord1 coord2 in
  #2.0 * std_atan2 (std_sqrt a) (std_sqrt (#1.0 - a)).

(** Calculate great circle distance between two coordinates using the
    Haversine formula. *)
Definition calculateDistance (coord1 coord2 : Coordinate) (unit : Unit) : D :=
  let R := radius unit in
  let c := central_angle coord1 coord2 in
  R * c.

(** Calculate initial bearing from coord1 to coord2. *)
Definition calculateBearing (coord1 coord2 : Coordinate) : D :=
  let lat1 := toRadians (latitude coord1) in
  let lat2 := toRadians (latitude coord2) in
  let dLon := toRadians (longitude coord2 - longitude coord1) in
  let x := std_sin dLon * std_cos lat2 in
  let y := std_cos lat1 * std_sin lat2 -
           std_sin lat1 * std_cos lat2 * std_cos dLon in
  let bearing := std_atan2 x y in
  normalizeAngle (toDegrees bearing).

(** Calculate complete distance and bearing information. *)
Definition calculate (grid1 grid2 : string) (unit : Unit) : result DistanceResult :=
  coord1 <- toLatLon grid1 ;;
  coord2 <- toLatLon grid2 ;;
  Ok {| from := coord1;
        to := coord2;
        distance := calculateDistance coord1 coord2 unit;
        bearing := calculateBearing coord1 coord2;
        backBearing := calculateBearing coord2 coord1 |}.

Definition directions : list string :=
  ["N"; "NNE"; "NE"; "ENE"; "E"; "ESE"; "SE"; "SSE";
   "S"; "SSW"; "SW"; "WSW"; "W"; "WNW"; "NW"; "NNW"]%string.

(** [directions[index]]: reading outside the array is undefined. *)
Definition direction_at (index : Z) : option string :=
  if (index <? 0)%Z then None else nth_error directions (Z.to_nat index).

(** Convert bearing to cardinal direction.  [%] is C++'s remainder, which
    truncates toward zero. *)
Definition bearingToDirection (bearing : D) : option string :=
  match to_int (std_round (bearing / #22.5)) with
  | Some i => direction_at (Z.rem i 16)
  | None => None
  end.

(** Convert Unit enum to string. *)
Definition unitToString (unit : Unit) : string :=
  match unit with
  | KILOMETERS => "km"
  | MILES => "miles"
  | NAUTICAL_MILES => "nm"
  end.

End Program.

Arguments Coordinate D : clear implicits.
Arguments DistanceResult D : clear implicits.

Unset Implicit Arguments.

(** ** The specification's decoder contract, in its own words *)

(** The five rejection rules of [decode], on the case-normalized input. *)
Definition invalid_format (locator : string) : bool :=
  let s := transform toupper locator in
  let len := String.length s in
  negb ((len =? 2) || (len =? 4) || (len =? 6) || (len =? 8))%nat
  || negb (isalpha (char_at s 0) && isalpha (char_at s 1))
  || ((4 <=? len)%nat && negb (isdigit (char_at s 2) && isdigit (char_at s 3)))
  || ((6 <=? len)%nat && negb (isalpha (char_at s 4) && isalpha (char_at s 5)))
  || ((len =? 8)%nat && negb (isdigit (char_at s 6) && isdigit (char_at s 7))).

(** [char_i - base] as an integer, [i] counted from 1, after upper-casing. *)
Definition char_offset (locator : string) (i : nat) (base : ascii) : Z :=
  code (char_at (transform toupper locator) (pred i)) - code base.

Section DecoderContract.

Context {D : Type} {dbl : Double D}.
Local Open Scope double_scope.

(** Half the width and height of the finest tier, by locator length. *)
Definition half_width (len : nat) : D :=
  match len with
  | 2%nat => #10
  | 4%nat => #1
  | 6%nat => #1 / #24
  | _ => #1 / #240
  end.

Definition half_height (len : nat) : D :=
  match len with
  | 2%nat => #5
  | 4%nat => #0.5
  | 6%nat => #1 / #48
  | _ => #1 / #480
  end.

(** [char_i - base] for the 1-based position [i] of the upper-cased locator. *)
Definition digit_of (locator : string) (i : nat) (base : ascii) : D :=
  of_int (char_offset locator i base).

(** Longitude of a cell's center from the digits of the longitude axis:
    the tiers present at that length, then the half-width. *)
Definition cell_longitude (len : nat) (field square subsquare extended : D) : D :=
  match len with
  | 2%nat => field * #20 - #180 + half_width len
  | 4%nat => field * #20 - #180 + square * #2 + half_width len
  | 6%nat => field * #20 - #180 + square * #2 + subsquare * (#2 / #24)
             + half_width len
  | _ => field * #20 - #180 + square * #2 + subsquare * (#2 / #24)
         + extended * (#2 / #240) + half_width len
  end.

Definition cell_latitude (len : nat) (field square subsquare extended : D) : D :=
  match len with
  | 2%nat => field * #10 - #90 + half_height len
  | 4%nat => field * #10 - #90 + square * #1 + half_height len
  | 6%nat => field * #10 - #90 + square * #1 + subsquare * (#1 / #24)
             + half_height len
  | _ => field * #10 - #90 + square * #1 + subsquare * (#1 / #24)
         + extended * (#1 / #240) + half_height len
  end.

(** Characters 1, 3, 5, 7 give the longitude; 2, 4, 6, 8 the latitude. *)
Definition center_longitude (locator : string) : D :=
  cell_longitude (String.length locator)
    (digit_of locator 1 "A") (digit_of locator 3 "0")
    (digit_of locator 5 "A") (digit_of locator 7 "0").

Definition center_latitude (locator : string) : D :=
  cell_latitude (String.length locator)
    (digit_of locator 2 "A") (digit_of locator 4 "0")
    (digit_of locator 6 "A") (digit_of locator 8 "0").

End DecoderContract.

(** ** Cells, for the properties of the decoder *)

(** A locator of the Maidenhead system proper: well formed, with field
    letters in [A]..[R] and subsquare letters in [A]..[X]. *)
Definition maidenhead (locator : string) : bool :=
  negb (invalid_format locator)
  && (char_offset locator 1 "A" <=? 17)%Z
  && (char_offset locator 2 "A" <=? 17)%Z
  && ((String.length locator <? 6)%nat
      || ((char_offset locator 5 "A" <=? 23)%Z
          && (char_offset locator 6 "A" <=? 23)%Z)).

(** The center of a cell in units of 1/480 degree of latitude, or of 1/240
    degree of longitude: the same sum on both axes. *)
Definition cell_units (len : nat) (field square subsquare extended : Z) : Z :=
  match len with
  | 2%nat => 4800 * field - 43200 + 2400
  | 4%nat => 4800 * field - 43200 + 480 * square + 240
  | 6%nat => 4800 * field - 43200 + 480 * square + 20 * subsquare + 10
  | _ => 4800 * field - 43200 + 480 * square + 20 * subsquare
         + 2 * extended + 1
  end%Z.

Definition latitude_units (locator : string) : Z :=
  cell_units (String.length locator)
    (char_offset locator 2 "A") (char_offset locator 4 "0")
    (char_offset locator 6 "A") (char_offset locator 8 "0").

Definition longitude_units (locator : string) : Z :=
  cell_units (String.length locator)
    (char_offset locator 1 "A") (char_offset locator 3 "0")
    (char_offset locator 5 "A") (char_offset locator 7 "0").

(** ** Reading 1: exact arithmetic on real numbers *)

Module Exact.

Local Open Scope R_scope.

Definition Rltb (x y : R) : bool := if Rlt_dec x y then true else false.

(** Truncation toward zero. *)
Definition Rtrunc (x : R) : Z :=
  if Rle_dec 0 x then Int_part x else (- Int_part (- x))%Z.

(** [fmod(x, y) = x - n * y] where [n] is [x / y] truncated toward zero. *)
Definition Rfmod (x y : R) : R := x - IZR (Rtrunc (x / y)) * y.

(** [std::round]: to the nearest integer, halfway cases away from zero. *)
Definition Rround (x : R) : R :=
  IZR (if Rle_dec 0 x then Int_part (x + / 2) else (- Int_part (- x + / 2))%Z).

Definition INT_MIN : Z := (- 2 ^ 31)%Z.
Definition INT_MAX : Z := (2 ^ 31 - 1)%Z.

Definition Rto_int (x : R) : option Z :=
  let z := Rtrunc x in
  if ((INT_MIN <=? z) && (z <=? INT_MAX))%Z then Some z else None.

(** [atan2(y, x)], with [atan2(0, 0) = 0] as for IEEE's [+0]. *)
Definition Ratan2 (y x : R) : R :=
  if Rlt_dec 0 x then atan (y / x)
  else if Rlt_dec x 0 then
    if Rle_dec 0 y then atan (y / x) + PI else atan (y / x) - PI
  else if Rlt_dec 0 y then PI / 2
  else if Rlt_dec y 0 then - PI / 2
  else 0.

(** [sqrt] is the real square root, 0 on a negative number; [fmod] by
    zero is the dividend.  The program meets neither in this reading. *)
#[global] Instance double : Double R := {|
  lit := Q2R;
  of_int := IZR;
  add := Rplus;
  sub := Rminus;
  mul := Rmult;
  div := Rdiv;
  ltb := Rltb;
  M_PI := PI;
  std_sqrt := sqrt;
  fmod := Rfmod;
  std_round := Rround;
  to_int := Rto_int
|}.

#[global] Instance libm : Libm R := {|
  std_sin := sin;
  std_cos := cos;
  std_atan2 := Ratan2
|}.

End Exact.

(** ** Reading 2: IEEE-754 binary64, round to nearest even *)

Module Binary64.

Import Floats.
Local Open Scope float_scope.

(** Conversion of an integer, correctly rounded. *)
Definition of_Z (z : Z) : float :=
  SF2Prim (binary_normalize prec emax z 0 false).

(** A decimal literal: the quotient of numerator by denominator, which
    division rounds correctly (both are below 2^53 here). *)
Definition of_Q (q : Q) : float := of_Z (Qnum q) / of_Z (Zpos (Qden q)).

(** [fmod]: the exact remainder with the sign of [x], always a double. *)
Definition fmod64 (x y : float) : float :=
  match Prim2SF x, Prim2SF y with
  | S754_nan, _ | _, S754_nan => nan
  | S754_infinity _, _ => nan
  | _, S754_zero _ => nan
  | S754_zero _, _ => x
  | S754_finite _ _ _, S754_infinity _ => x
  | S754_finite sx mx ex, S754_finite _ my ey =>
      let e := Z.min ex ey in
      let r := ((Zpos mx * 2 ^ (ex - e)) mod (Zpos my * 2 ^ (ey - e)))%Z in
      SF2Prim (binary_normalize prec emax (if sx then - r else r)%Z e sx)
  end.

(** [std::round]: halfway cases away from zero. *)
Definition round64 (x : float) : float :=
  match Prim2SF x with
  | S754_finite s m e =>
      if (0 <=? e)%Z then x
      else
        let q := ((2 * Zpos m + 2 ^ (- e)) / 2 ^ (1 - e))%Z in
        SF2Prim (binary_normalize prec emax (if s then - q else q)%Z 0 s)
  | _ => x
  end.

Definition INT_MIN : Z := (- 2 ^ 31)%Z.
Definition INT_MAX : Z := (2 ^ 31 - 1)%Z.

(** [static_cast<int>]: truncation toward zero. *)
Definition to_int64 (x : float) : option Z :=
  match Prim2SF x with
  | S754_zero _ => Some 0%Z
  | S754_finite s m e =>
      let v := (if 0 <=? e then Zpos m * 2 ^ e else Zpos m / 2 ^ (- e))%Z in
      let z := (if s then - v else v)%Z in
      if ((INT_MIN <=? z) && (z <=? INT_MAX))%Z then Some z else None
  | _ => None
  end.

Definition M_PI64 : float := 0x1.921fb54442d18p+1.

#[global] Instance double : Double float :=
  Build_Double of_Q of_Z PrimFloat.add PrimFloat.sub PrimFloat.mul PrimFloat.div
    PrimFloat.ltb M_PI64 PrimFloat.sqrt fmod64 round64 to_int64.

(** A finite table [(argument, value)], NaN off the table. *)
Fixpoint lookup (table : list (float * float)) (x : float) : float :=
  match table with
  | [] => nan
  | (a, v) :: rest => if a =? x then v else lookup rest x
  end.

(** The sines and cosines, rounded to nearest, of the angles the decoded
    coordinates of [JN], [AN], [AA02] and [JR07] give rise to. *)
Definition sin_samples : list (float * float) :=
  [ (-0x1.921fb54442d18p+1, -0x1.1a62633145c07p-53);
    (0x1.921fb54442d18p-1, 0x1.6a09e667f3bccp-1);
    (0x1.86f4291ecf2f3p+0, 0x1.ff833f9da45f7p-1);
    (0x1.921fb54442d18p+0, 1) ].

Definition cos_samples : list (float * float) :=
  [ (-0x1.921fb54442d18p+1, -1);
    (0x1.921fb54442d18p-1, 0x1.6a09e667f3bcdp-1);
    (0x1.86f4291ecf2f3p+0, 0x1.65547c4694e32p-5);
    (-0x1.86f4291ecf2f3p+0, 0x1.65547c4694e32p-5) ].

(** [atan2(y, 1)] rounds to [y] for tiny [y]; a NaN argument gives NaN. *)
Definition atan2_samples (y x : float) : float :=
  if (x =? 1) && (y =? -0x1.8f5a0be038ed7p-54) then y else nan.

(** A math library that answers on the sampled arguments only. *)
Definition sampled_libm : Libm float :=
  {| std_sin := lookup sin_samples;
     std_cos := lookup cos_samples;
     std_atan2 := atan2_samples |}.

(** Neither an infinity nor NaN. *)
Definition finite_sf (x : spec_float) : bool :=
  match x with
  | S754_zero _ | S754_finite _ _ _ => true
  | _ => false
  end.

Definition finite64 (x : float) : bool := finite_sf (Prim2SF x).

(** The real number a finite double stands for (zero for the others). *)
Definition sign_of (s : bool) : R := if s then (-1)%R else 1%R.

Definition SF2R (x : spec_float) : R :=
  match x with
  | S754_finite s m e => (sign_of s * IZR (Zpos m) * powerRZ 2 e)%R
  | _ => 0%R
  end.

Definition to_real (x : float) : R := SF2R (Prim2SF x).

(** What [n] right shifts have dropped from the mantissa [m0]: a remainder
    below [2^n], whose position against one half the round and sticky bits
    record. *)
Definition shifted (m0 n : Z) (mrs : shr_record) : Prop :=
  (0 <= shr_m mrs /\
   exists rem : Z,
     m0 = shr_m mrs * 2 ^ n + rem /\ 0 <= rem < 2 ^ n /\
     match shr_r mrs, shr_s mrs with
     | false, false => rem = 0
     | false, true => 0 < 2 * rem < 2 ^ n
     | true, false => 2 * rem = 2 ^ n
     | true, true => 2 ^ n < 2 * rem
     end)%Z.

(** What the C standard (Annex F) and any usable math library give:
    an odd sine; exact values at zero, with signed zeros kept by [atan2];
    finite sines and cosines of magnitude at most one on finite arguments. *)
Definition sine_odd (lm : Libm float) : Prop :=
  forall x : float, std_sin (- x) = - std_sin x.

Definition exact_at_zero (lm : Libm float) : Prop :=
  std_sin 0 = 0 /\ std_cos 0 = 1 /\
  std_atan2 0 1 = 0 /\ std_atan2 0 0 = 0 /\ std_atan2 (-0) 0 = -0.

Definition unit_bounded (lm : Libm float) : Prop :=
  forall x : float,
    finite64 x = true ->
    (finite64 (std_sin x) = true /\ (abs (std_sin x) <=? 1) = true) /\
    (finite64 (std_cos x) = true /\ (abs (std_cos x) <=? 1) = true).

(** A math library of small-angle approximations: the identity on
    [-1, 1] and a signed zero outside for the sine, one for the cosine,
    [y] for [atan2 (y, x)].  Its sine is odd and bounded. *)
Definition small_angle_libm : Libm float :=
  {| std_sin := fun x => if abs x <=? 1 then x else 0 * x;
     std_cos := fun _ => 1;
     std_atan2 := fun y _ => y |}.

(** The values of a letter offset (0..25) and of a digit offset (0..9). *)
Definition letter_values : list float :=
  map (fun n => of_Z (Z.of_nat n)) (seq 0 26).

Definition digit_values : list float :=
  map (fun n => of_Z (Z.of_nat n)) (seq 0 10).

(** [cell_latitude], [cell_longitude] and [toRadians] with their literals
    evaluated. *)
Definition lat64 (len : nat) (a b c d : float) : float :=
  match len with
  | 2%nat => a * 10 - 90 + 5
  | 4%nat => a * 10 - 90 + b * 1 + 0.5
  | 6%nat => a * 10 - 90 + b * 1 + c * (1 / 24) + 1 / 48
  | _ => a * 10 - 90 + b * 1 + c * (1 / 24) + d * (1 / 240) + 1 / 480
  end.

Definition lon64 (len : nat) (a b c d : float) : float :=
  match len with
  | 2%nat => a * 20 - 180 + 10
  | 4%nat => a * 20 - 180 + b * 2 + 1
  | 6%nat => a * 20 - 180 + b * 2 + c * (2 / 24) + 1 / 24
  | _ => a * 20 - 180 + b * 2 + c * (2 / 24) + d * (2 / 240) + 1 / 240
  end.

Definition rad64 (degrees : float) : float := degrees * M_PI64 / 180.

(** The center of a cell and the radians of its latitude are finite. *)
Definition finite_cell (len : nat) (a b c d : float) : bool :=
  is_finite (lat64 len a b c d)
  && is_finite (rad64 (lat64 len a b c d))
  && is_finite (lon64 len a b c d).

(** Equal labels, both present. *)
Definition same_label (a b : option string) : bool :=
  match a, b with
  | Some x, Some y => String.eqb x y
  | _, _ => false
  end.

(** The ends and the middle of the bucket of the [k]-th compass point
    (the 16th is north again) carry its label: from [22.5 k - 11.25] up
    to the last double below [22.5 k + 11.25], within [0, 360]. *)
Definition bucket_ends64 (k : Z) : bool :=
  let center := of_Z k * 22.5 in
  let label := nth_error directions (Z.to_nat (k mod 16)) in
  same_label (bearingToDirection (if (k =? 0)%Z then 0 else center - 11.25)) label
  && same_label (bearingToDirection center) label
  && same_label
       (bearingToDirection
          (if (k =? 16)%Z then 360 else next_down (center + 11.25)))
       label.

(** How far a double is from the fraction [units / den]: the numerator
    and the denominator of the distance. *)
Definition error_over (x : float) (units den : Z) : Z * Z :=
  match Prim2SF x with
  | S754_finite s m e =>
      let n := if s then Zneg m else Zpos m in
      match e with
      | Zneg p =>
          (Z.abs (den * n - Z.shiftl units (Zpos p)), Z.shiftl den (Zpos p))
      | _ => (Z.abs (den * Z.shiftl n e - units), den)
      end
  | _ => (Z.abs units, den)
  end%Z.

(** Within [2^-44] of [units / den], or equal to it. *)
Definition near (x : float) (units den : Z) (exact : bool) : bool :=
  let '(num, scale) := error_over x units den in
  if exact then (num =? 0)%Z else (Z.shiftl num 44 <=? scale)%Z.

(** The offsets of letters and of digits, with their doubles. *)
Definition letter_offsets : list (Z * float) :=
  map (fun n => (Z.of_nat n, of_Z (Z.of_nat n))) (seq 0 26).

Definition digit_offsets : list (Z * float) :=
  map (fun n => (Z.of_nat n, of_Z (Z.of_nat n))) (seq 0 10).

(** The offsets a tier can take at a length: those of its characters
    when the locator has them, zero otherwise. *)
Definition tier_offsets (present : bool) (offsets : list (Z * float))
    : list (Z * float) :=
  if present then offsets else [(0%Z, of_Z 0)].

(** The doubles of a cell's center are near its units: equal to them for
    the lengths 2 and 4. *)
Definition accurate_cell (len : nat) (a b c d : Z * float) : bool :=
  let units := cell_units len (fst a) (fst b) (fst c) (fst d) in
  near (lat64 len (snd a) (snd b) (snd c) (snd d)) units 480 (len <=? 4)%nat
  && near (lon64 len (snd a) (snd b) (snd c) (snd d)) units 240 (len <=? 4)%nat.

End Binary64.



(** ** The entry points on locators *)

Module Locators.

Section Entry.

Context {D : Type} {dbl : Double D} {libm : Libm D}.

(** [GridSquare::distance]: distance between two grid squares.  (The
    default [unit = Unit::KILOMETERS] is the caller's to write out.) *)
Definition distance (grid1 grid2 : string) (unit : Unit) : result D :=
  coord1 <- toLatLon grid1 ;;
  coord2 <- toLatLon grid2 ;;
  Ok (calculateDistance coord1 coord2 unit).

(** [GridSquare::bearing]: bearing between two grid squares. *)
Definition bearing (grid1 grid2 : string) : result D :=
  coord1 <- toLatLon grid1 ;;
  coord2 <- toLatLon grid2 ;;
  Ok (calculateBearing coord1 coord2).

End Entry.

End Locators.

(** ** The command-line tool ([claudeGridsquareCpp.cpp]) *)

(** The local variables of [main] that the argument loop fills. *)
Record Options : Type := mkOptions {
  opt_grid1 : string;
  opt_grid2 : string;
  opt_unit : Unit;
  opt_verbose : bool
}.

(** [std::string::empty]. *)
Definition empty (s : string) : bool :=
  match s with
  | EmptyString => true
  | String _ _ => false
  end.

(** The four built-in examples of [runExamples]. *)
Definition examples : list (string * string * string) :=
  [ ("FN42", "JO01", "Boston area to London area");
    ("FN42hn", "DM13at", "Massachusetts to Arizona");
    ("CN87", "CN88", "Adjacent grid squares");
    ("JN25", "QF22", "Europe to Australia") ]%string.

Section CommandLine.

Context {D : Type} {dbl : Double D} {libm : Libm D}.
Local Open Scope string_scope.

(** What one built-in example shows: the result in kilometers, the
    distances in miles and in nautical miles, the compass point of the
    bearing. *)
Definition ExampleResult : Type :=
  (DistanceResult D * D * D * option string)%type.

(** What the program writes, piece by piece.  The wording of the usage
    message and the formatting of numbers ([std::fixed], precisions and
    field widths) are not modelled: a piece carries the values written.
    An [ErrorLine] is ["Error: "], the message and a newline on
    [std::cerr]; everything else goes to [std::cout].  A compass point
    that is [None] is a read outside the table. *)
Inductive Output : Type :=
| ErrorLine (message : string)
| Usage (programName : string)
| Examples (lines : list (string * result ExampleResult))
| Hint (programName : string)
| SimpleResult (distance : D) (unit : string)
| VerboseResult (grid1 grid2 : string) (res : DistanceResult D)
    (distKm distMi distNm : D) (direction backDirection : option string).

(** [printVerboseResult] (its [result] is [res] here): the distances in
    all units are computed anew from the locators, before anything is
    written. *)
Definition printVerboseResult (grid1 grid2 : string)
    (res : DistanceResult D) : result Output :=
  distKm <- Locators.distance grid1 grid2 KILOMETERS ;;
  distMi <- Locators.distance grid1 grid2 MILES ;;
  distNm <- Locators.distance grid1 grid2 NAUTICAL_MILES ;;
  Ok (VerboseResult grid1 grid2 res distKm distMi distNm
        (bearingToDirection (bearing res))
        (bearingToDirection (backBearing res))).

Definition printSimpleResult (distance : D) (unit : Unit) : Output :=
  SimpleResult distance (unitToString unit).

(** [runExamples]: each example in its own [try]; an exception becomes
    that example's error text. *)
Definition runExamples : list (string * result ExampleResult) :=
  map (fun ex : string * string * string =>
         let '(grid1, grid2, description) := ex in
         (description,
          res <- calculate grid1 grid2 KILOMETERS ;;
          distMi <- Locators.distance grid1 grid2 MILES ;;
          distNm <- Locators.distance grid1 grid2 NAUTICAL_MILES ;;
          Ok (res, distMi, distNm, bearingToDirection (bearing res))))
      examples.

(** The argument loop of [main] either returns from [main] or runs to
    the end of the arguments. *)
Inductive Parse : Type :=
| Return (output : list Output) (code : Z)
| Parsed (options : Options).

(** The loop [for (int i = 1; i < argc; i++)], on the arguments that are
    left.  [arg[0]] of an empty argument is the terminating NUL. *)
Fixpoint parse (programName : string) (st : Options) (args : list string)
    : Parse :=
  match args with
  | [] => Parsed st
  | arg :: rest =>
      if (arg =? "--help") || (arg =? "-h") then
        Return [Usage programName] 0
      else if (arg =? "--verbose") || (arg =? "-v") then
        parse programName
          (mkOptions (opt_grid1 st) (opt_grid2 st) (opt_unit st) true) rest
      else if (arg =? "--unit") || (arg =? "-u") then
        match rest with
        | unitStr :: rest' =>
            if unitStr =? "km" then
              parse programName
                (mkOptions (opt_grid1 st) (opt_grid2 st) KILOMETERS
                   (opt_verbose st)) rest'
            else if unitStr =? "mi" then
              parse programName
                (mkOptions (opt_grid1 st) (opt_grid2 st) MILES
                   (opt_verbose st)) rest'
            else if unitStr =? "nm" then
              parse programName
                (mkOptions (opt_grid1 st) (opt_grid2 st) NAUTICAL_MILES
                   (opt_verbose st)) rest'
            else
              Return [ErrorLine ("Unknown unit '" ++ unitStr
                                 ++ "'. Use km, mi, or nm.")] 1
        | [] => Return [ErrorLine "--unit requires an argument"] 1
        end
      else if Ascii.eqb (char_at arg 0) "-" then
        Return [ErrorLine ("Unknown option '" ++ arg ++ "'");
                Usage programName] 1
      else if empty (opt_grid1 st) then
        parse programName
          (mkOptions arg (opt_grid2 st) (opt_unit st) (opt_verbose st)) rest
      else if empty (opt_grid2 st) then
        parse programName
          (mkOptions (opt_grid1 st) arg (opt_unit st) (opt_verbose st)) rest
      else
        Return [ErrorLine "Too many arguments"; Usage programName] 1
  end.

(** [main], on [argv[0]] and the arguments after it: what is written and
    the exit status. *)
Definition main (programName : string) (args : list string)
    : list Output * Z :=
  match args with
  | [] => ([Examples runExamples; Hint programName], 0%Z)
  | _ :: _ =>
      match parse programName (mkOptions "" "" KILOMETERS false) args with
      | Return output code => (output, code)
      | Parsed st =>
          let grid1 := opt_grid1 st in
          let grid2 := opt_grid2 st in
          if empty grid1 || empty grid2 then
            ([ErrorLine "Both GRID1 and GRID2 are required";
              Usage programName], 1%Z)
          else
            match
              (if opt_verbose st then
                 res <- calculate grid1 grid2 (opt_unit st) ;;
                 printVerboseResult grid1 grid2 res
               else
                 distance <- Locators.distance grid1 grid2 (opt_unit st) ;;
                 Ok (printSimpleResult distance (opt_unit st)))
            with
            | Ok output => ([output], 0%Z)
            | InvalidArgument what => ([ErrorLine what], 1%Z)
            end
      end
  end.

End CommandLine.

Arguments Output D : clear implicits.
Arguments Parse D : clear implicits.

(** An argument the loop takes for a locator: not empty and not starting
    with a dash. *)
Definition positional (arg : string) : bool :=
  negb (empty arg) && negb (Ascii.eqb (char_at arg 0) "-").

(** The unit names [--unit] accepts. *)
Definition unit_of_name (name : string) : option Unit :=
  if (name =? "km")%string then Some KILOMETERS
  else if (name =? "mi")%string then Some MILES
  else if (name =? "nm")%string then Some NAUTICAL_MILES
  else None.

(** The exit status goes with what is written: 1 when an error line comes
    first, 0 otherwise. *)
Definition well_reported {D : Type} (output : list (Output D)) (code : Z)
    : Prop :=
  match output with
  | ErrorLine _ :: _ => code = 1%Z
  | _ => code = 0%Z
  end.

Section Modes.

Context {D : Type} {dbl : Double D} {libm : Libm D}.

(** What [main] writes and returns once the arguments are read, without
    [--verbose]: the distance with the name of its unit, or the error of
    the decoder. *)
Definition simple_mode (grid1 grid2 : string) (unit : Unit)
    : list (Output D) * Z :=
  match Locators.distance grid1 grid2 unit with
  | Ok d => ([SimpleResult d (unitToString unit)], 0%Z)
  | InvalidArgument what => ([ErrorLine what], 1%Z)
  end.

(** With [--verbose]: the result of [calculate], the distances between its
    two coordinates in the three units and the compass points of its two
    bearings; or the error of the decoder. *)
Definition verbose_mode (grid1 grid2 : string) (unit : Unit)
    : list (Output D) * Z :=
  match calculate grid1 grid2 unit with
  | Ok res =>
      ([VerboseResult grid1 grid2 res
          (calculateDistance (from res) (to res) KILOMETERS)
          (calculateDistance (from res) (to res) MILES)
          (calculateDistance (from res) (to res) NAUTICAL_MILES)
          (bearingToDirection (bearing res))
          (bearingToDirection (backBearing res))], 0%Z)
  | InvalidArgument what => ([ErrorLine what], 1%Z)
  end.

End Modes.


(** * Properties *)

(** ** Characters and strings *)

Lemma transform_length (f : ascii -> ascii) (s : string) :
  String.length (transform f s) = String.length s.
Proof. induction s as [|c s IH]; simpl; congruence. Qed.

Lemma isalpha_toupper (c : ascii) : isalpha (toupper c) = isalpha c.
Proof. destruct c as [[] [] [] [] [] [] [] []]; reflexivity. Qed.

Lemma char_at_transform (s : string) (i : nat) :
  char_at (transform toupper s) i = toupper (char_at s i).
Proof.
  revert i. induction s as [|c s IH]; intros i.
  - destruct i; reflexivity.
  - destruct i as [|i]; [reflexivity|]. apply IH.
Qed.

(** After [toupper] a letter is one of [A]..[Z]; a digit is one of
    [0]..[9]. *)
Lemma letter_offset (c : ascii) :
  isalpha (toupper c) = true -> (0 <= code (toupper c) - code "A" <= 25)%Z.
Proof.
  destruct c as [[] [] [] [] [] [] [] []]; intros H;
    try discriminate H; vm_compute; split; discriminate.
Qed.

Lemma digit_offset (c : ascii) :
  isdigit c = true -> (0 <= code c - code "0" <= 9)%Z.
Proof.
  destruct c as [[] [] [] [] [] [] [] []]; intros H;
    try discriminate H; vm_compute; split; discriminate.
Qed.

Lemma toupper_idempotent (c : ascii) : toupper (toupper c) = toupper c.
Proof. destruct c as [[] [] [] [] [] [] [] []]; reflexivity. Qed.

Lemma transform_toupper_idempotent (s : string) :
  transform toupper (transform toupper s) = transform toupper s.
Proof.
  induction s as [|c s IH]; simpl; [reflexivity|].
  now rewrite toupper_idempotent, IH.
Qed.

(** ** The decoder, in every reading of [double] *)

Section DecoderFacts.

Context {D : Type} {dbl : Double D}.

(** [toLatLon] raises exactly on the inputs the contract rejects. *)
Lemma toLatLon_error (grid : string) :
  is_error (toLatLon grid) = invalid_format grid.
Proof.
  unfold toLatLon, invalid_format.
  set (g := transform toupper grid).
  set (len := String.length g).
  destruct (len =? 2)%nat, (len =? 4)%nat, (len =? 6)%nat, (len =? 8)%nat,
    (4 <=? len)%nat, (6 <=? len)%nat;
    destruct (isalpha (char_at g 0)), (isalpha (char_at g 1)); simpl; try reflexivity;
    destruct (isdigit (char_at g 2)), (isdigit (char_at g 3)); simpl; try reflexivity;
    destruct (isalpha (char_at g 4)), (isalpha (char_at g 5)); simpl; try reflexivity;
    destruct (isdigit (char_at g 6)), (isdigit (char_at g 7)); simpl; reflexivity.
Qed.

Lemma is_error_true {A : Type} (r : result A) :
  is_error r = true <-> exists what, r = InvalidArgument what.
Proof.
  destruct r as [a|w]; simpl; split.
  - discriminate.
  - intros [w H]. discriminate.
  - eauto.
  - reflexivity.
Qed.

Lemma is_error_false {A : Type} (r : result A) :
  is_error r = false <-> exists a, r = Ok a.
Proof.
  destruct r as [a|w]; simpl; split.
  - eauto.
  - reflexivity.
  - discriminate.
  - intros [a H]. discriminate.
Qed.

(** On an accepted locator the tiers accumulate to the cell's center. *)
Lemma toLatLon_center (grid : string) :
  invalid_format grid = false ->
  toLatLon grid =
  Ok {| latitude := center_latitude grid; longitude := center_longitude grid |}.
Proof.
  unfold invalid_format, toLatLon, center_latitude, center_longitude,
    cell_latitude, cell_longitude, digit_of, char_offset, offset,
    half_width, half_height.
  rewrite <- (transform_length toupper grid).
  set (g := transform toupper grid).
  destruct (String.length g) as [|[|[|[|[|[|[|[|[|n]]]]]]]]]; simpl;
    try discriminate;
    destruct (isalpha (char_at g 0)), (isalpha (char_at g 1)); simpl; try discriminate;
    try (destruct (isdigit (char_at g 2)), (isdigit (char_at g 3)); simpl; try discriminate);
    try (destruct (isalpha (char_at g 4)), (isalpha (char_at g 5)); simpl; try discriminate);
    try (destruct (isdigit (char_at g 6)), (isdigit (char_at g 7)); simpl; try discriminate);
    intros _; reflexivity.
Qed.

(** Two letters are always accepted. *)
Lemma two_letters_accepted (c1 c2 : ascii) :
  isalpha c1 = true -> isalpha c2 = true ->
  invalid_format (String c1 (String c2 EmptyString)) = false.
Proof.
  intros H1 H2. unfold invalid_format. simpl. unfold char_at. simpl.
  now rewrite !isalpha_toupper, H1, H2.
Qed.

(** What an accepted locator looks like. *)
Lemma valid_shape (grid : string) :
  invalid_format grid = false ->
  let s := transform toupper grid in
  let len := String.length grid in
  (len = 2 \/ len = 4 \/ len = 6 \/ len = 8)%nat /\
  isalpha (char_at s 0) = true /\ isalpha (char_at s 1) = true /\
  ((4 <= len)%nat ->
   isdigit (char_at s 2) = true /\ isdigit (char_at s 3) = true) /\
  ((6 <= len)%nat ->
   isalpha (char_at s 4) = true /\ isalpha (char_at s 5) = true) /\
  (len = 8%nat ->
   isdigit (char_at s 6) = true /\ isdigit (char_at s 7) = true).
Proof.
  unfold invalid_format. rewrite transform_length.
  set (s := transform toupper grid).
  destruct (String.length grid) as [|[|[|[|[|[|[|[|[|n]]]]]]]]]; simpl;
    try discriminate;
    destruct (isalpha (char_at s 0)), (isalpha (char_at s 1)); simpl; try discriminate;
    destruct (isdigit (char_at s 2)), (isdigit (char_at s 3)); simpl; try discriminate;
    destruct (isalpha (char_at s 4)), (isalpha (char_at s 5)); simpl; try discriminate;
    destruct (isdigit (char_at s 6)), (isdigit (char_at s 7)); simpl; try discriminate;
    intros _; repeat split; auto; intros; lia.
Qed.

(** [calculate] decodes both locators and fills the record. *)
Lemma calculate_ok {libm : Libm D} (grid1 grid2 : string) (unit : Unit)
    (coord1 coord2 : Coordinate D) :
  toLatLon grid1 = Ok coord1 -> toLatLon grid2 = Ok coord2 ->
  calculate grid1 grid2 unit =
  Ok {| distance := calculateDistance coord1 coord2 unit;
        bearing := calculateBearing coord1 coord2;
        backBearing := calculateBearing coord2 coord1;
        from := coord1;
        to := coord2 |}.
Proof. intros H1 H2. unfold calculate. now rewrite H1, H2. Qed.

End DecoderFacts.

(** C1.  On every locator that passes validation, [toLatLon] returns the
    center of the locator's cell: the field, square, subsquare and
    extended-square offsets present at that length, plus the half-width
    and half-height of the finest tier, on the upper-cased characters.
    This holds in every reading of [double]: the sums are formed in the
    order the contract writes them. *)
Theorem toLatLon_returns_cell_center
    (D : Type) (dbl : Double D) (grid : string) :
  invalid_format grid = false ->
  toLatLon grid =
  Ok {| latitude := center_latitude grid; longitude := center_longitude grid |}.
Proof. apply toLatLon_center. Qed.

Lemma toLatLon_returns_cell_center_witness :
  invalid_format "fn42hn" = false /\
  @toLatLon PrimFloat.float Binary64.double "fn42hn" =
  Ok {| latitude := center_latitude "fn42hn";
        longitude := center_longitude "fn42hn" |}.
Proof.
  split; [reflexivity|].
  apply (toLatLon_returns_cell_center PrimFloat.float Binary64.double "fn42hn").
  reflexivity.
Defined.

(** C2.  [toLatLon] fails with [std::invalid_argument] exactly when the
    case-normalized input breaks one of the five format rules, and returns
    a coordinate on every other input; "F", "12AB" and "FNAB" fail. *)
Theorem toLatLon_fails_iff_invalid_format
    (D : Type) (dbl : Double D) (grid : string) :
  ((exists what : string, @toLatLon D dbl grid = InvalidArgument what) <->
   invalid_format grid = true) /\
  ((exists coord : Coordinate D, toLatLon grid = Ok coord) <->
   invalid_format grid = false) /\
  is_error (@toLatLon D dbl "F") = true /\
  is_error (@toLatLon D dbl "12AB") = true /\
  is_error (@toLatLon D dbl "FNAB") = true.
Proof.
  repeat split; try reflexivity.
  - intros H. apply is_error_true in H. now rewrite toLatLon_error in H.
  - intros H. apply is_error_true. now rewrite toLatLon_error.
  - intros H. apply is_error_false in H. now rewrite toLatLon_error in H.
  - intros H. apply is_error_false. now rewrite toLatLon_error.
Qed.

(** ** The exact reading *)

Module ExactFacts.

Import Exact.
Local Open Scope R_scope.

(** Literals to their values. *)
Ltac eval_lits :=
  repeat match goal with
  | |- context [Qred ?q] =>
      let r := eval vm_compute in (Qred q) in change (Qred q) with r
  end.

(** The operations of [double] to the operations of [R]. *)
Ltac exact_arith :=
  eval_lits;
  cbn [lit of_int add sub mul div ltb M_PI std_sqrt fmod std_round to_int
       std_sin std_cos std_atan2 double libm];
  unfold Q2R; cbn [Qnum Qden].

(** Character offsets inside a real-valued goal to their values. *)
Ltac eval_offsets :=
  repeat match goal with
  | |- context [IZR (code ?c - code ?b)] =>
      let v := eval vm_compute in (code c - code b)%Z in
      change (code c - code b)%Z with v
  end.

(** *** Truncation, [fmod] and [round] *)

Lemma Rtrunc_nonneg (x : R) :
  0 <= x -> IZR (Rtrunc x) <= x < IZR (Rtrunc x) + 1.
Proof.
  intros Hx. unfold Rtrunc. destruct (Rle_dec 0 x) as [_|n]; [|contradiction].
  destruct (base_Int_part x). lra.
Qed.

Lemma Rtrunc_neg (x : R) :
  x < 0 -> x <= IZR (Rtrunc x) < x + 1.
Proof.
  intros Hx. unfold Rtrunc. destruct (Rle_dec 0 x) as [H|_]; [lra|].
  rewrite opp_IZR. destruct (base_Int_part (- x)). lra.
Qed.

Lemma Rtrunc_IZR (n : Z) : Rtrunc (IZR n) = n.
Proof.
  destruct (Rle_dec 0 (IZR n)) as [H|H].
  - destruct (Rtrunc_nonneg _ H) as [H1 H2].
    apply le_IZR in H1. rewrite <- plus_IZR in H2. apply lt_IZR in H2. lia.
  - apply Rnot_le_lt in H. destruct (Rtrunc_neg _ H) as [H1 H2].
    apply le_IZR in H1. rewrite <- plus_IZR in H2. apply lt_IZR in H2. lia.
Qed.

Lemma Int_part_unique (x : R) (n : Z) :
  IZR n <= x < IZR n + 1 -> Int_part x = n.
Proof.
  intros [H1 H2]. destruct (base_Int_part x) as [H3 H4].
  assert (Ha : IZR (Int_part x) < IZR (n + 1)) by (rewrite plus_IZR; lra).
  assert (Hb : IZR n < IZR (Int_part x + 1)) by (rewrite plus_IZR; lra).
  apply lt_IZR in Ha, Hb. lia.
Qed.

(** For a positive modulus the remainder keeps the sign of the dividend. *)
Lemma Rfmod_nonneg (x y : R) :
  0 < y -> 0 <= x -> 0 <= Rfmod x y < y.
Proof.
  intros Hy Hx. unfold Rfmod.
  assert (Hq : 0 <= x / y)
    by (apply Rmult_le_pos; [lra | left; now apply Rinv_0_lt_compat]).
  destruct (Rtrunc_nonneg _ Hq) as [H1 H2].
  assert (E : x = x / y * y) by (field; lra).
  split.
  - apply Rmult_le_compat_r with (r := y) in H1; lra.
  - apply Rmult_lt_compat_r with (r := y) in H2; lra.
Qed.

Lemma Rfmod_neg (x y : R) :
  0 < y -> x < 0 -> - y < Rfmod x y <= 0.
Proof.
  intros Hy Hx. unfold Rfmod.
  assert (Hq : x / y < 0).
  { unfold Rdiv. rewrite <- (Rmult_0_l (/ y)).
    apply Rmult_lt_compat_r; [now apply Rinv_0_lt_compat | lra]. }
  destruct (Rtrunc_neg _ Hq) as [H1 H2].
  assert (E : x = x / y * y) by (field; lra).
  split.
  - apply Rmult_lt_compat_r with (r := y) in H2; lra.
  - apply Rmult_le_compat_r with (r := y) in H1; lra.
Qed.

Lemma Rfmod_small (x y : R) : 0 <= x < y -> Rfmod x y = x.
Proof.
  intros [H0 H1]. unfold Rfmod.
  assert (Hy : 0 < y) by lra.
  assert (Hq : 0 <= x / y < 1).
  { split.
    - apply Rmult_le_pos; [lra | left; now apply Rinv_0_lt_compat].
    - apply Rmult_lt_reg_r with (r := y); [lra|].
      replace (x / y * y) with x by (field; lra). lra. }
  unfold Rtrunc. destruct (Rle_dec 0 (x / y)) as [_|n]; [|lra].
  rewrite (Int_part_unique (x / y) 0) by (simpl; lra). simpl. ring.
Qed.

Lemma Rround_nearest (x : R) (n : Z) :
  0 <= x -> IZR n - / 2 <= x < IZR n + / 2 -> Rround x = IZR n.
Proof.
  intros Hx Hn. unfold Rround.
  destruct (Rle_dec 0 x) as [_|H]; [|contradiction].
  f_equal. apply Int_part_unique. lra.
Qed.

Lemma Rto_int_IZR (n : Z) :
  (INT_MIN <= n <= INT_MAX)%Z -> Rto_int (IZR n) = Some n.
Proof.
  intros [H1 H2]. unfold Rto_int. rewrite Rtrunc_IZR.
  apply Z.leb_le in H1, H2. rewrite H1, H2. reflexivity.
Qed.

(** *** Angles *)

Lemma normalizeAngle_range (angle : R) :
  0 <= normalizeAngle angle < 360.
Proof.
  unfold normalizeAngle. exact_arith.
  replace (360 * / 1) with 360 by lra.
  unfold Rltb.
  destruct (Rlt_dec (Rfmod angle 360) 0) as [Hneg|Hpos];
    destruct (Rlt_dec angle 0) as [Ha|Ha];
    try (destruct (Rfmod_neg angle 360); lra);
    destruct (Rfmod_nonneg angle 360); lra.
Qed.

Lemma normalizeAngle_small (angle : R) :
  0 <= angle < 360 -> normalizeAngle angle = angle.
Proof.
  intros H. unfold normalizeAngle. exact_arith.
  replace (360 * / 1) with 360 by lra.
  rewrite Rfmod_small by exact H.
  unfold Rltb. destruct (Rlt_dec angle 0); [lra | reflexivity].
Qed.

Lemma Rfmod_small_neg (x y : R) : - y < x < 0 -> Rfmod x y = x.
Proof.
  intros [H0 H1]. unfold Rfmod.
  assert (Hy : 0 < y) by lra.
  assert (Hq : -1 < x / y < 0).
  { split.
    - apply Rmult_lt_reg_r with (r := y); [lra|].
      replace (x / y * y) with x by (field; lra). lra.
    - apply Rmult_lt_reg_r with (r := y); [lra|].
      replace (x / y * y) with x by (field; lra). lra. }
  unfold Rtrunc. destruct (Rle_dec 0 (x / y)) as [n|_]; [lra|].
  rewrite (Int_part_unique (- (x / y)) 0) by (simpl; lra). simpl. ring.
Qed.

Lemma normalizeAngle_neg (angle : R) :
  -360 < angle < 0 -> normalizeAngle angle = angle + 360.
Proof.
  intros H. unfold normalizeAngle. exact_arith.
  replace (360 * / 1) with 360 by lra.
  rewrite Rfmod_small_neg by lra.
  unfold Rltb. destruct (Rlt_dec angle 0); [reflexivity | lra].
Qed.

Lemma toRadians_0 : toRadians 0 = 0.
Proof. unfold toRadians. exact_arith. unfold Rdiv. ring. Qed.

Lemma toDegrees_0 : toDegrees 0 = 0.
Proof. unfold toDegrees. exact_arith. unfold Rdiv. ring. Qed.

Lemma toRadians_sub (x y : R) : toRadians (x - y) = toRadians x - toRadians y.
Proof. unfold toRadians. exact_arith. field. Qed.

Lemma Ratan2_0_0 : Ratan2 0 0 = 0.
Proof. unfold Ratan2. repeat (destruct (Rlt_dec _ _); try lra). Qed.

Lemma Ratan2_0_1 : Ratan2 0 1 = 0.
Proof.
  unfold Ratan2. destruct (Rlt_dec 0 1); [|lra].
  replace (0 / 1) with 0 by field. apply atan_0.
Qed.

(** *** The Haversine intermediate *)

Lemma cos_cos_half (a b : R) :
  cos a * cos b =
  cos ((a + b) / 2) * cos ((a + b) / 2) - sin ((b - a) / 2) * sin ((b - a) / 2).
Proof.
  set (q := (a + b) / 2). set (p := (b - a) / 2).
  replace a with (q - p) by (unfold p, q; field).
  replace b with (q + p) by (unfold p, q; field).
  rewrite cos_minus, cos_plus.
  pose proof (sin2_cos2 p) as Hp. pose proof (sin2_cos2 q) as Hq.
  unfold Rsqr in Hp, Hq.
  replace (q - p + (q + p)) with (2 * q) by ring.
  replace (q + p - (q - p)) with (2 * p) by ring.
  replace (2 * q / 2) with q by field.
  replace (2 * p / 2) with p by field.
  nra.
Qed.

(** In exact arithmetic the intermediate is a convex combination of a
    squared sine and a squared cosine. *)
Lemma haversine_unit_interval (coord1 coord2 : Coordinate R) :
  0 <= haversine coord1 coord2 <= 1.
Proof.
  unfold haversine. rewrite toRadians_sub. exact_arith.
  replace (2 * / 1) with 2 by lra.
  set (a := toRadians (latitude coord1)).
  set (b := toRadians (latitude coord2)).
  set (e := toRadians (longitude coord2 - longitude coord1)).
  rewrite (cos_cos_half a b).
  pose proof (sin2_cos2 ((b - a) / 2)) as Hp.
  pose proof (sin2_cos2 ((a + b) / 2)) as Hq.
  pose proof (sin2_cos2 (e / 2)) as He.
  unfold Rsqr in Hp, Hq, He.
  generalize dependent (sin ((b - a) / 2)). intros sp.
  generalize dependent (cos ((b - a) / 2)). intros cp.
  generalize dependent (sin ((a + b) / 2)). intros sq.
  generalize dependent (cos ((a + b) / 2)). intros cq.
  generalize dependent (sin (e / 2)). intros t.
  generalize dependent (cos (e / 2)). intros ct.
  intros.
  assert (0 <= sp * sp <= 1) by nra.
  assert (0 <= cq * cq <= 1) by nra.
  assert (0 <= t * t <= 1) by nra.
  replace (sp * sp + (cq * cq - sp * sp) * t * t)
    with (sp * sp * (1 - t * t) + cq * cq * (t * t)) by ring.
  set (A := sp * sp) in *. set (C := cq * cq) in *. set (T := t * t) in *.
  assert (0 <= A * (1 - T)) by (apply Rmult_le_pos; lra).
  assert (0 <= C * T) by (apply Rmult_le_pos; lra).
  assert (A * (1 - T) <= 1 * (1 - T)) by (apply Rmult_le_compat_r; lra).
  assert (C * T <= 1 * T) by (apply Rmult_le_compat_r; lra).
  lra.
Qed.

Lemma haversine_sym (coord1 coord2 : Coordinate R) :
  haversine coord1 coord2 = haversine coord2 coord1.
Proof.
  unfold haversine. rewrite !toRadians_sub. exact_arith.
  set (a := toRadians (latitude coord1)).
  set (b := toRadians (latitude coord2)).
  set (u := toRadians (longitude coord1)).
  set (v := toRadians (longitude coord2)).
  replace ((a - b) / (2 * / 1)) with (- ((b - a) / (2 * / 1))) by field.
  replace ((u - v) / (2 * / 1)) with (- ((v - u) / (2 * / 1))) by field.
  rewrite !sin_neg. ring.
Qed.

Lemma haversine_self (coord : Coordinate R) : haversine coord coord = 0.
Proof.
  unfold haversine. exact_arith.
  replace (latitude coord - latitude coord) with 0 by ring.
  replace (longitude coord - longitude coord) with 0 by ring.
  rewrite toRadians_0. replace (0 / (2 * / 1)) with 0 by field.
  rewrite sin_0. ring.
Qed.

(** *** Distance and bearing of a point to itself *)

Lemma calculateDistance_self (coord : Coordinate R) (unit : Unit) :
  calculateDistance coord coord unit = 0.
Proof.
  unfold calculateDistance, central_angle. rewrite haversine_self. exact_arith.
  replace (1 * / 1 - 0) with 1 by field.
  rewrite sqrt_0, sqrt_1, Ratan2_0_1. ring.
Qed.

Lemma calculateBearing_self (coord : Coordinate R) :
  calculateBearing coord coord = 0.
Proof.
  unfold calculateBearing. exact_arith.
  replace (longitude coord - longitude coord) with 0 by ring.
  rewrite toRadians_0, sin_0, cos_0.
  set (l := toRadians (latitude coord)).
  replace (0 * cos l) with 0 by ring.
  replace (cos l * sin l - sin l * cos l * 1) with 0 by ring.
  rewrite Ratan2_0_0, toDegrees_0. apply normalizeAngle_small. lra.
Qed.

(** *** Bearings along a parallel *)

Lemma toRadians_range (d : R) : 0 < d < 180 -> 0 < toRadians d < PI.
Proof.
  intros H. unfold toRadians. exact_arith. pose proof PI_RGT_0.
  split.
  - apply Rmult_lt_0_compat; [|lra]. apply Rmult_lt_0_compat; lra.
  - replace (d * PI / (180 * / 1)) with (PI * (d / 180)) by (field).
    rewrite <- (Rmult_1_r PI) at 2. apply Rmult_lt_compat_l; lra.
Qed.

Lemma toRadians_opp (d : R) : toRadians (- d) = - toRadians d.
Proof. unfold toRadians. exact_arith. field. Qed.

Lemma cos_lt_1 (x : R) : 0 < x < PI -> cos x < 1.
Proof.
  intros H. pose proof (sin_gt_0 x (proj1 H) (proj2 H)) as Hs.
  pose proof (sin2_cos2 x) as E. unfold Rsqr in E.
  destruct (Rlt_le_dec (cos x) 1) as [L|L]; [exact L|]. nra.
Qed.

(** Two points on one parallel of the northern hemisphere, the second to
    the east: the course starts east of north, less than 90 degrees, and
    the back course is its mirror image, not its opposite. *)
Lemma bearings_along_parallel (lat lon1 lon2 : R) :
  0 < lat < 90 -> 0 < lon2 - lon1 < 180 ->
  let c1 := {| latitude := lat; longitude := lon1 |} in
  let c2 := {| latitude := lat; longitude := lon2 |} in
  0 < calculateBearing c1 c2 < 90 /\
  calculateBearing c2 c1 = 360 - calculateBearing c1 c2.
Proof.
  intros Hlat Hlon c1 c2. unfold calculateBearing, c1, c2.
  cbn [latitude longitude]. exact_arith.
  replace (lon1 - lon2) with (- (lon2 - lon1)) by ring.
  rewrite toRadians_opp.
  set (l := toRadians lat). set (e := toRadians (lon2 - lon1)).
  assert (Hl : 0 < l < PI / 2).
  { unfold l, toRadians. exact_arith. pose proof PI_RGT_0. split.
    - apply Rmult_lt_0_compat; [|lra]. apply Rmult_lt_0_compat; lra.
    - replace (lat * PI / (180 * / 1)) with (PI / 2 * (lat / 90)) by field.
      rewrite <- (Rmult_1_r (PI / 2)) at 2. apply Rmult_lt_compat_l; lra. }
  assert (He : 0 < e < PI) by (apply toRadians_range; exact Hlon).
  rewrite sin_neg, cos_neg.
  assert (Hsl : 0 < sin l) by (apply sin_gt_0; lra).
  assert (Hcl : 0 < cos l) by (apply cos_gt_0; lra).
  assert (Hse : 0 < sin e) by (apply sin_gt_0; lra).
  assert (Hce : cos e < 1) by (apply cos_lt_1; exact He).
  set (x := sin e * cos l).
  set (y := cos l * sin l - sin l * cos l * cos e).
  assert (Hx : 0 < x) by (unfold x; apply Rmult_lt_0_compat; assumption).
  assert (Hy : 0 < y).
  { unfold y. replace (cos l * sin l - sin l * cos l * cos e)
      with (cos l * sin l * (1 - cos e)) by ring.
    apply Rmult_lt_0_compat; [apply Rmult_lt_0_compat; assumption | lra]. }
  replace (- sin e * cos l) with (- x) by (unfold x; ring).
  unfold Ratan2. destruct (Rlt_dec 0 y) as [_|N]; [|contradiction].
  replace (- x / y) with (- (x / y)) by (field; lra).
  rewrite atan_opp.
  assert (Hq : 0 < x / y) by (apply Rdiv_lt_0_compat; assumption).
  assert (Ha : 0 < atan (x / y) < PI / 2).
  { split; [rewrite <- atan_0; apply atan_increasing; exact Hq|].
    apply atan_bound. }
  set (t := atan (x / y)) in *.
  assert (Hd : 0 < toDegrees t < 90).
  { unfold toDegrees. exact_arith. pose proof PI_RGT_0. split.
    - apply Rmult_lt_0_compat; [|apply Rinv_0_lt_compat; lra].
      apply Rmult_lt_0_compat; lra.
    - apply Rmult_lt_reg_r with (r := PI); [lra|].
      replace (t * (180 * / 1) / PI * PI) with (t * 180) by (field; lra). lra. }
  assert (Hn : toDegrees (- t) = - toDegrees t)
    by (unfold toDegrees; exact_arith; field; pose proof PI_RGT_0; lra).
  rewrite Hn, normalizeAngle_small by lra.
  rewrite normalizeAngle_neg by lra. split; [exact Hd | ring].
Qed.

Lemma toLatLon_exact_centers :
  @toLatLon R double "JN" = Ok {| latitude := 45; longitude := 10 |} /\
  @toLatLon R double "LN" = Ok {| latitude := 45; longitude := 50 |}.
Proof.
  split; rewrite toLatLon_center by reflexivity; do 2 f_equal;
    unfold center_latitude, center_longitude, cell_latitude, cell_longitude,
      digit_of, char_offset, half_width, half_height;
    cbn [String.length pred]; exact_arith; eval_offsets; lra.
Qed.

(** *** Compass points *)

Lemma direction_at_nonneg (n : Z) :
  (0 <= n)%Z ->
  direction_at (Z.rem n 16) = nth_error directions (Z.to_nat (n mod 16)).
Proof.
  intros Hn. rewrite Z.rem_mod_nonneg by lia.
  unfold direction_at.
  destruct (Z.ltb_spec (n mod 16) 0) as [H|H]; [|reflexivity].
  pose proof (Z.mod_pos_bound n 16). lia.
Qed.

(** [round (b / 22.5) = n] selects entry [n mod 16] of the table. *)
Lemma bearingToDirection_round (b : R) (n : Z) :
  0 <= b -> IZR n - / 2 <= b / 22.5 < IZR n + / 2 -> (n <= INT_MAX)%Z ->
  bearingToDirection b = nth_error directions (Z.to_nat (n mod 16)).
Proof.
  intros Hb Hn Hmax. unfold bearingToDirection. exact_arith.
  replace (b / (45 * / 2)) with (b / 22.5) by lra.
  assert (Hq : 0 <= b / 22.5) by (apply Rmult_le_pos; lra).
  rewrite (Rround_nearest _ n Hq Hn).
  assert (H0 : (0 <= n)%Z).
  { assert (H : IZR (-1) < IZR n) by lra. apply lt_IZR in H. lia. }
  rewrite Rto_int_IZR by (unfold INT_MIN, INT_MAX in *; lia).
  now apply direction_at_nonneg.
Qed.

(** *** Distance: symmetry, units, a point and itself *)

Lemma calculateDistance_sym (coord1 coord2 : Coordinate R) (unit : Unit) :
  calculateDistance coord1 coord2 unit = calculateDistance coord2 coord1 unit.
Proof.
  unfold calculateDistance, central_angle. now rewrite (haversine_sym coord1 coord2).
Qed.

(** In exact arithmetic the radius rescales the distance exactly. *)
Lemma calculateDistance_ratio_exact (coord1 coord2 : Coordinate R) :
  calculateDistance coord1 coord2 MILES =
    calculateDistance coord1 coord2 KILOMETERS * (3959 / 6371) /\
  calculateDistance coord1 coord2 NAUTICAL_MILES =
    calculateDistance coord1 coord2 KILOMETERS * (3440 / 6371).
Proof.
  unfold calculateDistance, radius, EARTH_RADIUS_KM, EARTH_RADIUS_MI,
    EARTH_RADIUS_NM.
  exact_arith. split; field.
Qed.

Lemma radius_ratios_exact :
  @EARTH_RADIUS_MI R double / @EARTH_RADIUS_KM R double = 3959 / 6371 /\
  @EARTH_RADIUS_NM R double / @EARTH_RADIUS_KM R double = 3440 / 6371.
Proof.
  unfold EARTH_RADIUS_KM, EARTH_RADIUS_MI, EARTH_RADIUS_NM.
  exact_arith. split; field.
Qed.

Lemma calculate_self_exact (grid : string) (unit : Unit) :
  invalid_format grid = false ->
  exists r : DistanceResult R,
    calculate grid grid unit = Ok r /\
    distance r = 0 /\ bearing r = 0 /\ backBearing r = 0.
Proof.
  intros Hvalid.
  pose proof (toLatLon_center (D := R) grid Hvalid) as Hc.
  eexists. split; [exact (calculate_ok grid grid unit _ _ Hc Hc)|].
  cbn [distance bearing backBearing].
  rewrite calculateDistance_self, calculateBearing_self. auto.
Qed.

(** *** What exact arithmetic guarantees *)

(** In exact arithmetic the Haversine intermediate lies in [0, 1]:
    both arguments of [sqrt] in [calculateDistance] are non-negative. *)
Theorem haversine_exact_in_unit_interval (coord1 coord2 : Coordinate R) :
  0 <= haversine coord1 coord2 <= 1 /\
  0 <= 1 - haversine coord1 coord2.
Proof. pose proof (haversine_unit_interval coord1 coord2). lra. Qed.

(** In exact arithmetic [calculateBearing] lies in [0, 360). *)
Theorem calculateBearing_exact_range (coord1 coord2 : Coordinate R) :
  0 <= calculateBearing coord1 coord2 < 360.
Proof. unfold calculateBearing. apply normalizeAngle_range. Qed.

End ExactFacts.

(** ** The binary64 reading *)

Module Binary64Facts.

Import Floats Binary64.
Local Open Scope string_scope.
Local Open Scope float_scope.

(** Arguments of the math library that are free of it, to their values. *)
Ltac libm_free a :=
  lazymatch a with
  | context [@std_sin] => fail
  | context [@std_cos] => fail
  | context [@std_atan2] => fail
  | _ => idtac
  end.

Ltac eval_arg a :=
  libm_free a; progress (let v := eval vm_compute in a in change a with v).

Ltac eval_args :=
  repeat match goal with
  | |- context [std_sin ?a] => eval_arg a
  | |- context [std_cos ?a] => eval_arg a
  | |- context [std_atan2 ?a ?b] => eval_arg a
  | |- context [std_atan2 ?a ?b] => eval_arg b
  end.

(** *** Decoding the locators used below *)

Lemma toLatLon_JN : toLatLon "JN" = Ok {| latitude := 45; longitude := 10 |}.
Proof. vm_compute. reflexivity. Qed.

Lemma toLatLon_AN : toLatLon "AN" = Ok {| latitude := 45; longitude := -170 |}.
Proof. vm_compute. reflexivity. Qed.

Lemma toLatLon_AA02 :
  toLatLon "AA02" = Ok {| latitude := -87.5; longitude := -179 |}.
Proof. vm_compute. reflexivity. Qed.

Lemma toLatLon_JR07 :
  toLatLon "JR07" = Ok {| latitude := 87.5; longitude := 1 |}.
Proof. vm_compute. reflexivity. Qed.

(** *** Normalization under rounding *)

(** A negative remainder below half an ulp of 360 is absorbed by the
    addition: the sum rounds to 360 itself. *)
Lemma normalizeAngle_absorbs :
  normalizeAngle (-0x1p-60) = 360 /\
  normalizeAngle (toDegrees (-0x1.8f5a0be038ed7p-54)) = 360 /\
  (360 <? 360) = false.
Proof. repeat split; vm_compute; reflexivity. Qed.

Lemma normalizeAngle_in_range_samples :
  normalizeAngle 725.5 = 5.5 /\ normalizeAngle (-725.5) = 354.5 /\
  normalizeAngle 360 = 0 /\ normalizeAngle (-90) = 270.
Proof. repeat split; vm_compute; reflexivity. Qed.

(** *** Bearing across the antimeridian *)

(** C4 (initialBearing is in [0, 360)), evaluated in binary64 on the
    locators JN and AN.  Their centers (45, 10) and (45, -170) lie 180
    degrees of longitude apart.  For a math library that returns the
    correctly rounded sine, cosine and arc tangent at the five arguments
    met, [atan2] is a negative number of magnitude below 1e-16, its degrees
    are below half an ulp of 360, and [normalizeAngle] returns 360: the
    bearing is not below 360. *)
Theorem calculateBearing_reaches_360 (libm : Libm float) :
  std_sin (-0x1.921fb54442d18p+1) = -0x1.1a62633145c07p-53 ->
  std_sin 0x1.921fb54442d18p-1 = 0x1.6a09e667f3bccp-1 ->
  std_cos 0x1.921fb54442d18p-1 = 0x1.6a09e667f3bcdp-1 ->
  std_cos (-0x1.921fb54442d18p+1) = -1 ->
  std_atan2 (-0x1.8f5a0be038ed7p-54) 1 = -0x1.8f5a0be038ed7p-54 ->
  exists from to : Coordinate float,
    toLatLon "JN" = Ok from /\ toLatLon "AN" = Ok to /\
    calculateBearing from to = 360 /\
    (calculateBearing from to <? 360) = false.
Proof.
  intros Hs1 Hs2 Hc2 Hc1 Hat.
  exists {| latitude := 45; longitude := 10 |},
         {| latitude := 45; longitude := -170 |}.
  split; [exact toLatLon_JN|]. split; [exact toLatLon_AN|].
  assert (E : calculateBearing {| latitude := 45; longitude := 10 |}
                {| latitude := 45; longitude := -170 |} = 360).
  { unfold calculateBearing. cbn [latitude longitude].
    eval_args. rewrite Hs1, Hs2, Hc2, Hc1.
    eval_args. rewrite Hat.
    exact (proj1 (proj2 normalizeAngle_absorbs)). }
  rewrite E. split; reflexivity.
Qed.

Lemma calculateBearing_reaches_360_witness :
  exists from to : Coordinate float,
    toLatLon "JN" = Ok from /\ toLatLon "AN" = Ok to /\
    @calculateBearing float double sampled_libm from to = 360 /\
    (@calculateBearing float double sampled_libm from to <? 360) = false.
Proof.
  apply (calculateBearing_reaches_360 sampled_libm); vm_compute; reflexivity.
Defined.

(** *** Distance between antipodal cells *)

(** C3 (the Haversine intermediate stays in [0, 1]), evaluated in binary64
    on the locators AA02 and JR07, whose centers (-87.5, -179) and
    (87.5, 1) are antipodal.  For a math library that returns the correctly
    rounded sine and cosine at the four arguments met, and NaN for
    [atan2] of a NaN, the intermediate is 1 + 2^-52, [1 - a] is negative,
    its square root is NaN and so is the distance, in every unit. *)
Theorem calculateDistance_antipodal_nan (libm : Libm float) :
  std_sin 0x1.86f4291ecf2f3p+0 = 0x1.ff833f9da45f7p-1 ->
  std_cos (-0x1.86f4291ecf2f3p+0) = 0x1.65547c4694e32p-5 ->
  std_cos 0x1.86f4291ecf2f3p+0 = 0x1.65547c4694e32p-5 ->
  std_sin 0x1.921fb54442d18p+0 = 1 ->
  (forall y : float, std_atan2 y nan = nan) ->
  exists from to : Coordinate float,
    toLatLon "AA02" = Ok from /\ toLatLon "JR07" = Ok to /\
    haversine from to = 0x1.0000000000001p+0 /\
    (1 <? haversine from to) = true /\
    (1 - haversine from to <? 0) = true /\
    is_nan (sqrt (1 - haversine from to)) = true /\
    forall unit : Unit, is_nan (calculateDistance from to unit) = true.
Proof.
  intros Hs1 Hc1 Hc2 Hs2 Hnan.
  exists {| latitude := -87.5; longitude := -179 |},
         {| latitude := 87.5; longitude := 1 |}.
  split; [exact toLatLon_AA02|]. split; [exact toLatLon_JR07|].
  assert (E : haversine {| latitude := -87.5; longitude := -179 |}
                {| latitude := 87.5; longitude := 1 |} = 0x1.0000000000001p+0).
  { unfold haversine. cbn [latitude longitude].
    eval_args. rewrite Hs1, Hc1, Hc2, Hs2. vm_compute. reflexivity. }
  unfold calculateDistance, central_angle. rewrite E.
  repeat (split; [vm_compute; reflexivity|]).
  intros unit. eval_args. rewrite Hnan. destruct unit; vm_compute; reflexivity.
Qed.

Lemma calculateDistance_antipodal_nan_witness :
  exists from to : Coordinate float,
    toLatLon "AA02" = Ok from /\ toLatLon "JR07" = Ok to /\
    @haversine float double sampled_libm from to = 0x1.0000000000001p+0 /\
    (1 <? @haversine float double sampled_libm from to) = true /\
    (1 - @haversine float double sampled_libm from to <? 0) = true /\
    is_nan (sqrt (1 - @haversine float double sampled_libm from to)) = true /\
    forall unit : Unit,
      is_nan (@calculateDistance float double sampled_libm from to unit) = true.
Proof.
  apply (calculateDistance_antipodal_nan sampled_libm);
    try (intros y); vm_compute; reflexivity.
Defined.

(** *** Negation commutes with the operations *)

Lemma opp_involutive (x : float) : - - x = x.
Proof.
  apply Prim2SF_inj. rewrite !opp_spec.
  destruct (Prim2SF x) as [s|s| |s m e]; simpl; now rewrite ?negb_involutive.
Qed.

Lemma SFmul_comm (a b : spec_float) : SF64mul a b = SF64mul b a.
Proof.
  unfold SF64mul.
  destruct a as [sa|sa| |sa ma ea], b as [sb|sb| |sb mb eb]; simpl;
    rewrite ?(xorb_comm sa sb), ?(Pos.mul_comm ma mb), ?(Z.add_comm ea eb);
    reflexivity.
Qed.

Lemma mul_comm (x y : float) : x * y = y * x.
Proof. apply Prim2SF_inj. rewrite !mul_spec. apply SFmul_comm. Qed.

Lemma binary_round_aux_opp (s : bool) (m e : Z) (l : location) :
  binary_round_aux prec emax (negb s) m e l =
  SFopp (binary_round_aux prec emax s m e l).
Proof.
  unfold binary_round_aux.
  destruct (shr_fexp prec emax m e l) as [mrs' e'].
  destruct (shr_fexp prec emax _ e' loc_Exact) as [mrs'' e''].
  destruct (shr_m mrs''); simpl; try reflexivity.
  destruct (Z.leb _ _); reflexivity.
Qed.

Lemma SFmul_opp_l (a b : spec_float) :
  SF64mul (SFopp a) b = SFopp (SF64mul a b).
Proof.
  unfold SF64mul.
  destruct a as [sa|sa| |sa ma ea], b as [sb|sb| |sb mb eb]; simpl;
    rewrite <- ?negb_xorb_l; try reflexivity.
  apply binary_round_aux_opp.
Qed.

Lemma mul_opp_l (x y : float) : (- x) * y = - (x * y).
Proof.
  apply Prim2SF_inj. rewrite opp_spec, !mul_spec, opp_spec. apply SFmul_opp_l.
Qed.

Lemma mul_opp_r (x y : float) : x * (- y) = - (x * y).
Proof. now rewrite mul_comm, mul_opp_l, mul_comm. Qed.

Lemma mul_opp_opp (x y : float) : (- x) * (- y) = x * y.
Proof. now rewrite mul_opp_l, mul_opp_r, opp_involutive. Qed.

Lemma SFdiv_opp_l (a b : spec_float) :
  SF64div (SFopp a) b = SFopp (SF64div a b).
Proof.
  unfold SF64div.
  destruct a as [sa|sa| |sa ma ea], b as [sb|sb| |sb mb eb]; simpl;
    rewrite <- ?negb_xorb_l; try reflexivity.
  destruct (SFdiv_core_binary prec emax (Z.pos ma) ea (Z.pos mb) eb) as [[mz ez] lz].
  apply binary_round_aux_opp.
Qed.

Lemma div_opp_l (x y : float) : (- x) / y = - (x / y).
Proof.
  apply Prim2SF_inj. rewrite opp_spec, !div_spec, opp_spec. apply SFdiv_opp_l.
Qed.

Lemma binary_normalize_opp (m e : Z) :
  m <> 0%Z ->
  binary_normalize prec emax (- m) e false =
  SFopp (binary_normalize prec emax m e false).
Proof.
  intros Hm. destruct m as [|p|p]; [contradiction| |]; simpl;
    unfold binary_round;
    destruct (shl_align p e _) as [mz ez].
  - apply (binary_round_aux_opp false).
  - apply (binary_round_aux_opp true).
Qed.

Lemma SFsub_antisym (a b : spec_float) :
  SF64sub b a = SFopp (SF64sub a b) \/ SF64sub b a = SF64sub a b.
Proof.
  unfold SF64sub.
  destruct a as [sa|sa| |sa ma ea], b as [sb|sb| |sb mb eb]; simpl;
    try (destruct sa, sb; simpl; auto; fail); auto.
  rewrite (Z.min_comm eb ea).
  set (A := cond_Zopp sa (Z.pos (fst (shl_align ma ea (Z.min ea eb))))).
  set (B := cond_Zopp sb (Z.pos (fst (shl_align mb eb (Z.min ea eb))))).
  destruct (Z.eq_dec (A - B) 0) as [E|N].
  - right. replace (B - A)%Z with 0%Z by lia. now rewrite E.
  - left. replace (B - A)%Z with (- (A - B))%Z by lia.
    now apply binary_normalize_opp.
Qed.

Lemma sub_antisym (x y : float) : y - x = - (x - y) \/ y - x = x - y.
Proof.
  destruct (SFsub_antisym (Prim2SF x) (Prim2SF y)) as [H|H]; [left|right];
    apply Prim2SF_inj; rewrite ?opp_spec, !sub_spec; exact H.
Qed.

(** *** Symmetry of the distance *)

Lemma half_sine_opp (lm : Libm float) (d : float) :
  (forall x : float, std_sin (- x) = - std_sin x) ->
  std_sin ((- d) * M_PI64 / 180 / 2) = - std_sin (d * M_PI64 / 180 / 2).
Proof. intros Hodd. now rewrite mul_opp_l, !div_opp_l, Hodd. Qed.

(** With an odd sine the Haversine intermediate is the same double in
    both directions: every operation involved commutes with negation. *)
Lemma haversine_sym64 (lm : Libm float) (coord1 coord2 : Coordinate float) :
  (forall x : float, std_sin (- x) = - std_sin x) ->
  haversine coord1 coord2 = haversine coord2 coord1.
Proof.
  intros Hodd.
  change (haversine coord1 coord2) with
    (std_sin ((latitude coord2 - latitude coord1) * M_PI64 / 180 / 2) *
     std_sin ((latitude coord2 - latitude coord1) * M_PI64 / 180 / 2) +
     std_cos (toRadians (latitude coord1)) * std_cos (toRadians (latitude coord2)) *
     std_sin ((longitude coord2 - longitude coord1) * M_PI64 / 180 / 2) *
     std_sin ((longitude coord2 - longitude coord1) * M_PI64 / 180 / 2)).
  change (haversine coord2 coord1) with
    (std_sin ((latitude coord1 - latitude coord2) * M_PI64 / 180 / 2) *
     std_sin ((latitude coord1 - latitude coord2) * M_PI64 / 180 / 2) +
     std_cos (toRadians (latitude coord2)) * std_cos (toRadians (latitude coord1)) *
     std_sin ((longitude coord1 - longitude coord2) * M_PI64 / 180 / 2) *
     std_sin ((longitude coord1 - longitude coord2) * M_PI64 / 180 / 2)).
  rewrite (mul_comm (std_cos (toRadians (latitude coord2)))).
  destruct (sub_antisym (latitude coord1) (latitude coord2)) as [Ea|Ea];
    destruct (sub_antisym (longitude coord1) (longitude coord2)) as [Eo|Eo];
    rewrite Ea, Eo, ?half_sine_opp by exact Hodd;
    rewrite ?mul_opp_opp, ?(mul_opp_r (std_cos _ * std_cos _)), ?mul_opp_opp;
    reflexivity.
Qed.

Lemma calculateDistance_sym64 (lm : Libm float)
    (coord1 coord2 : Coordinate float) (unit : Unit) :
  (forall x : float, std_sin (- x) = - std_sin x) ->
  calculateDistance coord1 coord2 unit = calculateDistance coord2 coord1 unit.
Proof.
  intros Hodd. unfold calculateDistance, central_angle.
  now rewrite (haversine_sym64 lm coord1 coord2 Hodd).
Qed.

(** *** Digits and shifts *)
Lemma digits2_pos_size (p : positive) : digits2_pos p = Pos.size p.
Proof. induction p; simpl; congruence. Qed.

Lemma digits2_bounds (p : positive) :
  (2 ^ (Zpos (digits2_pos p) - 1) <= Zpos p < 2 ^ Zpos (digits2_pos p))%Z.
Proof.
  rewrite digits2_pos_size.
  pose proof (Pos.size_gt p) as Hgt. pose proof (Pos.size_le p) as Hle.
  apply Pos2Z.pos_lt_pos in Hgt. apply Pos2Z.pos_le_pos in Hle.
  rewrite Pos2Z.inj_pow in Hgt, Hle.
  split; [|exact Hgt].
  set (d := Z.pos (Pos.size p)) in *.
  replace d with (Z.succ (d - 1)) in Hle by lia.
  rewrite Z.pow_succ_r in Hle by (unfold d; lia).
  change (Z.pos p~0) with (2 * Z.pos p)%Z in Hle. lia.
Qed.

(** A digit count from a strict power-of-two bound. *)
Lemma digits2_le (p : positive) (k : Z) :
  (0 <= k)%Z -> (Zpos p < 2 ^ k)%Z -> (Zpos (digits2_pos p) <= k)%Z.
Proof.
  intros Hk Hlt. destruct (digits2_bounds p) as [Hlo _].
  destruct (Z.le_gt_cases (Zpos (digits2_pos p)) k) as [H|H]; [exact H|].
  assert (2 ^ k <= 2 ^ (Zpos (digits2_pos p) - 1))%Z
    by (apply Z.pow_le_mono_r; lia).
  lia.
Qed.

Lemma digits2_mul (p q : positive) :
  (Zpos (digits2_pos (p * q)) <= Zpos (digits2_pos p) + Zpos (digits2_pos q))%Z.
Proof.
  apply digits2_le; [lia|].
  destruct (digits2_bounds p) as [_ Hp]. destruct (digits2_bounds q) as [_ Hq].
  rewrite Z.pow_add_r by lia. rewrite Pos2Z.inj_mul. nia.
Qed.

Lemma Zdigits2_succ (m : Z) :
  (0 <= m)%Z -> (Zdigits2 (m + 1) <= Zdigits2 m + 1)%Z.
Proof.
  intros Hm. destruct m as [|p|p]; [simpl; lia| |lia].
  change (Z.pos p + 1)%Z with (Z.pos (p + 1)).
  unfold Zdigits2. apply digits2_le; [lia|].
  destruct (digits2_bounds p) as [_ Hp].
  rewrite Z.pow_add_r by lia. rewrite Pos2Z.inj_add. lia.
Qed.

Lemma Zdigits2_nonneg (m : Z) : (0 <= Zdigits2 m)%Z.
Proof. destruct m; simpl; lia. Qed.

(** Shifting right keeps a mantissa non-negative and no longer. *)
Lemma shr_1_digits (mrs : shr_record) :
  (0 <= shr_m mrs)%Z ->
  (0 <= shr_m (shr_1 mrs))%Z /\
  (Zdigits2 (shr_m (shr_1 mrs)) <= Zdigits2 (shr_m mrs))%Z.
Proof.
  destruct mrs as [m r s]. simpl. intros Hm.
  destruct m as [|[p|p|]|p]; simpl; try lia.
Qed.

Lemma iter_shr_1_digits (n : positive) (mrs : shr_record) :
  (0 <= shr_m mrs)%Z ->
  (0 <= shr_m (iter_pos shr_1 n mrs))%Z /\
  (Zdigits2 (shr_m (iter_pos shr_1 n mrs)) <= Zdigits2 (shr_m mrs))%Z.
Proof.
  revert mrs. induction n as [n IH|n IH|]; intros mrs Hm; simpl.
  - destruct (shr_1_digits mrs Hm) as [H1 H2].
    destruct (IH _ H1) as [H3 H4]. destruct (IH _ H3) as [H5 H6]. lia.
  - destruct (IH _ Hm) as [H3 H4]. destruct (IH _ H3) as [H5 H6]. lia.
  - now apply shr_1_digits.
Qed.

Lemma shr_record_of_loc_m (m : Z) (l : location) :
  shr_m (shr_record_of_loc m l) = m.
Proof. destruct l as [|[]]; reflexivity. Qed.

(** The exponent function of binary64. *)
Lemma fexp64 (e : Z) : fexp prec emax e = Z.max (e - 53) (-1074).
Proof. reflexivity. Qed.

(** One shift: the mantissa stays non-negative and no longer, the exponent
    is the larger of the old one and the target. *)
Lemma shr_fexp_bounds (m e : Z) (l : location) :
  (0 <= m)%Z ->
  let '(mrs, e') := shr_fexp prec emax m e l in
  (0 <= shr_m mrs)%Z /\ (Zdigits2 (shr_m mrs) <= Zdigits2 m)%Z /\
  e' = Z.max e (Z.max (Zdigits2 m + e - 53) (-1074)).
Proof.
  intros Hm. unfold shr_fexp. rewrite fexp64. unfold shr.
  set (t := Z.max (Zdigits2 m + e - 53) (-1074)).
  destruct (t - e)%Z as [|n|n] eqn:E.
  - rewrite shr_record_of_loc_m. repeat split; lia.
  - destruct (iter_shr_1_digits n (shr_record_of_loc m l)) as [H1 H2].
    + now rewrite shr_record_of_loc_m.
    + rewrite shr_record_of_loc_m in H2. repeat split; lia.
  - rewrite shr_record_of_loc_m. repeat split; lia.
Qed.

Lemma round_nearest_even_bounds (m : Z) (l : location) :
  (0 <= m)%Z ->
  (0 <= round_nearest_even m l)%Z /\
  (Zdigits2 (round_nearest_even m l) <= Zdigits2 m + 1)%Z.
Proof.
  intros Hm. pose proof (Zdigits2_succ m Hm).
  destruct l as [|[]]; simpl; try (destruct (Z.even m)); split; lia.
Qed.

(** Rounding a non-negative mantissa whose value is small cannot overflow. *)
Lemma binary_round_aux_finite (s : bool) (m e : Z) (l : location) :
  (0 <= m)%Z -> (e <= 0)%Z -> (Zdigits2 m <= 200)%Z ->
  finite_sf (binary_round_aux prec emax s m e l) = true.
Proof.
  intros Hm He Hd. unfold binary_round_aux.
  pose proof (shr_fexp_bounds m e l Hm) as B1.
  destruct (shr_fexp prec emax m e l) as [mrs' e'].
  destruct B1 as [P1 [D1 E1]].
  destruct (round_nearest_even_bounds (shr_m mrs') (loc_of_shr_record mrs') P1)
    as [P2 D2].
  pose proof (shr_fexp_bounds _ e' loc_Exact P2) as B2.
  destruct (shr_fexp prec emax _ e' loc_Exact) as [mrs'' e''].
  destruct B2 as [P3 [D3 E3]].
  pose proof (Zdigits2_nonneg m).
  destruct (shr_m mrs'') as [|p|p]; [reflexivity| |lia].
  assert (Hle : (e'' <=? emax - prec)%Z = true).
  { apply Z.leb_le. change (emax - prec)%Z with 971%Z. lia. }
  rewrite Hle. reflexivity.
Qed.

(** A valid mantissa has at most 53 digits. *)
Lemma bounded_digits (m : positive) (e : Z) :
  bounded prec emax m e = true -> (Zpos (digits2_pos m) <= 53)%Z.
Proof.
  unfold bounded, canonical_mantissa. rewrite fexp64.
  intros H. apply andb_prop in H. destruct H as [H _].
  apply Z.eqb_eq in H. lia.
Qed.

(** [abs x <= 1] for a finite [x]: the exponent is at most -52. *)
Lemma leb_one_exponent (x : float) (s : bool) (m : positive) (e : Z) :
  Prim2SF x = S754_finite s m e -> (abs x <=? 1) = true -> (e <= -52)%Z.
Proof.
  intros Hx Hle. rewrite leb_spec, abs_spec, Hx in Hle.
  change (Prim2SF 1) with (S754_finite false 4503599627370496 (-52)) in Hle.
  unfold SFleb, SFabs, SFcompare in Hle.
  destruct (Z.compare_spec e (-52)) as [E|E|E]; try lia; discriminate.
Qed.

Lemma mul_finite (x y : float) :
  finite64 x = true -> finite64 y = true ->
  (abs x <=? 1) = true -> (abs y <=? 1) = true ->
  finite64 (x * y) = true.
Proof.
  unfold finite64. intros Fx Fy Lx Ly. rewrite mul_spec.
  pose proof (Prim2SF_valid x) as Vx. pose proof (Prim2SF_valid y) as Vy.
  pose proof (leb_one_exponent x) as Ex. pose proof (leb_one_exponent y) as Ey.
  destruct (Prim2SF x) as [sx|sx| |sx mx ex], (Prim2SF y) as [sy|sy| |sy my ey];
    try discriminate; try reflexivity.
  unfold SF64mul, SFmul.
  specialize (Ex sx mx ex eq_refl Lx). specialize (Ey sy my ey eq_refl Ly).
  simpl in Vx, Vy. apply bounded_digits in Vx, Vy.
  pose proof (digits2_mul mx my).
  apply binary_round_aux_finite; [lia | lia | simpl; lia].
Qed.

(** *** Multiplication by one *)

Lemma shr_fexp_canonical (m : positive) (e : Z) :
  bounded prec emax m e = true ->
  shr_fexp prec emax (Zpos m) e loc_Exact =
  ({| shr_m := Zpos m; shr_r := false; shr_s := false |}, e).
Proof.
  unfold bounded, canonical_mantissa. intros H.
  apply andb_prop in H. destruct H as [H _]. apply Z.eqb_eq in H.
  unfold shr_fexp. change (Zdigits2 (Zpos m)) with (Zpos (digits2_pos m)).
  rewrite H, Z.sub_diag. reflexivity.
Qed.

Lemma digits2_pos_shift52 (m : positive) :
  Zpos (digits2_pos (4503599627370496 * m)) = (Zpos (digits2_pos m) + 52)%Z.
Proof. cbn [Pos.mul digits2_pos]. rewrite !Pos2Z.inj_succ. lia. Qed.

Lemma shr_fexp_shift52 (m : positive) (e : Z) :
  bounded prec emax m e = true ->
  shr_fexp prec emax (Zpos (4503599627370496 * m)) (e - 52) loc_Exact =
  ({| shr_m := Zpos m; shr_r := false; shr_s := false |}, e).
Proof.
  unfold bounded, canonical_mantissa. intros H.
  apply andb_prop in H. destruct H as [H _]. apply Z.eqb_eq in H.
  unfold shr_fexp.
  change (Zdigits2 (Zpos (4503599627370496 * m)))
    with (Zpos (digits2_pos (4503599627370496 * m))).
  rewrite digits2_pos_shift52.
  replace (Zpos (digits2_pos m) + 52 + (e - 52))%Z
    with (Zpos (digits2_pos m) + e)%Z by lia.
  rewrite H. replace (e - (e - 52))%Z with 52%Z by lia.
  unfold shr. replace (e - 52 + 52)%Z with e by lia. reflexivity.
Qed.

Lemma SFmul_one_r (a : spec_float) :
  valid_binary a = true ->
  SF64mul a (S754_finite false 4503599627370496 (-52)) = a.
Proof.
  intros V. unfold SF64mul.
  destruct a as [s|s| |s m e]; simpl SFmul; rewrite ?xorb_false_r; try reflexivity.
  simpl in V. rewrite Pos.mul_comm.
  unfold binary_round_aux. change (e + -52)%Z with (e - 52)%Z.
  rewrite (shr_fexp_shift52 m e V). cbn [shr_m loc_of_shr_record round_nearest_even].
  rewrite (shr_fexp_canonical m e V). cbn [shr_m].
  unfold bounded in V. apply andb_prop in V. destruct V as [_ V].
  rewrite V. reflexivity.
Qed.

Lemma mul_1_r (x : float) : x * 1 = x.
Proof.
  apply Prim2SF_inj. rewrite mul_spec.
  change (Prim2SF 1) with (S754_finite false 4503599627370496 (-52)).
  apply SFmul_one_r. apply Prim2SF_valid.
Qed.

(** *** The rounding error of a product *)

Section RoundingShift.

Local Open Scope Z_scope.

Lemma shifted_shr_1 (m0 n : Z) (mrs : shr_record) :
  0 <= n -> shifted m0 n mrs -> shifted m0 (n + 1) (shr_1 mrs).
Proof.
  intros Hn [Hm [rem [E [B L]]]].
  destruct mrs as [m r s]. cbn [shr_m shr_r shr_s] in *.
  assert (P : 2 ^ (n + 1) = 2 * 2 ^ n) by (rewrite Z.pow_add_r; lia).
  assert (0 < 2 ^ n) by (apply Z.pow_pos_nonneg; lia).
  destruct m as [|[p|p|]|p]; [| | | |lia]; split;
    cbn [shr_1 shr_m shr_r shr_s]; try lia.
  - exists rem. rewrite P. destruct r, s; cbn [orb]; lia.
  - exists (2 ^ n + rem). rewrite P.
    change (Z.pos p~1) with (2 * Z.pos p + 1) in E.
    destruct r, s; cbn [orb]; lia.
  - exists rem. rewrite P.
    change (Z.pos p~0) with (2 * Z.pos p) in E.
    destruct r, s; cbn [orb]; lia.
  - exists (2 ^ n + rem). rewrite P.
    destruct r, s; cbn [orb]; lia.
Qed.

Lemma shifted_iter (p : positive) (m0 n : Z) (mrs : shr_record) :
  0 <= n -> shifted m0 n mrs -> shifted m0 (n + Zpos p) (iter_pos shr_1 p mrs).
Proof.
  revert n mrs. induction p as [p IH|p IH|]; intros n mrs Hn H; cbn [iter_pos].
  - replace (n + Z.pos p~1) with (((n + 1) + Z.pos p) + Z.pos p) by lia.
    apply IH; [lia|]. apply IH; [lia|]. now apply shifted_shr_1.
  - replace (n + Z.pos p~0) with ((n + Z.pos p) + Z.pos p) by lia.
    apply IH; [lia|]. now apply IH.
  - now apply shifted_shr_1.
Qed.

(** Rounding to nearest after the shift is within half a unit. *)
Lemma round_nearest_even_shifted (m0 n : Z) (mrs : shr_record) :
  0 <= n -> shifted m0 n mrs ->
  let m := round_nearest_even (shr_m mrs) (loc_of_shr_record mrs) in
  shr_m mrs <= m <= shr_m mrs + 1 /\
  2 * Z.abs (m * 2 ^ n - m0) <= 2 ^ n.
Proof.
  intros Hn [Hm [rem [E [B L]]]].
  destruct mrs as [m r s]. cbn [shr_m shr_r shr_s] in *.
  assert (0 < 2 ^ n) by (apply Z.pow_pos_nonneg; lia).
  destruct r, s; cbn [loc_of_shr_record round_nearest_even];
    try destruct (Z.even m); split; try lia; nia.
Qed.

Lemma digits2_eq (p : positive) (k : Z) :
  2 ^ (k - 1) <= Zpos p < 2 ^ k -> Zpos (digits2_pos p) = k.
Proof.
  intros [Hlo Hhi]. destruct (digits2_bounds p) as [Dlo Dhi].
  set (d := Zpos (digits2_pos p)) in *.
  assert (0 < k).
  { destruct (Z.lt_ge_cases 0 k) as [G|G]; [exact G|].
    destruct (Z.eq_dec k 0) as [->|N]; [simpl in Hhi; lia|].
    rewrite (Z.pow_neg_r 2 k) in Hhi by lia. lia. }
  destruct (Z.lt_trichotomy d k) as [L|[L|L]]; [|exact L|].
  - assert (2 ^ d <= 2 ^ (k - 1)) by (apply Z.pow_le_mono_r; lia). lia.
  - assert (2 ^ k <= 2 ^ (d - 1)) by (apply Z.pow_le_mono_r; lia). lia.
Qed.

(** A normal mantissa has exactly 53 digits. *)
Lemma normal_digits (m : positive) (e : Z) :
  bounded prec emax m e = true -> -1074 < e -> Zpos (digits2_pos m) = 53.
Proof.
  unfold bounded, canonical_mantissa. rewrite fexp64.
  intros H He. apply andb_prop in H. destruct H as [H _].
  apply Z.eqb_eq in H. lia.
Qed.

(** Rounding a long mantissa to 53 digits, away from underflow and
    overflow: the result is finite and within half a unit in the last
    place, that is within [2^-53] of the value in relative terms. *)
Lemma binary_round_aux_error (s : bool) (m0 : positive) (e0 : Z) :
  let d := Zpos (digits2_pos m0) in
  54 <= d -> -1074 <= d + e0 - 53 -> d + e0 - 53 < 971 ->
  exists (m : positive) (e : Z),
    binary_round_aux prec emax s (Zpos m0) e0 loc_Exact = S754_finite s m e /\
    d + e0 - 53 <= e <= d + e0 - 52 /\
    2 ^ 53 * Z.abs (Zpos m * 2 ^ (e - e0) - Zpos m0) <= Zpos m0.
Proof.
  intros d Hd Hlo Hhi.
  destruct (digits2_bounds m0) as [Dlo Dhi]. fold d in Dlo, Dhi.
  set (n := d - 53) in *.
  assert (Hn : 0 < n) by (unfold n; lia).
  assert (P1 : 2 ^ d = 2 ^ 53 * 2 ^ n)
    by (unfold n; rewrite <- Z.pow_add_r by lia; f_equal; lia).
  assert (P2 : 2 ^ (d - 1) = 2 ^ 52 * 2 ^ n)
    by (unfold n; rewrite <- Z.pow_add_r by lia; f_equal; lia).
  assert (Pn : 0 < 2 ^ n) by (apply Z.pow_pos_nonneg; lia).
  unfold binary_round_aux.
  (* the first shift is by [n] *)
  assert (S1 : exists mrs,
             shr_fexp prec emax (Zpos m0) e0 loc_Exact = (mrs, e0 + n) /\
             shifted (Zpos m0) n mrs).
  { unfold shr_fexp. rewrite fexp64.
    change (Zdigits2 (Zpos m0)) with d.
    replace (Z.max (d + e0 - 53) (-1074) - e0) with n by (unfold n; lia).
    destruct n as [|p|p] eqn:En; try lia.
    eexists. split; [reflexivity|].
    apply (shifted_iter p (Zpos m0) 0); [lia|].
    split; [simpl; lia|]. exists 0. simpl. lia. }
  destruct S1 as [mrs [-> Sh]].
  destruct (round_nearest_even_shifted _ _ _ (Z.lt_le_incl _ _ Hn) Sh) as [Rb Re].
  set (m' := round_nearest_even (shr_m mrs) (loc_of_shr_record mrs)) in *.
  destruct Sh as [Hm [rem [E [B _]]]].
  assert (M1 : 2 ^ 52 <= shr_m mrs < 2 ^ 53) by nia.
  assert (M' : 2 ^ 52 <= m' <= 2 ^ 53) by lia.
  destruct (Z.eq_dec m' (2 ^ 53)) as [Etop|Ntop].
  - (* the mantissa rounded up to [2^53]: one more shift *)
    rewrite Etop. unfold shr_fexp. rewrite fexp64.
    change (Zdigits2 (2 ^ 53)) with 54.
    replace (Z.max (54 + (e0 + n) - 53) (-1074) - (e0 + n)) with 1 by lia.
    cbn [shr shr_record_of_loc iter_pos].
    change (shr_m (shr_1 {| shr_m := 2 ^ 53; shr_r := false; shr_s := false |}))
      with (2 ^ 52).
    change (2 ^ 52) with (Zpos 4503599627370496) at 1.
    cbv iota beta.
    assert (L : (e0 + n + 1 <=? emax - prec) = true)
      by (apply Z.leb_le; change (emax - prec) with 971; lia).
    rewrite L. exists 4503599627370496%positive, (e0 + n + 1).
    split; [reflexivity|]. split; [unfold n; lia|].
    replace (e0 + n + 1 - e0) with (n + 1) by lia.
    rewrite Z.pow_add_r by lia. change (Z.pos 4503599627370496) with (2 ^ 52).
    rewrite Etop in Re. nia.
  - destruct m' as [|p|p] eqn:Em'; try lia.
    assert (Dp : Zpos (digits2_pos p) = 53) by (apply digits2_eq; simpl; lia).
    unfold shr_fexp. rewrite fexp64.
    change (Zdigits2 (Zpos p)) with (Zpos (digits2_pos p)). rewrite Dp.
    replace (Z.max (53 + (e0 + n) - 53) (-1074) - (e0 + n)) with 0 by lia.
    cbn [shr shr_record_of_loc shr_m].
    assert (L : (e0 + n <=? emax - prec) = true)
      by (apply Z.leb_le; change (emax - prec) with 971; lia).
    rewrite L. exists p, (e0 + n).
    split; [reflexivity|]. split; [unfold n; lia|].
    replace (e0 + n - e0) with n by lia. nia.
Qed.

End RoundingShift.

Section ProductError.

Local Open Scope R_scope.

Lemma sign_of_xorb (a b : bool) : sign_of (xorb a b) = sign_of a * sign_of b.
Proof. destruct a, b; simpl; lra. Qed.

Lemma Rabs_sign_of (s : bool) (v : R) : Rabs (sign_of s * v) = Rabs v.
Proof.
  destruct s; simpl.
  - replace (-1 * v) with (- v) by lra. apply Rabs_Ropp.
  - now rewrite Rmult_1_l.
Qed.

Lemma Rabs_le_inv (x t : R) : Rabs x <= t -> - t <= x <= t.
Proof.
  intros H. pose proof (Rle_abs x). pose proof (Rle_abs (- x)) as H'.
  rewrite Rabs_Ropp in H'. lra.
Qed.

Lemma powerRZ_2_IZR (k : Z) : (0 <= k)%Z -> powerRZ 2 k = IZR (2 ^ k).
Proof.
  intros Hk. destruct k as [|p|p]; [reflexivity| |lia].
  rewrite <- (positive_nat_Z p), <- pow_powerRZ, <- pow_IZR. reflexivity.
Qed.

Lemma powerRZ_2_split (e e0 : Z) :
  (e0 <= e)%Z -> powerRZ 2 e = IZR (2 ^ (e - e0)) * powerRZ 2 e0.
Proof.
  intros H. rewrite <- powerRZ_2_IZR by lia.
  rewrite <- powerRZ_add by lra. f_equal. lia.
Qed.

Lemma powerRZ_2_neg (p : positive) : powerRZ 2 (Zneg p) = / IZR (2 ^ Zpos p).
Proof.
  change (Zneg p) with (- Zpos p)%Z.
  rewrite powerRZ_neg', powerRZ_2_IZR by lia. reflexivity.
Qed.

(** The standard model of a product of two normal doubles away from
    underflow and overflow: correctly rounded, so off by at most [2^-53]
    in relative terms. *)
Lemma mul_error (x y : float) (sx sy : bool) (mx my : positive) (ex ey : Z) :
  Prim2SF x = S754_finite sx mx ex -> Prim2SF y = S754_finite sy my ey ->
  (-1074 < ex)%Z -> (-1074 < ey)%Z ->
  (-1126 <= ex + ey)%Z -> (ex + ey < 918)%Z ->
  exists (m : positive) (e : Z),
    Prim2SF (x * y)%float = S754_finite (xorb sx sy) m e /\
    (ex + ey + 52 <= e <= ex + ey + 54)%Z /\
    Rabs (to_real (x * y)%float - to_real x * to_real y)
    <= / IZR (2 ^ 53) * Rabs (to_real x * to_real y).
Proof.
  intros Hx Hy Nx Ny Hlo Hhi.
  pose proof (Prim2SF_valid x) as Vx. pose proof (Prim2SF_valid y) as Vy.
  rewrite Hx in Vx. rewrite Hy in Vy. cbn [valid_binary] in Vx, Vy.
  pose proof (normal_digits mx ex Vx Nx) as Dx.
  pose proof (normal_digits my ey Vy Ny) as Dy.
  destruct (digits2_bounds mx) as [Lx Ux]. destruct (digits2_bounds my) as [Ly Uy].
  rewrite Dx in Lx, Ux. rewrite Dy in Ly, Uy.
  pose proof (digits2_mul mx my) as Dhi. rewrite Dx, Dy in Dhi.
  assert (Dlo : (105 <= Zpos (digits2_pos (mx * my)))%Z).
  { destruct (digits2_bounds (mx * my)) as [_ U].
    destruct (Z.le_gt_cases 105 (Zpos (digits2_pos (mx * my)))) as [G|G]; [exact G|].
    assert (2 ^ Zpos (digits2_pos (mx * my)) <= 2 ^ 104)%Z
      by (apply Z.pow_le_mono_r; lia).
    rewrite Pos2Z.inj_mul in U.
    assert (2 ^ 52 * 2 ^ 52 <= Zpos mx * Zpos my)%Z by nia.
    change (2 ^ 52 * 2 ^ 52)%Z with (2 ^ 104)%Z in *. lia. }
  destruct (binary_round_aux_error (xorb sx sy) (mx * my) (ex + ey))
    as [m [e [Hr [He Herr]]]]; try lia.
  exists m, e. unfold to_real. rewrite mul_spec, Hx, Hy.
  unfold SF64mul. cbn [SFmul]. rewrite Hr.
  split; [reflexivity|]. split; [lia|].
  cbn [SF2R]. rewrite sign_of_xorb.
  rewrite (powerRZ_2_split e (ex + ey)) by lia.
  rewrite (powerRZ_add 2 ex ey) by lra.
  set (k := (e - (ex + ey))%Z) in *.
  set (px := powerRZ 2 ex). set (py := powerRZ 2 ey).
  assert (0 < px) by (apply powerRZ_lt; lra).
  assert (0 < py) by (apply powerRZ_lt; lra).
  replace (sign_of sx * sign_of sy * IZR (Z.pos m) * (IZR (2 ^ k) * (px * py)) -
           sign_of sx * IZR (Z.pos mx) * px * (sign_of sy * IZR (Z.pos my) * py))
    with (sign_of sx * (sign_of sy *
            (IZR (Z.pos m * 2 ^ k - Z.pos (mx * my)) * (px * py))))
    by (rewrite minus_IZR, mult_IZR, Pos2Z.inj_mul, mult_IZR; ring).
  replace (sign_of sx * IZR (Z.pos mx) * px * (sign_of sy * IZR (Z.pos my) * py))
    with (sign_of sx * (sign_of sy * (IZR (Z.pos (mx * my)) * (px * py))))
    by (rewrite Pos2Z.inj_mul, mult_IZR; ring).
  rewrite !Rabs_sign_of, !Rabs_mult, !Rabs_Zabs.
  rewrite (Rabs_pos_eq px), (Rabs_pos_eq py) by lra.
  apply IZR_le in Herr. rewrite mult_IZR in Herr.
  change (Z.abs (Z.pos (mx * my))) with (Z.pos (mx * my)).
  assert (0 < IZR (2 ^ 53)) by (apply IZR_lt; reflexivity).
  set (a := IZR (Z.abs (Z.pos m * 2 ^ k - Z.pos (mx * my)))) in *.
  set (b := IZR (Z.pos (mx * my))) in *.
  set (t := IZR (2 ^ 53)) in *.
  assert (a <= / t * b).
  { apply Rmult_le_reg_l with t; [assumption|].
    rewrite <- Rmult_assoc, Rinv_r, Rmult_1_l by lra. exact Herr. }
  replace (/ t * (b * (px * py))) with (/ t * b * (px * py)) by ring.
  apply Rmult_le_compat_r; [|assumption].
  apply Rmult_le_pos; lra.
Qed.

(** A double between [2^-1000] and [2^1000] is positive and normal. *)
Lemma range_exponent (c : float) :
  (0x1p-1000 <=? c)%float = true -> (c <=? 0x1p1000)%float = true ->
  exists (m : positive) (e : Z),
    Prim2SF c = S754_finite false m e /\ (-1052 <= e <= 948)%Z.
Proof.
  rewrite !leb_spec.
  change (Prim2SF 0x1p-1000%float)
    with (S754_finite false 4503599627370496 (-1052)).
  change (Prim2SF 0x1p1000%float)
    with (S754_finite false 4503599627370496 948).
  destruct (Prim2SF c) as [s|s| |s m e]; unfold SFleb, SFcompare;
    try destruct s; try discriminate.
  intros H1 H2. exists m, e. split; [reflexivity|].
  destruct (Z.compare_spec (-1052) e), (Z.compare_spec e 948);
    try discriminate; lia.
Qed.

Lemma to_real_pos (c : float) (m : positive) (e : Z) :
  Prim2SF c = S754_finite false m e -> 0 < to_real c.
Proof.
  intros H. unfold to_real. rewrite H. cbn [SF2R sign_of].
  rewrite Rmult_1_l. apply Rmult_lt_0_compat.
  - apply IZR_lt. lia.
  - apply powerRZ_lt. lra.
Qed.

(** The radii and their ratios, as the reals they are. *)
Lemma to_real_6371 : to_real 6371 = 6371.
Proof.
  unfold to_real.
  change (Prim2SF 6371) with (S754_finite false 7004988580560896 (-40)).
  cbn [SF2R sign_of]. rewrite powerRZ_2_neg.
  change (2 ^ 40)%Z with 1099511627776%Z. lra.
Qed.

Lemma to_real_3959 : to_real 3959 = 3959.
Proof.
  unfold to_real.
  change (Prim2SF 3959) with (S754_finite false 8705933068730368 (-41)).
  cbn [SF2R sign_of]. rewrite powerRZ_2_neg.
  change (2 ^ 41)%Z with 2199023255552%Z. lra.
Qed.

Lemma to_real_3440 : to_real 3440 = 3440.
Proof.
  unfold to_real.
  change (Prim2SF 3440) with (S754_finite false 7564639999098880 (-41)).
  cbn [SF2R sign_of]. rewrite powerRZ_2_neg.
  change (2 ^ 41)%Z with 2199023255552%Z. lra.
Qed.

Lemma to_real_ratio_mi :
  to_real (3959 / 6371) = 5597159292029444 / 9007199254740992.
Proof.
  unfold to_real.
  change (Prim2SF (3959 / 6371))
    with (S754_finite false 5597159292029444 (-53)).
  cbn [SF2R sign_of]. rewrite powerRZ_2_neg.
  change (2 ^ 53)%Z with 9007199254740992%Z. lra.
Qed.

Lemma to_real_ratio_nm :
  to_real (3440 / 6371) = 4863406911993253 / 9007199254740992.
Proof.
  unfold to_real.
  change (Prim2SF (3440 / 6371))
    with (S754_finite false 4863406911993253 (-53)).
  cbn [SF2R sign_of]. rewrite powerRZ_2_neg.
  change (2 ^ 53)%Z with 9007199254740992%Z. lra.
Qed.

(** Three correctly rounded products against one: what is left is linear
    arithmetic on the four values. *)
Ltac drop_abs H :=
  match type of H with
  | _ <= _ * Rabs ?v => rewrite (Rabs_pos_eq v) in H by lra
  end;
  apply Rabs_le_inv in H.

Ltac ratio_chain Ea Ek Eb :=
  change (2 ^ 53)%Z with 9007199254740992%Z in *;
  change (2 ^ 50)%Z with 1125899906842624%Z;
  drop_abs Ea; drop_abs Ek; drop_abs Eb;
  rewrite (Rabs_pos_eq (to_real _)) by lra;
  apply Rabs_le; lra.

(** Scaling by the ratio of the radii, in binary64: the kilometers
    rescaled and the miles agree to within [2^-50] in relative terms. *)
Lemma miles_ratio_tolerance (c : float) :
  (0x1p-1000 <=? c)%float = true -> (c <=? 0x1p1000)%float = true ->
  Rabs (to_real (6371 * c * (3959 / 6371))%float - to_real (3959 * c)%float)
  <= / IZR (2 ^ 50) * Rabs (to_real (3959 * c)%float).
Proof.
  intros Hlo Hhi.
  destruct (range_exponent c Hlo Hhi) as [mc [ec [Hc Hec]]].
  pose proof (to_real_pos c mc ec Hc) as Cpos.
  destruct (mul_error 3959 c false false 8705933068730368 mc (-41) ec eq_refl Hc)
    as [ma [ea [Ha [_ Ea]]]]; try lia.
  destruct (mul_error 6371 c false false 7004988580560896 mc (-40) ec eq_refl Hc)
    as [mk [ek [Hk [Bk Ek]]]]; try lia.
  destruct (mul_error (6371 * c) (3959 / 6371) false false mk 5597159292029444
              ek (-53) Hk eq_refl)
    as [mb [eb [Hb [_ Eb]]]]; try lia.
  cbn [xorb] in Ha, Hk, Hb.
  pose proof (to_real_pos _ _ _ Ha) as Apos.
  pose proof (to_real_pos _ _ _ Hk) as Kpos.
  rewrite to_real_3959 in Ea. rewrite to_real_6371 in Ek.
  rewrite to_real_ratio_mi in Eb.
  ratio_chain Ea Ek Eb.
Qed.

Lemma nautical_ratio_tolerance (c : float) :
  (0x1p-1000 <=? c)%float = true -> (c <=? 0x1p1000)%float = true ->
  Rabs (to_real (6371 * c * (3440 / 6371))%float - to_real (3440 * c)%float)
  <= / IZR (2 ^ 50) * Rabs (to_real (3440 * c)%float).
Proof.
  intros Hlo Hhi.
  destruct (range_exponent c Hlo Hhi) as [mc [ec [Hc Hec]]].
  pose proof (to_real_pos c mc ec Hc) as Cpos.
  destruct (mul_error 3440 c false false 7564639999098880 mc (-41) ec eq_refl Hc)
    as [ma [ea [Ha [_ Ea]]]]; try lia.
  destruct (mul_error 6371 c false false 7004988580560896 mc (-40) ec eq_refl Hc)
    as [mk [ek [Hk [Bk Ek]]]]; try lia.
  destruct (mul_error (6371 * c) (3440 / 6371) false false mk 4863406911993253
              ek (-53) Hk eq_refl)
    as [mb [eb [Hb [_ Eb]]]]; try lia.
  cbn [xorb] in Ha, Hk, Hb.
  pose proof (to_real_pos _ _ _ Ha) as Apos.
  pose proof (to_real_pos _ _ _ Hk) as Kpos.
  rewrite to_real_3440 in Ea. rewrite to_real_6371 in Ek.
  rewrite to_real_ratio_nm in Eb.
  ratio_chain Ea Ek Eb.
Qed.

End ProductError.

(** The distances of [calculateDistance] in binary64, unit by unit. *)
Lemma calculateDistance_radius64 (lm : Libm float)
    (coord1 coord2 : Coordinate float) :
  calculateDistance coord1 coord2 KILOMETERS = 6371 * central_angle coord1 coord2 /\
  calculateDistance coord1 coord2 MILES = 3959 * central_angle coord1 coord2 /\
  calculateDistance coord1 coord2 NAUTICAL_MILES = 3440 * central_angle coord1 coord2.
Proof. repeat split. Qed.

Lemma radius_ratios64 :
  @EARTH_RADIUS_MI float double / @EARTH_RADIUS_KM float double = 3959 / 6371 /\
  @EARTH_RADIUS_NM float double / @EARTH_RADIUS_KM float double = 3440 / 6371.
Proof. split; reflexivity. Qed.

(** The two sides need not be the same double: at a central angle of 1.3
    (the double nearest to it) they are neighbours. *)
Lemma unit_ratio_last_bit :
  3959 * 0x1.4cccccccccccdp+0 = 0x1.41ab333333333p+12 /\
  6371 * 0x1.4cccccccccccdp+0 * (3959 / 6371) = 0x1.41ab333333334p+12.
Proof. split; reflexivity. Qed.

(** *** Zeros *)

Lemma sub_self (x : float) : finite64 x = true -> x - x = 0.
Proof.
  unfold finite64. intros F. apply Prim2SF_inj. rewrite sub_spec.
  change (Prim2SF 0) with (S754_zero false).
  destruct (Prim2SF x) as [s|s| |s m e]; try discriminate.
  - destruct s; reflexivity.
  - unfold SF64sub, SFsub. rewrite Z.sub_diag. reflexivity.
Qed.

Lemma zero_mul (x : float) :
  finite64 x = true -> 0 * x = 0 \/ 0 * x = -0.
Proof.
  unfold finite64. intros F.
  assert (H : Prim2SF (0 * x) = S754_zero false \/ Prim2SF (0 * x) = S754_zero true).
  { rewrite mul_spec. change (Prim2SF 0) with (S754_zero false).
    destruct (Prim2SF x) as [s|s| |s m e]; try discriminate;
      destruct s; simpl; auto. }
  destruct H as [H|H]; [left|right]; apply Prim2SF_inj; rewrite H; reflexivity.
Qed.

(** A square is not negative: times zero it is [+0]. *)
Lemma square_mul_zero (x : float) :
  finite64 (x * x) = true -> x * x * 0 = 0.
Proof.
  unfold finite64. intros F. apply Prim2SF_inj.
  rewrite mul_spec. rewrite mul_spec in F |- *.
  change (Prim2SF 0) with (S754_zero false).
  destruct (Prim2SF x) as [s|s| |s m e]; try discriminate.
  - simpl. now rewrite xorb_nilpotent.
  - unfold SF64mul in *. simpl SFmul in *. rewrite xorb_nilpotent in *.
    unfold binary_round_aux in *.
    destruct (shr_fexp prec emax (Z.pos (m * m)) (e + e) loc_Exact) as [mrs' e'].
    destruct (shr_fexp prec emax _ e' loc_Exact) as [mrs'' e''].
    destruct (shr_m mrs''); try discriminate; try reflexivity.
    destruct (Z.leb _ _); [reflexivity | discriminate].
Qed.


(** *** Decoded coordinates are finite *)

Lemma is_finite_finite64 (x : float) : is_finite x = true -> finite64 x = true.
Proof.
  unfold is_finite, is_nan, is_infinity, finite64.
  rewrite !FloatAxioms.eqb_spec, abs_spec.
  change (Prim2SF infinity) with (S754_infinity false).
  destruct (Prim2SF x) as [s|s| |s m e]; try reflexivity.
  - destruct s; simpl; rewrite ?orb_true_r; discriminate.
  - simpl. discriminate.
Qed.

Lemma cell_latitude_lat64 (len : nat) (a b c d : float) :
  cell_latitude len a b c d = lat64 len a b c d.
Proof. destruct len as [|[|[|[|[|[|[|n]]]]]]]; reflexivity. Qed.

Lemma cell_longitude_lon64 (len : nat) (a b c d : float) :
  cell_longitude len a b c d = lon64 len a b c d.
Proof. destruct len as [|[|[|[|[|[|[|n]]]]]]]; reflexivity. Qed.

(** Every cell of every length, by evaluation: 4 lengths and 26 * 10 * 26
    * 10 digit values per axis. *)
Lemma finite_cells :
  forallb (fun len =>
    forallb (fun a => forallb (fun b => forallb (fun c => forallb (fun d =>
      finite_cell len a b c d) digit_values) letter_values) digit_values)
      letter_values)
    [2; 4; 6; 8]%nat = true.
Proof. vm_compute. reflexivity. Qed.

Lemma finite_cell_range (len : nat) (a b c d : float) :
  In len [2; 4; 6; 8]%nat ->
  In a letter_values -> In b digit_values ->
  In c letter_values -> In d digit_values ->
  finite_cell len a b c d = true.
Proof.
  intros Hl Ha Hb Hc Hd.
  exact (proj1 (forallb_forall _ _)
          (proj1 (forallb_forall _ _)
            (proj1 (forallb_forall _ _)
              (proj1 (forallb_forall _ _)
                (proj1 (forallb_forall _ _) finite_cells len Hl)
                a Ha) b Hb) c Hc) d Hd).
Qed.

Lemma in_letter_values (z : Z) : (0 <= z <= 25)%Z -> In (of_Z z) letter_values.
Proof.
  intros Hz. unfold letter_values. apply in_map_iff. exists (Z.to_nat z).
  split; [now rewrite Z2Nat.id by lia | apply in_seq; lia].
Qed.

Lemma in_digit_values (z : Z) : (0 <= z <= 9)%Z -> In (of_Z z) digit_values.
Proof.
  intros Hz. unfold digit_values. apply in_map_iff. exists (Z.to_nat z).
  split; [now rewrite Z2Nat.id by lia | apply in_seq; lia].
Qed.

Lemma letter_at (grid : string) (i : nat) :
  isalpha (char_at (transform toupper grid) i) = true ->
  In (digit_of grid (S i) "A") letter_values.
Proof.
  intros H. apply in_letter_values. unfold char_offset. cbn [pred].
  rewrite char_at_transform in *. now apply letter_offset.
Qed.

Lemma digit_at (grid : string) (i : nat) :
  isdigit (char_at (transform toupper grid) i) = true ->
  In (digit_of grid (S i) "0") digit_values.
Proof.
  intros H. apply in_digit_values. unfold char_offset. cbn [pred].
  now apply digit_offset.
Qed.

(** The center of an accepted locator is finite, and so are the radians of
    its latitude. *)
Lemma center_finite (grid : string) :
  invalid_format grid = false ->
  finite64 (center_latitude grid) = true /\
  finite64 (toRadians (center_latitude grid)) = true /\
  finite64 (center_longitude grid) = true.
Proof.
  intros V. destruct (valid_shape grid V) as [Hlen [A0 [A1 [D23 [A45 D67]]]]].
  unfold center_latitude, center_longitude.
  assert (Z0 : In (of_Z 0) letter_values) by (apply in_letter_values; lia).
  assert (Z1 : In (of_Z 0) digit_values) by (apply in_digit_values; lia).
  pose proof (letter_at grid 0 A0) as L0. pose proof (letter_at grid 1 A1) as L1.
  assert (F : forall a b c d a' b' c' d',
             finite_cell (String.length grid) a b c d = true ->
             finite_cell (String.length grid) a' b' c' d' = true ->
             finite64 (cell_latitude (String.length grid) a b c d) = true /\
             finite64 (toRadians (cell_latitude (String.length grid) a b c d)) = true /\
             finite64 (cell_longitude (String.length grid) a' b' c' d') = true).
  { intros a b c d a' b' c' d' H H'.
    rewrite cell_latitude_lat64, cell_longitude_lon64.
    change (toRadians (lat64 (String.length grid) a b c d))
      with (rad64 (lat64 (String.length grid) a b c d)).
    unfold finite_cell in H, H'.
    apply andb_prop in H, H'. destruct H as [H _], H' as [_ H'].
    apply andb_prop in H. destruct H as [H1 H2].
    repeat split; now apply is_finite_finite64. }
  set (z := of_Z 0) in *.
  set (a0 := digit_of grid 1 "A") in *. set (a1 := digit_of grid 2 "A") in *.
  set (d2 := digit_of grid 3 "0") in *. set (d3 := digit_of grid 4 "0") in *.
  set (a4 := digit_of grid 5 "A") in *. set (a5 := digit_of grid 6 "A") in *.
  set (d6 := digit_of grid 7 "0") in *. set (d7 := digit_of grid 8 "0") in *.
  destruct Hlen as [E|[E|[E|E]]]; rewrite E in *.
  - apply (F a1 z z z a0 z z z); apply finite_cell_range;
      solve [cbn [In]; auto | assumption].
  - destruct D23 as [D2 D3]; [lia|].
    pose proof (digit_at grid 2 D2). pose proof (digit_at grid 3 D3).
    apply (F a1 d3 z z a0 d2 z z); apply finite_cell_range;
      solve [cbn [In]; auto | assumption].
  - destruct D23 as [D2 D3]; [lia|]. destruct A45 as [A4 A5]; [lia|].
    pose proof (digit_at grid 2 D2). pose proof (digit_at grid 3 D3).
    pose proof (letter_at grid 4 A4). pose proof (letter_at grid 5 A5).
    apply (F a1 d3 a5 z a0 d2 a4 z); apply finite_cell_range;
      solve [cbn [In]; auto | assumption].
  - destruct D23 as [D2 D3]; [lia|]. destruct A45 as [A4 A5]; [lia|].
    destruct D67 as [D6 D7]; [reflexivity|].
    pose proof (digit_at grid 2 D2). pose proof (digit_at grid 3 D3).
    pose proof (letter_at grid 4 A4). pose proof (letter_at grid 5 A5).
    pose proof (digit_at grid 6 D6). pose proof (digit_at grid 7 D7).
    apply (F a1 d3 a5 d7 a0 d2 a4 d6); apply finite_cell_range;
      solve [cbn [In]; auto | assumption].
Qed.

(** *** A point and itself *)

Section SelfBinary64.

Context (lm : Libm float).
Hypothesis sin_0 : std_sin 0 = 0.
Hypothesis cos_0 : std_cos 0 = 1.
Hypothesis sin_bounded : forall x : float,
  finite64 x = true ->
  finite64 (std_sin x) = true /\ (abs (std_sin x) <=? 1) = true.
Hypothesis cos_bounded : forall x : float,
  finite64 x = true ->
  finite64 (std_cos x) = true /\ (abs (std_cos x) <=? 1) = true.
Hypothesis atan2_0_1 : std_atan2 0 1 = 0.
Hypothesis atan2_0_0 : std_atan2 0 0 = 0.
Hypothesis atan2_neg0_0 : std_atan2 (-0) 0 = -0.

Lemma haversine_self64 (coord : Coordinate float) :
  finite64 (latitude coord) = true -> finite64 (longitude coord) = true ->
  finite64 (toRadians (latitude coord)) = true ->
  haversine coord coord = 0.
Proof.
  intros Flat Flon Frad.
  change (haversine coord coord) with
    (std_sin ((latitude coord - latitude coord) * M_PI64 / 180 / 2) *
     std_sin ((latitude coord - latitude coord) * M_PI64 / 180 / 2) +
     std_cos (toRadians (latitude coord)) * std_cos (toRadians (latitude coord)) *
     std_sin ((longitude coord - longitude coord) * M_PI64 / 180 / 2) *
     std_sin ((longitude coord - longitude coord) * M_PI64 / 180 / 2)).
  rewrite (sub_self _ Flat), (sub_self _ Flon).
  change (0 * M_PI64 / 180 / 2) with 0. rewrite sin_0.
  destruct (cos_bounded _ Frad) as [Fc Bc].
  rewrite (square_mul_zero _ (mul_finite _ _ Fc Fc Bc Bc)).
  reflexivity.
Qed.

Lemma calculateDistance_self64 (coord : Coordinate float) (unit : Unit) :
  finite64 (latitude coord) = true -> finite64 (longitude coord) = true ->
  finite64 (toRadians (latitude coord)) = true ->
  calculateDistance coord coord unit = 0.
Proof.
  intros Flat Flon Frad.
  change (calculateDistance coord coord unit) with
    (radius unit *
     (2 * std_atan2 (sqrt (haversine coord coord))
            (sqrt (1 - haversine coord coord)))).
  rewrite (haversine_self64 coord Flat Flon Frad).
  change (sqrt 0) with 0. change (sqrt (1 - 0)) with 1.
  rewrite atan2_0_1. destruct unit; reflexivity.
Qed.

(** The bearing is a zero; its sign is the sign of the cosine of the
    latitude. *)
Lemma calculateBearing_self64 (coord : Coordinate float) :
  finite64 (longitude coord) = true ->
  finite64 (toRadians (latitude coord)) = true ->
  calculateBearing coord coord = 0 \/ calculateBearing coord coord = -0.
Proof.
  intros Flon Frad.
  change (calculateBearing coord coord) with
    (normalizeAngle (toDegrees (std_atan2
       (std_sin ((longitude coord - longitude coord) * M_PI64 / 180) *
        std_cos (toRadians (latitude coord)))
       (std_cos (toRadians (latitude coord)) * std_sin (toRadians (latitude coord)) -
        std_sin (toRadians (latitude coord)) * std_cos (toRadians (latitude coord)) *
        std_cos ((longitude coord - longitude coord) * M_PI64 / 180))))).
  rewrite (sub_self _ Flon). change (0 * M_PI64 / 180) with 0.
  rewrite sin_0, cos_0, mul_1_r.
  destruct (cos_bounded _ Frad) as [Fc Bc]. destruct (sin_bounded _ Frad) as [Fs Bs].
  rewrite (mul_comm (std_cos _) (std_sin _)).
  rewrite (sub_self _ (mul_finite _ _ Fs Fc Bs Bc)).
  destruct (zero_mul _ Fc) as [Z|Z]; rewrite Z.
  - left. rewrite atan2_0_0. reflexivity.
  - right. rewrite atan2_neg0_0. reflexivity.
Qed.

(** A valid locator against itself, in binary64. *)
Lemma calculate_self64 (grid : string) (unit : Unit) :
  invalid_format grid = false ->
  exists r : DistanceResult float,
    calculate grid grid unit = Ok r /\
    distance r = 0 /\
    (bearing r = 0 \/ bearing r = -0) /\
    (backBearing r = 0 \/ backBearing r = -0).
Proof.
  intros V. destruct (center_finite grid V) as [Flat [Frad Flon]].
  pose proof (toLatLon_center (D := float) grid V) as Hc.
  eexists. split; [exact (calculate_ok grid grid unit _ _ Hc Hc)|].
  cbn [distance bearing backBearing].
  split; [now apply calculateDistance_self64|].
  split; now apply calculateBearing_self64.
Qed.

End SelfBinary64.

(** The small-angle library meets the three assumptions. *)
Lemma small_angle_sine_odd (x : float) :
  @std_sin float small_angle_libm (- x) = - @std_sin float small_angle_libm x.
Proof.
  cbn [std_sin small_angle_libm].
  assert (E : abs (- x) = abs x).
  { apply Prim2SF_inj. rewrite !abs_spec, opp_spec.
    destruct (Prim2SF x); reflexivity. }
  rewrite E. destruct (abs x <=? 1); [reflexivity | apply mul_opp_r].
Qed.

Lemma small_angle_sine_bounded (x : float) :
  finite64 x = true ->
  finite64 (@std_sin float small_angle_libm x) = true /\
  (abs (@std_sin float small_angle_libm x) <=? 1) = true.
Proof.
  intros F. cbn [std_sin small_angle_libm].
  destruct (abs x <=? 1) eqn:E; [now split|].
  destruct (zero_mul x F) as [Z|Z]; rewrite Z; split; reflexivity.
Qed.

(** *** Compass buckets, by evaluation *)

Lemma bucket_ends (k : Z) : (0 <= k <= 16)%Z -> bucket_ends64 k = true.
Proof.
  intros Hk.
  assert (E : In k (map Z.of_nat (seq 0 17))).
  { replace k with (Z.of_nat (Z.to_nat k)) by lia.
    apply in_map, in_seq. lia. }
  clear Hk. revert k E. apply Forall_forall.
  repeat constructor; vm_compute; reflexivity.
Qed.

End Binary64Facts.

(** ** Properties that span the readings *)

Import Exact ExactFacts.

(** C10.  Any two letters are accepted, not only A..R: the decoder then
    returns a coordinate outside the geographic range.  [toLatLon "ZZ"] is
    latitude 165, longitude 330, in binary64 and in exact arithmetic. *)
Theorem toLatLon_accepts_letters_beyond_R :
  (forall (D : Type) (dbl : Double D) (c1 c2 : ascii),
     isalpha c1 = true -> isalpha c2 = true ->
     exists coord : Coordinate D,
       toLatLon (String c1 (String c2 EmptyString)) = Ok coord) /\
  (@toLatLon PrimFloat.float Binary64.double "ZZ" =
     Ok {| latitude := #165; longitude := #330 |} /\
   (#90 <? #165) = true /\ (#180 <? #330) = true)%dbl /\
  (exists coord : Coordinate R,
     toLatLon "ZZ" = Ok coord /\
     latitude coord = 165 /\ longitude coord = 330 /\
     90 < latitude coord /\ 180 < longitude coord)%R.
Proof.
  split; [|split].
  - intros D dbl c1 c2 H1 H2. eexists.
    apply toLatLon_center. now apply two_letters_accepted.
  - repeat split; vm_compute; reflexivity.
  - eexists. split; [apply toLatLon_center; reflexivity|].
    cbn [latitude longitude].
    unfold center_latitude, center_longitude, cell_latitude, cell_longitude,
      digit_of, char_offset, half_width, half_height.
    cbn [String.length pred]. exact_arith. eval_offsets.
    repeat split; lra.
Qed.

Lemma toLatLon_accepts_letters_beyond_R_witness :
  exists coord : Coordinate PrimFloat.float, toLatLon "Zz" = Ok coord.
Proof.
  apply (proj1 toLatLon_accepts_letters_beyond_R PrimFloat.float
           Binary64.double "Z"%char "z"%char); reflexivity.
Defined.

(** C5.  For valid locators [calculate] sets [backBearing] to the initial
    bearing from the second decoded coordinate to the first.  It is not
    [(bearing + 180) mod 360]: from JN to LN, two cells on the parallel of
    45 degrees, the bearing is below 90 and the back bearing is 360 minus
    it; and for CN87 against itself both bearings are 0, where that formula
    gives 180. *)
Theorem calculate_backBearing_swaps_arguments :
  (forall (D : Type) (dbl : Double D) (lm : Libm D)
          (grid1 grid2 : string) (unit : Unit),
     invalid_format grid1 = false -> invalid_format grid2 = false ->
     exists (coord1 coord2 : Coordinate D) (r : DistanceResult D),
       toLatLon grid1 = Ok coord1 /\ toLatLon grid2 = Ok coord2 /\
       calculate grid1 grid2 unit = Ok r /\
       bearing r = calculateBearing coord1 coord2 /\
       backBearing r = calculateBearing coord2 coord1) /\
  (exists r : DistanceResult R,
     calculate "JN" "LN" KILOMETERS = Ok r /\
     (0 < bearing r < 90)%R /\
     backBearing r = (360 - bearing r)%R /\
     normalizeAngle (bearing r + #180)%dbl = (bearing r + 180)%R /\
     backBearing r <> normalizeAngle (bearing r + #180)%dbl) /\
  (exists r : DistanceResult R,
     calculate "CN87" "CN87" KILOMETERS = Ok r /\
     backBearing r = 0%R /\
     normalizeAngle (bearing r + #180)%dbl = 180%R /\
     backBearing r <> normalizeAngle (bearing r + #180)%dbl).
Proof.
  split; [|split].
  - intros D dbl lm grid1 grid2 unit H1 H2.
    pose proof (toLatLon_center grid1 H1) as E1.
    pose proof (toLatLon_center grid2 H2) as E2.
    do 3 eexists. split; [exact E1|]. split; [exact E2|].
    split; [exact (calculate_ok grid1 grid2 unit _ _ E1 E2)|].
    split; reflexivity.
  - destruct toLatLon_exact_centers as [E1 E2].
    eexists. split; [exact (calculate_ok "JN" "LN" KILOMETERS _ _ E1 E2)|].
    cbn [bearing backBearing].
    destruct (bearings_along_parallel 45 10 50) as [Hb Hback]; [lra | lra |].
    cbv zeta in Hb, Hback.
    set (b := calculateBearing {| latitude := 45%R; longitude := 10%R |}
                {| latitude := 45%R; longitude := 50%R |}) in *.
    assert (N : normalizeAngle (b + #180)%dbl = (b + 180)%R).
    { exact_arith. replace (b + 180 * / 1)%R with (b + 180)%R by lra.
      apply normalizeAngle_small. lra. }
    rewrite N, Hback. repeat split; lra.
  - pose proof (toLatLon_center (D := R) "CN87" eq_refl) as E.
    eexists. split; [exact (calculate_ok "CN87" "CN87" KILOMETERS _ _ E E)|].
    cbn [bearing backBearing]. rewrite calculateBearing_self.
    exact_arith. replace (0 + 180 * / 1)%R with 180%R by lra.
    rewrite normalizeAngle_small by lra.
    repeat split. lra.
Qed.

Lemma calculate_backBearing_swaps_arguments_witness :
  exists (coord1 coord2 : Coordinate R) (r : DistanceResult R),
    toLatLon "FN42" = Ok coord1 /\ toLatLon "JO01" = Ok coord2 /\
    calculate "FN42" "JO01" MILES = Ok r /\
    bearing r = calculateBearing coord1 coord2 /\
    backBearing r = calculateBearing coord2 coord1.
Proof.
  apply (proj1 calculate_backBearing_swaps_arguments R Exact.double Exact.libm
           "FN42"%string "JO01"%string MILES); reflexivity.
Defined.

(** Below the range of bearings the remainder is negative and the table
    is read out of bounds: -45 gives index -2. *)
Lemma bearingToDirection_negative :
  bearingToDirection (-45)%R = None /\
  (@bearingToDirection PrimFloat.float Binary64.double (#0 - #45) = None)%dbl.
Proof.
  split; [|vm_compute; reflexivity].
  unfold bearingToDirection. exact_arith.
  replace (-45 / (45 * / 2))%R with (IZR (-2)) by lra.
  assert (E : Rround (IZR (-2)) = IZR (-2)).
  { unfold Rround. destruct (Rle_dec 0 (IZR (-2))) as [H|_]; [lra|].
    rewrite (Int_part_unique (- IZR (-2) + / 2) 2) by lra. reflexivity. }
  rewrite E, Rto_int_IZR by (unfold INT_MIN, INT_MAX; lia). reflexivity.
Qed.

(** The rounded quotient of a bearing in [0, 360] is one of 0..16. *)
Lemma round_quotient_exists (b : R) :
  (0 <= b <= 360)%R ->
  exists n : Z, (0 <= n <= 16)%Z /\ (IZR n - / 2 <= b / 22.5 < IZR n + / 2)%R.
Proof.
  intros Hb. exists (Int_part (b / 22.5 + / 2)).
  destruct (base_Int_part (b / 22.5 + / 2)) as [H1 H2].
  split; [|lra].
  assert (Ha : (IZR (-1) < IZR (Int_part (b / 22.5 + / 2)))%R) by lra.
  assert (Hc : (IZR (Int_part (b / 22.5 + / 2)) < IZR 17)%R) by lra.
  apply lt_IZR in Ha, Hc. lia.
Qed.

(** The buckets of the bearings from 0 on.  [bearingToDirection] indexes
    a table of exactly 16 labels that starts at N: in exact arithmetic a
    bearing within 11.25 degrees of the k-th compass point gets the k-th
    label, the last half-bucket below 360 wraps to N and every bearing in
    [0, 360] gets one of the 16 labels; 0 is N and 180 is S, also in
    binary64, where the two ends and the center of each of the 17 buckets
    within [0, 360] are evaluated. *)
Theorem bearingToDirection_sixteen_points :
  List.length directions = 16%nat /\
  nth_error directions 0 = Some "N"%string /\
  (forall (b : R) (n : Z),
     (0 <= b)%R -> (IZR n - / 2 <= b / 22.5 < IZR n + / 2)%R ->
     (n <= Exact.INT_MAX)%Z ->
     bearingToDirection b = nth_error directions (Z.to_nat (n mod 16))) /\
  (forall (b : R) (k : nat),
     (k < 16)%nat -> (0 <= b)%R ->
     (22.5 * INR k - 11.25 <= b < 22.5 * INR k + 11.25)%R ->
     bearingToDirection b = nth_error directions k) /\
  (forall b : R,
     (348.75 <= b < 371.25)%R -> bearingToDirection b = Some "N"%string) /\
  (forall b : R,
     (0 <= b <= 360)%R ->
     exists label : string,
       In label directions /\ bearingToDirection b = Some label) /\
  bearingToDirection 0%R = Some "N"%string /\
  bearingToDirection 180%R = Some "S"%string /\
  (@bearingToDirection PrimFloat.float Binary64.double #0 = Some "N"%string /\
   @bearingToDirection PrimFloat.float Binary64.double #180 = Some "S"%string /\
   @bearingToDirection PrimFloat.float Binary64.double #360 = Some "N"%string)%dbl /\
  (forall k : Z, (0 <= k <= 16)%Z -> Binary64.bucket_ends64 k = true).
Proof.
  assert (Hbucket : forall (b : R) (k : nat),
             (k < 16)%nat -> (0 <= b)%R ->
             (22.5 * INR k - 11.25 <= b < 22.5 * INR k + 11.25)%R ->
             bearingToDirection b = nth_error directions k).
  { intros b k Hk Hb Hin.
    rewrite (bearingToDirection_round b (Z.of_nat k) Hb).
    - rewrite Z.mod_small by lia. now rewrite Nat2Z.id.
    - rewrite <- INR_IZR_INZ. lra.
    - unfold INT_MAX. lia. }
  repeat split.
  - exact bearingToDirection_round.
  - exact Hbucket.
  - intros b Hb.
    rewrite (bearingToDirection_round b 16); [reflexivity | lra | lra |].
    unfold INT_MAX. lia.
  - intros b Hb.
    destruct (round_quotient_exists b Hb) as [n [Hn Hq]].
    rewrite (bearingToDirection_round b n); [| lra | exact Hq |].
    2:{ unfold INT_MAX. lia. }
    destruct (nth_error directions (Z.to_nat (n mod 16))) as [label|] eqn:E.
    + exists label. split; [now apply nth_error_In in E | reflexivity].
    + apply nth_error_None in E. simpl in E.
      pose proof (Z.mod_pos_bound n 16). lia.
  - apply (Hbucket 0%R 0%nat); simpl; [lia | lra | lra].
  - apply (Hbucket 180%R 8%nat); simpl; [lia | lra | lra].
  - exact Binary64Facts.bucket_ends.
Qed.

(** [%] against [mod]: a negative quotient that is not a multiple of 16
    leaves a negative index. *)
Lemma negative_index (D : Type) (dbl : Double D) (b : D) (i : Z) :
  to_int (std_round (b / #22.5)%dbl) = Some i ->
  (i < 0)%Z -> Z.rem i 16 <> 0%Z ->
  bearingToDirection b = None /\
  exists label : string,
    nth_error directions (Z.to_nat (i mod 16)) = Some label.
Proof.
  intros E Hi Hr. split.
  - unfold bearingToDirection. rewrite E. unfold direction_at.
    pose proof (Z.rem_nonpos i 16 ltac:(lia) ltac:(lia)) as B.
    assert (L : (Z.rem i 16 <? 0)%Z = true) by (apply Z.ltb_lt; lia).
    now rewrite L.
  - pose proof (Z.mod_pos_bound i 16 ltac:(lia)) as B.
    destruct (nth_error directions (Z.to_nat (i mod 16))) as [label|] eqn:N.
    + now exists label.
    + apply nth_error_None in N. simpl in N. lia.
Qed.

(** C9.  [bearingToDirection] on a negative bearing.  The table has 16
    labels from N and the index is [round (bearing / 22.5) % 16] with the
    remainder of C++, which keeps the sign of the quotient: whenever the
    rounded quotient is negative and not a multiple of 16 the table is read
    before its first entry, where [mod 16] names a label.  In binary64
    [bearingToDirection (-45)] rounds to -2 and reads entry -2, where
    [(-2) mod 16 = 14] is NW; -22.5 and -11.25 read entry -1.  From 0 on
    the doubles evaluated carry the label of their bucket: 0 is N, 180 is
    S, 360 is N, and so are the ends and the center of every bucket within
    [0, 360]. *)
Theorem bearingToDirection_negative_bearing :
  List.length directions = 16%nat /\
  nth_error directions 0 = Some "N"%string /\
  (forall (D : Type) (dbl : Double D) (b : D) (i : Z),
     to_int (std_round (b / #22.5)%dbl) = Some i ->
     (i < 0)%Z -> Z.rem i 16 <> 0%Z ->
     bearingToDirection b = None /\
     exists label : string,
       nth_error directions (Z.to_nat (i mod 16)) = Some label) /\
  (@to_int PrimFloat.float Binary64.double
     (std_round (#(-45) / #22.5)%dbl) = Some (-2)%Z /\
   Z.rem (-2) 16 = (-2)%Z /\ direction_at (-2) = None /\
   @bearingToDirection PrimFloat.float Binary64.double (#(-45))%dbl = None /\
   nth_error directions (Z.to_nat ((-2) mod 16)) = Some "NW"%string) /\
  (@bearingToDirection PrimFloat.float Binary64.double (#(-22.5))%dbl = None /\
   @bearingToDirection PrimFloat.float Binary64.double (#(-11.25))%dbl = None /\
   nth_error directions (Z.to_nat ((-1) mod 16)) = Some "NNW"%string) /\
  (@bearingToDirection PrimFloat.float Binary64.double (#0)%dbl
     = Some "N"%string /\
   @bearingToDirection PrimFloat.float Binary64.double (#180)%dbl
     = Some "S"%string /\
   @bearingToDirection PrimFloat.float Binary64.double (#360)%dbl
     = Some "N"%string) /\
  (forall k : Z, (0 <= k <= 16)%Z -> Binary64.bucket_ends64 k = true).
Proof.
  split; [reflexivity|]. split; [reflexivity|].
  split; [exact negative_index|].
  split; [repeat split; vm_compute; reflexivity|].
  split; [repeat split; vm_compute; reflexivity|].
  split; [repeat split; vm_compute; reflexivity|].
  exact Binary64Facts.bucket_ends.
Qed.

Lemma bearingToDirection_negative_bearing_witness :
  @bearingToDirection PrimFloat.float Binary64.double (#(-45))%dbl = None /\
  exists label : string,
    nth_error directions (Z.to_nat ((-2) mod 16)) = Some label.
Proof.
  apply (proj1 (proj2 (proj2 bearingToDirection_negative_bearing))
           PrimFloat.float Binary64.double (#(-45))%dbl (-2)%Z).
  - vm_compute. reflexivity.
  - lia.
  - vm_compute. discriminate.
Defined.

(** ** Further properties of the decoder *)

(** X3.  Decoding is case-insensitive: locators that agree after
    upper-casing decode alike (and fail alike). *)
Theorem toLatLon_case_insensitive
    (D : Type) (dbl : Double D) (grid1 grid2 : string) :
  transform toupper grid1 = transform toupper grid2 ->
  @toLatLon D dbl grid1 = toLatLon grid2.
Proof. intros H. unfold toLatLon. now rewrite H. Qed.

Lemma toLatLon_case_insensitive_witness :
  @toLatLon PrimFloat.float Binary64.double "FN42" = toLatLon "fn42".
Proof.
  apply (toLatLon_case_insensitive PrimFloat.float Binary64.double
           "FN42"%string "fn42"%string).
  reflexivity.
Defined.

(** X4.  The center of AA00AA00 lies in the 2 by 1 degree cell of AA00,
    whose center is (-89.5, -179); in exact arithmetic and in binary64. *)
Theorem toLatLon_refines_cell :
  (exists coarse fine : Coordinate R,
     toLatLon "AA00" = Ok coarse /\ toLatLon "AA00AA00" = Ok fine /\
     latitude coarse - / 2 <= latitude fine <= latitude coarse + / 2 /\
     longitude coarse - 1 <= longitude fine <= longitude coarse + 1)%R /\
  (exists coarse fine : Coordinate PrimFloat.float,
     toLatLon "AA00" = Ok coarse /\ toLatLon "AA00AA00" = Ok fine /\
     (latitude coarse - #0.5 <? latitude fine) = true /\
     (latitude fine <? latitude coarse + #0.5) = true /\
     (longitude coarse - #1 <? longitude fine) = true /\
     (longitude fine <? longitude coarse + #1) = true)%dbl.
Proof.
  split.
  - do 2 eexists.
    split; [apply toLatLon_center; reflexivity|].
    split; [apply toLatLon_center; reflexivity|].
    cbn [latitude longitude].
    unfold center_latitude, center_longitude, cell_latitude, cell_longitude,
      digit_of, char_offset, half_width, half_height.
    cbn [String.length pred]. exact_arith. eval_offsets.
    repeat split; lra.
  - do 2 eexists.
    split; [vm_compute; reflexivity|].
    split; [vm_compute; reflexivity|].
    repeat split; vm_compute; reflexivity.
Qed.

(** ** Distance: both readings *)

Module Readings.

Import Floats Binary64 Binary64Facts.
Local Open Scope string_scope.
Local Open Scope float_scope.

Lemma small_angle_sine_is_odd : sine_odd small_angle_libm.
Proof. exact small_angle_sine_odd. Qed.

Lemma small_angle_exact_at_zero : exact_at_zero small_angle_libm.
Proof. repeat split. Qed.

Lemma small_angle_unit_bounded : unit_bounded small_angle_libm.
Proof.
  intros x F. split; [now apply small_angle_sine_bounded | split; reflexivity].
Qed.

(** C6.  [calculateDistance] is symmetric in its two coordinates, for
    every unit: in exact arithmetic, and in binary64, bit for bit, for
    every math library whose sine is odd. *)
Theorem calculateDistance_symmetric :
  (forall (coord1 coord2 : Coordinate R) (unit : Unit),
     calculateDistance coord1 coord2 unit =
     calculateDistance coord2 coord1 unit) /\
  (forall lm : Libm float,
     sine_odd lm ->
     forall (coord1 coord2 : Coordinate float) (unit : Unit),
       calculateDistance coord1 coord2 unit =
       calculateDistance coord2 coord1 unit).
Proof.
  split.
  - exact calculateDistance_sym.
  - intros lm Hodd coord1 coord2 unit.
    now apply calculateDistance_sym64.
Qed.

Lemma calculateDistance_symmetric_witness :
  @calculateDistance float double small_angle_libm
    {| latitude := 42.5; longitude := -71 |}
    {| latitude := 51.5; longitude := 1 |} MILES =
  @calculateDistance float double small_angle_libm
    {| latitude := 51.5; longitude := 1 |}
    {| latitude := 42.5; longitude := -71 |} MILES.
Proof.
  apply (proj2 calculateDistance_symmetric small_angle_libm).
  exact small_angle_sine_is_odd.
Defined.

(** C8.  A valid locator evaluated against itself, in every unit: the
    distance is exactly 0 and both bearings are 0 ([atan2 (0, 0) = 0]).
    In exact arithmetic; and in binary64 for every math library that is
    exact at zero and bounded by one, where the bearing is a zero of
    either sign. *)
Theorem calculate_self :
  (forall (grid : string) (unit : Unit),
     invalid_format grid = false ->
     exists r : DistanceResult R,
       calculate grid grid unit = Ok r /\
       distance r = 0%R /\ bearing r = 0%R /\ backBearing r = 0%R) /\
  (forall lm : Libm float,
     exact_at_zero lm -> unit_bounded lm ->
     forall (grid : string) (unit : Unit),
       invalid_format grid = false ->
       exists r : DistanceResult float,
         calculate grid grid unit = Ok r /\
         distance r = 0 /\
         (bearing r = 0 \/ bearing r = -0) /\
         (backBearing r = 0 \/ backBearing r = -0)).
Proof.
  split.
  - exact calculate_self_exact.
  - intros lm [S0 [C0 [A1 [A0 An]]]] B grid unit V.
    apply (calculate_self64 lm S0 C0); auto; intros x F; now apply B.
Qed.

Lemma calculate_self_witness :
  exists r : DistanceResult float,
    @calculate float double small_angle_libm "CN87" "CN87" KILOMETERS = Ok r /\
    distance r = 0 /\
    (bearing r = 0 \/ bearing r = -0) /\
    (backBearing r = 0 \/ backBearing r = -0).
Proof.
  apply (proj2 calculate_self small_angle_libm small_angle_exact_at_zero
           small_angle_unit_bounded "CN87" KILOMETERS).
  reflexivity.
Defined.

(** C7.  The unit only rescales the distance by the selected radius.  In
    every reading the distance is the radius times a central angle that
    does not depend on the unit.  In exact arithmetic the distance in
    miles (nautical miles) equals the distance in kilometers times
    3959/6371 (3440/6371).  In binary64, for every math library and every
    central angle in the normal range, the two sides agree to within
    [2^-50] in relative terms: each is at most three roundings away from
    the exact product. *)
Theorem calculateDistance_unit_ratio :
  (forall (D : Type) (dbl : Double D) (lm : Libm D)
          (coord1 coord2 : Coordinate D) (unit : Unit),
     calculateDistance coord1 coord2 unit =
     (radius unit * central_angle coord1 coord2)%dbl) /\
  (forall coord1 coord2 : Coordinate R,
     calculateDistance coord1 coord2 MILES =
       (calculateDistance coord1 coord2 KILOMETERS * (3959 / 6371))%R /\
     calculateDistance coord1 coord2 NAUTICAL_MILES =
       (calculateDistance coord1 coord2 KILOMETERS * (3440 / 6371))%R) /\
  (forall (lm : Libm float) (coord1 coord2 : Coordinate float),
     (0x1p-1000 <=? central_angle coord1 coord2) = true ->
     (central_angle coord1 coord2 <=? 0x1p1000) = true ->
     let km := calculateDistance coord1 coord2 KILOMETERS in
     let mi := calculateDistance coord1 coord2 MILES in
     let nm := calculateDistance coord1 coord2 NAUTICAL_MILES in
     (Rabs (to_real (km * (EARTH_RADIUS_MI / EARTH_RADIUS_KM)) - to_real mi)
      <= / IZR (2 ^ 50) * Rabs (to_real mi))%R /\
     (Rabs (to_real (km * (EARTH_RADIUS_NM / EARTH_RADIUS_KM)) - to_real nm)
      <= / IZR (2 ^ 50) * Rabs (to_real nm))%R).
Proof.
  split; [|split].
  - intros D dbl lm coord1 coord2 unit. reflexivity.
  - exact calculateDistance_ratio_exact.
  - intros lm coord1 coord2 Hlo Hhi km mi nm.
    destruct (calculateDistance_radius64 lm coord1 coord2) as [Ekm [Emi Enm]].
    destruct radius_ratios64 as [Rmi Rnm].
    unfold km, mi, nm. rewrite Ekm, Emi, Enm, Rmi, Rnm.
    split.
    + now apply miles_ratio_tolerance.
    + now apply nautical_ratio_tolerance.
Qed.

Lemma calculateDistance_unit_ratio_witness :
  let coord1 := {| latitude := 42.5; longitude := -71 |} in
  let coord2 := {| latitude := 51.5; longitude := 1 |} in
  let km := @calculateDistance float double small_angle_libm
              coord1 coord2 KILOMETERS in
  let mi := @calculateDistance float double small_angle_libm
              coord1 coord2 MILES in
  let nm := @calculateDistance float double small_angle_libm
              coord1 coord2 NAUTICAL_MILES in
  (Rabs (to_real (km * (EARTH_RADIUS_MI / EARTH_RADIUS_KM)) - to_real mi)
   <= / IZR (2 ^ 50) * Rabs (to_real mi))%R /\
  (Rabs (to_real (km * (EARTH_RADIUS_NM / EARTH_RADIUS_KM)) - to_real nm)
   <= / IZR (2 ^ 50) * Rabs (to_real nm))%R.
Proof.
  apply (proj2 (proj2 calculateDistance_unit_ratio) small_angle_libm
           {| latitude := 42.5; longitude := -71 |}
           {| latitude := 51.5; longitude := 1 |}); reflexivity.
Defined.

End Readings.

(** * Further properties: entry points, cells, geodesy, command line *)

(** ** The entry points on locators *)

Module EntryFacts.

Local Open Scope string_scope.

Section EntryPoints.

Context {D : Type} {dbl : Double D} {libm : Libm D}.

(** An exception of the decoder leaves [calculate] as it is. *)
Lemma calculate_error_l (grid1 grid2 : string) (unit : Unit) (what : string) :
  toLatLon grid1 = InvalidArgument what ->
  calculate grid1 grid2 unit = InvalidArgument what.
Proof. intros H. unfold calculate. now rewrite H. Qed.

Lemma calculate_error_r (grid1 grid2 : string) (unit : Unit)
    (coord1 : Coordinate D) (what : string) :
  toLatLon grid1 = Ok coord1 -> toLatLon grid2 = InvalidArgument what ->
  calculate grid1 grid2 unit = InvalidArgument what.
Proof. intros H1 H2. unfold calculate. now rewrite H1, H2. Qed.

Lemma distance_of_calculate (grid1 grid2 : string) (unit : Unit) :
  Locators.distance grid1 grid2 unit =
  (r <- calculate grid1 grid2 unit ;; Ok (distance r)).
Proof.
  unfold Locators.distance, calculate.
  destruct (toLatLon grid1) as [c1|w]; [|reflexivity].
  destruct (toLatLon grid2) as [c2|w]; reflexivity.
Qed.

Lemma bearing_of_calculate (grid1 grid2 : string) (unit : Unit) :
  Locators.bearing grid1 grid2 =
  (r <- calculate grid1 grid2 unit ;; Ok (bearing r)).
Proof.
  unfold Locators.bearing, calculate.
  destruct (toLatLon grid1) as [c1|w]; [|reflexivity].
  destruct (toLatLon grid2) as [c2|w]; reflexivity.
Qed.

Lemma calculate_is_error (grid1 grid2 : string) (unit : Unit) :
  is_error (calculate grid1 grid2 unit) =
  invalid_format grid1 || invalid_format grid2.
Proof.
  rewrite <- !(toLatLon_error (D := D)). unfold calculate.
  destruct (toLatLon grid1) as [c1|w]; [|reflexivity].
  destruct (toLatLon grid2) as [c2|w]; reflexivity.
Qed.

End EntryPoints.

(** X5.  [distance] and [bearing] return the fields of [calculate]: its
    [distance] and its [bearing], and [bearing] with the locators swapped
    returns its [backBearing]; [from] and [to] are the decoded locators. *)
Theorem entry_points_agree
    (D : Type) (dbl : Double D) (libm : Libm D)
    (grid1 grid2 : string) (unit : Unit) :
  Locators.distance grid1 grid2 unit =
    (r <- calculate grid1 grid2 unit ;; Ok (distance r)) /\
  Locators.bearing grid1 grid2 =
    (r <- calculate grid1 grid2 unit ;; Ok (bearing r)) /\
  (forall r : DistanceResult D,
     calculate grid1 grid2 unit = Ok r ->
     Locators.bearing grid2 grid1 = Ok (backBearing r) /\
     toLatLon grid1 = Ok (from r) /\ toLatLon grid2 = Ok (to r)).
Proof.
  split; [apply distance_of_calculate|].
  split; [apply bearing_of_calculate|].
  intros r. unfold calculate, Locators.bearing.
  destruct (toLatLon grid1) as [c1|w]; [|discriminate].
  destruct (toLatLon grid2) as [c2|w]; [|discriminate].
  cbn [bind]. intros H. injection H as <-. auto.
Qed.

Lemma entry_points_agree_witness :
  exists r : DistanceResult R,
    calculate "FN42" "JO01" MILES = Ok r /\
    Locators.bearing "JO01" "FN42" = Ok (backBearing r) /\
    toLatLon "FN42" = Ok (from r) /\ toLatLon "JO01" = Ok (to r).
Proof.
  pose proof (calculate_ok (libm := Exact.libm) "FN42" "JO01" MILES _ _
                (toLatLon_center (D := R) "FN42" eq_refl)
                (toLatLon_center (D := R) "JO01" eq_refl)) as E.
  eexists. split; [exact E|].
  apply (proj2 (proj2 (entry_points_agree R Exact.double Exact.libm
                         "FN42" "JO01" MILES)) _ E).
Defined.

(** X6.  [calculate], [distance] and [bearing] fail exactly when one of
    the locators is rejected, with the message of the first locator when it
    is rejected and of the second otherwise. *)
Theorem calculate_reports_first_invalid_locator
    (D : Type) (dbl : Double D) (libm : Libm D)
    (grid1 grid2 : string) (unit : Unit) :
  is_error (calculate grid1 grid2 unit) =
    invalid_format grid1 || invalid_format grid2 /\
  (forall what : string,
     toLatLon grid1 = InvalidArgument what ->
     calculate grid1 grid2 unit = InvalidArgument what /\
     Locators.distance grid1 grid2 unit = InvalidArgument what /\
     Locators.bearing grid1 grid2 = InvalidArgument what) /\
  (forall what : string,
     invalid_format grid1 = false ->
     toLatLon grid2 = InvalidArgument what ->
     calculate grid1 grid2 unit = InvalidArgument what /\
     Locators.distance grid1 grid2 unit = InvalidArgument what /\
     Locators.bearing grid1 grid2 = InvalidArgument what).
Proof.
  split; [apply calculate_is_error|]. split.
  - intros what H.
    rewrite distance_of_calculate, (bearing_of_calculate _ _ unit).
    now rewrite (calculate_error_l _ _ _ _ H).
  - intros what V H.
    rewrite distance_of_calculate, (bearing_of_calculate _ _ unit).
    now rewrite (calculate_error_r _ _ _ _ _ (toLatLon_center grid1 V) H).
Qed.

Lemma calculate_reports_first_invalid_locator_witness :
  @calculate R Exact.double Exact.libm "F" "12AB" KILOMETERS =
    InvalidArgument "Grid square must be 2, 4, 6, or 8 characters" /\
  @Locators.distance R Exact.double Exact.libm "F" "12AB" KILOMETERS =
    InvalidArgument "Grid square must be 2, 4, 6, or 8 characters" /\
  @Locators.bearing R Exact.double Exact.libm "F" "12AB" =
    InvalidArgument "Grid square must be 2, 4, 6, or 8 characters".
Proof.
  apply (proj1 (proj2 (calculate_reports_first_invalid_locator
                         R Exact.double Exact.libm "F" "12AB" KILOMETERS))).
  reflexivity.
Defined.

End EntryFacts.

(** ** The messages of the decoder *)

(** X7.  The message of [toLatLon] names the first rule broken, in the
    order length, field, square, subsquare, extended square; the empty
    string breaks the first. *)
Theorem toLatLon_error_messages
    (D : Type) (dbl : Double D) (grid : string) :
  let s := transform toupper grid in
  let len := String.length grid in
  let letters i j := isalpha (char_at s i) && isalpha (char_at s j) in
  let digits i j := isdigit (char_at s i) && isdigit (char_at s j) in
  let well_sized := ((len =? 2) || (len =? 4) || (len =? 6) || (len =? 8))%nat in
  (well_sized = false ->
   @toLatLon D dbl grid =
   InvalidArgument "Grid square must be 2, 4, 6, or 8 characters") /\
  (well_sized = true -> letters 0%nat 1%nat = false ->
   @toLatLon D dbl grid =
   InvalidArgument "First two characters must be letters") /\
  (well_sized = true -> letters 0%nat 1%nat = true ->
   (4 <= len)%nat -> digits 2%nat 3%nat = false ->
   @toLatLon D dbl grid = InvalidArgument "Characters 3-4 must be digits") /\
  (well_sized = true -> letters 0%nat 1%nat = true ->
   digits 2%nat 3%nat = true ->
   (6 <= len)%nat -> letters 4%nat 5%nat = false ->
   @toLatLon D dbl grid = InvalidArgument "Characters 5-6 must be letters") /\
  (letters 0%nat 1%nat = true -> digits 2%nat 3%nat = true ->
   letters 4%nat 5%nat = true ->
   len = 8%nat -> digits 6%nat 7%nat = false ->
   @toLatLon D dbl grid = InvalidArgument "Characters 7-8 must be digits").
Proof.
  intros s len letters digits well_sized. subst letters digits well_sized.
  cbv beta. unfold toLatLon. rewrite transform_length. fold s len.
  repeat split.
  - destruct (len =? 2)%nat, (len =? 4)%nat, (len =? 6)%nat, (len =? 8)%nat;
      simpl; intros H; try discriminate H; reflexivity.
  - destruct (len =? 2)%nat, (len =? 4)%nat, (len =? 6)%nat, (len =? 8)%nat;
      simpl; intros H; try discriminate H;
      destruct (isalpha (char_at s 0)), (isalpha (char_at s 1)); simpl;
      intros H'; try discriminate H'; reflexivity.
  - intros W L Hlen Dg.
    assert (E4 : (4 <=? len)%nat = true) by now apply Nat.leb_le.
    rewrite E4.
    destruct (len =? 2)%nat, (len =? 4)%nat, (len =? 6)%nat, (len =? 8)%nat;
      simpl in W; try discriminate W; simpl;
      destruct (isalpha (char_at s 0)), (isalpha (char_at s 1));
      simpl in L; try discriminate L; simpl;
      destruct (isdigit (char_at s 2)), (isdigit (char_at s 3));
      simpl in Dg; try discriminate Dg; reflexivity.
  - intros W L Dg Hlen Lt.
    assert (E6 : (6 <=? len)%nat = true) by now apply Nat.leb_le.
    rewrite E6.
    destruct (len =? 2)%nat, (len =? 4)%nat, (len =? 6)%nat, (len =? 8)%nat;
      simpl in W; try discriminate W; simpl;
      destruct (isalpha (char_at s 0)), (isalpha (char_at s 1));
      simpl in L; try discriminate L; simpl;
      destruct (isdigit (char_at s 2)), (isdigit (char_at s 3));
      simpl in Dg; try discriminate Dg; rewrite ?andb_false_r; simpl;
      destruct (isalpha (char_at s 4)), (isalpha (char_at s 5));
      simpl in Lt; try discriminate Lt; reflexivity.
  - intros L Dg Lt Hlen Dx. rewrite Hlen. simpl.
    destruct (isalpha (char_at s 0)), (isalpha (char_at s 1));
      simpl in L; try discriminate L; simpl;
      destruct (isdigit (char_at s 2)), (isdigit (char_at s 3));
      simpl in Dg; try discriminate Dg; simpl;
      destruct (isalpha (char_at s 4)), (isalpha (char_at s 5));
      simpl in Lt; try discriminate Lt; simpl;
      destruct (isdigit (char_at s 6)), (isdigit (char_at s 7));
      simpl in Dx; try discriminate Dx; reflexivity.
Qed.

Lemma toLatLon_error_messages_witness :
  @toLatLon R Exact.double "" =
  InvalidArgument "Grid square must be 2, 4, 6, or 8 characters".
Proof.
  apply (proj1 (toLatLon_error_messages R Exact.double "")). reflexivity.
Defined.

(** ** The decoder in units of a cell *)

Module Units.

Local Open Scope string_scope.

Lemma code_inj (c1 c2 : ascii) : code c1 = code c2 -> c1 = c2.
Proof.
  unfold code. intros H. apply Nat2Z.inj in H.
  rewrite <- (ascii_nat_embedding c1), <- (ascii_nat_embedding c2).
  now rewrite H.
Qed.

(** The offsets of the characters an accepted locator has. *)
Lemma valid_offsets (grid : string) :
  invalid_format grid = false ->
  let len := String.length grid in
  ((len = 2 \/ len = 4 \/ len = 6 \/ len = 8)%nat) /\
  (0 <= char_offset grid 1 "A" <= 25 /\ 0 <= char_offset grid 2 "A" <= 25)%Z /\
  ((4 <= len)%nat ->
   (0 <= char_offset grid 3 "0" <= 9 /\ 0 <= char_offset grid 4 "0" <= 9)%Z) /\
  ((6 <= len)%nat ->
   (0 <= char_offset grid 5 "A" <= 25 /\ 0 <= char_offset grid 6 "A" <= 25)%Z) /\
  (len = 8%nat ->
   (0 <= char_offset grid 7 "0" <= 9 /\ 0 <= char_offset grid 8 "0" <= 9)%Z).
Proof.
  intros V len.
  destruct (valid_shape grid V) as [Hlen [A0 [A1 [D23 [A45 D67]]]]].
  fold len in Hlen, D23, A45, D67.
  assert (L : forall i, isalpha (char_at (transform toupper grid) i) = true ->
                        (0 <= char_offset grid (S i) "A" <= 25)%Z).
  { intros i H. unfold char_offset. cbn [pred].
    rewrite char_at_transform in *. now apply letter_offset. }
  assert (G : forall i, isdigit (char_at (transform toupper grid) i) = true ->
                        (0 <= char_offset grid (S i) "0" <= 9)%Z).
  { intros i H. unfold char_offset. cbn [pred]. now apply digit_offset. }
  split; [exact Hlen|].
  split; [split; apply L; assumption|].
  split; [intros H; split; apply G; tauto|].
  split; [intros H; split; apply L; tauto|].
  intros H; split; apply G; tauto.
Qed.

(** What [maidenhead] adds: the bounds of the letters in use. *)
Lemma maidenhead_offsets (grid : string) :
  maidenhead grid = true ->
  invalid_format grid = false /\
  (char_offset grid 1 "A" <= 17)%Z /\ (char_offset grid 2 "A" <= 17)%Z /\
  ((6 <= String.length grid)%nat ->
   (char_offset grid 5 "A" <= 23)%Z /\ (char_offset grid 6 "A" <= 23)%Z).
Proof.
  unfold maidenhead. intros H.
  apply andb_prop in H. destruct H as [H S].
  apply andb_prop in H. destruct H as [H F2].
  apply andb_prop in H. destruct H as [V F1].
  apply negb_true_iff in V. split; [exact V|].
  apply Z.leb_le in F1, F2. split; [exact F1|]. split; [exact F2|].
  intros Hlen. apply orb_prop in S. destruct S as [S|S].
  - apply Nat.ltb_lt in S. lia.
  - apply andb_prop in S. destruct S as [S1 S2]. now apply Z.leb_le in S1, S2.
Qed.

Local Open Scope R_scope.

(** In exact arithmetic the center is that many units. *)
Lemma cell_latitude_units (len : nat) (a b c d : Z) :
  (len = 2 \/ len = 4 \/ len = 6 \/ len = 8)%nat ->
  cell_latitude len (IZR a) (IZR b) (IZR c) (IZR d) =
  IZR (cell_units len a b c d) / 480.
Proof.
  intros [-> | [-> | [-> | ->]]]; unfold cell_latitude, cell_units, half_height;
    exact_arith; rewrite ?plus_IZR, ?minus_IZR, ?mult_IZR; lra.
Qed.

Lemma cell_longitude_units (len : nat) (a b c d : Z) :
  (len = 2 \/ len = 4 \/ len = 6 \/ len = 8)%nat ->
  cell_longitude len (IZR a) (IZR b) (IZR c) (IZR d) =
  IZR (cell_units len a b c d) / 240.
Proof.
  intros [-> | [-> | [-> | ->]]]; unfold cell_longitude, cell_units, half_width;
    exact_arith; rewrite ?plus_IZR, ?minus_IZR, ?mult_IZR; lra.
Qed.

Lemma toLatLon_units (grid : string) :
  invalid_format grid = false ->
  toLatLon grid =
  Ok {| latitude := IZR (latitude_units grid) / 480;
        longitude := IZR (longitude_units grid) / 240 |}.
Proof.
  intros V. rewrite (toLatLon_center grid V).
  destruct (valid_offsets grid V) as [Hlen _].
  unfold center_latitude, center_longitude, latitude_units, longitude_units,
    digit_of.
  change (@of_int R double) with IZR.
  now rewrite cell_latitude_units, cell_longitude_units.
Qed.

(** The units of a Maidenhead locator lie within the globe. *)
Lemma maidenhead_units (grid : string) :
  maidenhead grid = true ->
  (-43200 < latitude_units grid < 43200)%Z /\
  (-43200 < longitude_units grid < 43200)%Z.
Proof.
  intros M. destruct (maidenhead_offsets grid M) as [V [F1 [F2 S]]].
  destruct (valid_offsets grid V) as [Hlen [[A1 A2] [D34 [A56 D78]]]].
  unfold latitude_units, longitude_units, cell_units.
  destruct Hlen as [E|[E|[E|E]]]; rewrite E in *.
  - lia.
  - destruct D34; lia.
  - destruct D34, A56, S; lia.
  - destruct D34, A56, S, D78; lia.
Qed.

Local Open Scope Z_scope.

(** Two accepted locators of one length whose characters have the same
    offsets are the same after upper-casing. *)
Lemma upper_eq_of_offsets (g1 g2 : string) :
  invalid_format g1 = false -> invalid_format g2 = false ->
  String.length g1 = String.length g2 ->
  char_offset g1 1 "A" = char_offset g2 1 "A" ->
  char_offset g1 2 "A" = char_offset g2 2 "A" ->
  ((4 <= String.length g1)%nat ->
   char_offset g1 3 "0" = char_offset g2 3 "0" /\
   char_offset g1 4 "0" = char_offset g2 4 "0") ->
  ((6 <= String.length g1)%nat ->
   char_offset g1 5 "A" = char_offset g2 5 "A" /\
   char_offset g1 6 "A" = char_offset g2 6 "A") ->
  (String.length g1 = 8%nat ->
   char_offset g1 7 "0" = char_offset g2 7 "0" /\
   char_offset g1 8 "0" = char_offset g2 8 "0") ->
  transform toupper g1 = transform toupper g2.
Proof.
  assert (I : forall (c c' : ascii) (base : ascii),
             code c - code base = code c' - code base -> c = c').
  { intros c c' base H. apply code_inj. lia. }
  intros V1 V2 Hlen.
  destruct g1 as [|a1 [|b1 [|c1 [|d1 [|e1 [|f1 [|g1 [|h1 [|i1 s1]]]]]]]]];
    try discriminate V1;
    destruct g2 as [|a2 [|b2 [|c2 [|d2 [|e2 [|f2 [|g2 [|h2 [|i2 s2]]]]]]]]];
    try discriminate V2; try discriminate Hlen;
    unfold char_offset; cbn [String.length pred transform char_at String.get];
    intros E1 E2 E34 E56 E78.
  - now rewrite (I _ _ _ E1), (I _ _ _ E2).
  - destruct E34 as [E3 E4]; [lia|].
    now rewrite (I _ _ _ E1), (I _ _ _ E2), (I _ _ _ E3), (I _ _ _ E4).
  - destruct E34 as [E3 E4]; [lia|]. destruct E56 as [E5 E6]; [lia|].
    now rewrite (I _ _ _ E1), (I _ _ _ E2), (I _ _ _ E3), (I _ _ _ E4),
      (I _ _ _ E5), (I _ _ _ E6).
  - destruct E34 as [E3 E4]; [lia|]. destruct E56 as [E5 E6]; [lia|].
    destruct E78 as [E7 E8]; [reflexivity|].
    now rewrite (I _ _ _ E1), (I _ _ _ E2), (I _ _ _ E3), (I _ _ _ E4),
      (I _ _ _ E5), (I _ _ _ E6), (I _ _ _ E7), (I _ _ _ E8).
Qed.

(** The units determine the length and the offsets, when the subsquare
    letters stay below [Y]. *)
Lemma cell_units_inj (len len' : nat) (a b c d a' b' c' d' : Z) :
  (len = 2 \/ len = 4 \/ len = 6 \/ len = 8)%nat ->
  (len' = 2 \/ len' = 4 \/ len' = 6 \/ len' = 8)%nat ->
  ((4 <= len)%nat -> 0 <= b <= 9) -> ((4 <= len')%nat -> 0 <= b' <= 9) ->
  ((6 <= len)%nat -> 0 <= c <= 23) -> ((6 <= len')%nat -> 0 <= c' <= 23) ->
  (len = 8%nat -> 0 <= d <= 9) -> (len' = 8%nat -> 0 <= d' <= 9) ->
  cell_units len a b c d = cell_units len' a' b' c' d' ->
  len = len' /\ a = a' /\
  ((4 <= len)%nat -> b = b') /\ ((6 <= len)%nat -> c = c') /\
  (len = 8%nat -> d = d').
Proof.
  intros [-> | [-> | [-> | ->]]] [-> | [-> | [-> | ->]]];
    unfold cell_units; intros; lia.
Qed.

(** Maidenhead locators with the same units are the same locator. *)
Lemma units_injective (g1 g2 : string) :
  maidenhead g1 = true -> maidenhead g2 = true ->
  latitude_units g1 = latitude_units g2 ->
  longitude_units g1 = longitude_units g2 ->
  transform toupper g1 = transform toupper g2.
Proof.
  intros M1 M2 Ulat Ulon.
  destruct (maidenhead_offsets g1 M1) as [V1 [_ [_ S1]]].
  destruct (maidenhead_offsets g2 M2) as [V2 [_ [_ S2]]].
  destruct (valid_offsets g1 V1) as [L1 [_ [D1 [A1 X1]]]].
  destruct (valid_offsets g2 V2) as [L2 [_ [D2 [A2 X2]]]].
  unfold latitude_units in Ulat. unfold longitude_units in Ulon.
  apply cell_units_inj in Ulat; try assumption;
    try (intros H; try specialize (D1 H); try specialize (D2 H);
         try specialize (A1 H); try specialize (A2 H);
         try specialize (S1 H); try specialize (S2 H);
         try specialize (X1 H); try specialize (X2 H); lia).
  apply cell_units_inj in Ulon; try assumption;
    try (intros H; try specialize (D1 H); try specialize (D2 H);
         try specialize (A1 H); try specialize (A2 H);
         try specialize (S1 H); try specialize (S2 H);
         try specialize (X1 H); try specialize (X2 H); lia).
  destruct Ulat as [Hlen [E2 [E4 [E6 E8]]]].
  destruct Ulon as [_ [E1 [E3 [E5 E7]]]].
  apply upper_eq_of_offsets; auto.
Qed.

Local Open Scope R_scope.

(** Half the height of a cell in units of 1/480 degree (half its width in
    units of 1/240 degree). *)
Lemma half_height_units (len : nat) :
  (len = 2 \/ len = 4 \/ len = 6)%nat ->
  @half_height R double len =
    IZR (match len with 2%nat => 2400 | 4%nat => 240 | _ => 10 end) / 480 /\
  @half_width R double len =
    IZR (match len with 2%nat => 2400 | 4%nat => 240 | _ => 10 end) / 240.
Proof.
  intros [-> | [-> | ->]]; unfold half_height, half_width; exact_arith;
    split; lra.
Qed.

(** One more pair of characters moves the center by less than half a
    cell, in units. *)
Lemma refined_units (prefix : string) (c1 c2 : ascii) :
  let grid := (prefix ++ String c1 (String c2 ""))%string in
  let half := match String.length prefix with
              | 2%nat => 2400 | 4%nat => 240 | _ => 10
              end%Z in
  invalid_format prefix = false -> invalid_format grid = false ->
  (String.length prefix = 4%nat ->
   (code (toupper c1) <= code "X" /\ code (toupper c2) <= code "X")%Z) ->
  (String.length prefix = 2 \/ String.length prefix = 4 \/
   String.length prefix = 6)%nat /\
  (- half < latitude_units grid - latitude_units prefix < half)%Z /\
  (- half < longitude_units grid - longitude_units prefix < half)%Z.
Proof.
  intros grid half Vp Vg HX. subst grid half.
  destruct (valid_offsets _ Vg) as [_ [_ [D34 [A56 D78]]]].
  revert D34 A56 D78 HX.
  destruct prefix as [|a [|b [|c [|d [|e [|f [|g [|h [|i s]]]]]]]]];
    try discriminate Vp; try discriminate Vg;
    unfold latitude_units, longitude_units, char_offset, cell_units;
    cbn [append String.length pred transform char_at String.get];
    intros D34 A56 D78 HX.
  - destruct D34; [lia|]. lia.
  - destruct A56; [lia|]. destruct HX; [reflexivity|].
    change (code "X") with 88%Z in *. change (code "A") with 65%Z in *. lia.
  - destruct D78; [reflexivity|]. lia.
Qed.

End Units.

(** ** The doubles of the decoder against the exact centers *)

Module Accuracy.

Import Floats Binary64 Binary64Facts Units.
Local Open Scope string_scope.

(** Every cell of every length, by evaluation: 26 fields, then 10 squares,
    26 subsquares and 10 extended squares where the length has them. *)
Lemma accurate_cells :
  forallb (fun len =>
    forallb (fun a => forallb (fun b => forallb (fun c => forallb (fun d =>
      accurate_cell len a b c d)
      (tier_offsets (len =? 8)%nat digit_offsets))
      (tier_offsets (6 <=? len)%nat letter_offsets))
      (tier_offsets (4 <=? len)%nat digit_offsets))
      letter_offsets)
    [2; 4; 6; 8]%nat = true.
Proof. vm_compute. reflexivity. Qed.

Local Open Scope R_scope.

Lemma IZR_signed (s : bool) (m : positive) :
  IZR (if s then Zneg m else Zpos m) = sign_of s * IZR (Zpos m).
Proof.
  destruct s; unfold sign_of.
  - change (Zneg m) with (- Zpos m)%Z. rewrite opp_IZR. ring.
  - ring.
Qed.

Lemma Rabs_quotient (a b : Z) :
  (0 < b)%Z -> Rabs (IZR a / IZR b) = IZR (Z.abs a) / IZR b.
Proof.
  intros Hb. apply IZR_lt in Hb. unfold Rdiv.
  rewrite Rabs_mult, Rabs_Zabs, (Rabs_pos_eq (/ IZR b)); [reflexivity|].
  left. now apply Rinv_0_lt_compat.
Qed.

(** [error_over] is the distance, as a fraction. *)
Lemma error_over_spec (x : float) (units den : Z) :
  (0 < den)%Z ->
  (0 < snd (error_over x units den))%Z /\
  Rabs (to_real x - IZR units / IZR den) =
  IZR (fst (error_over x units den)) / IZR (snd (error_over x units den)).
Proof.
  intros Hden. pose proof (IZR_lt _ _ Hden) as Rden.
  unfold error_over, to_real.
  destruct (Prim2SF x) as [s|s| |s m e]; cbn [SF2R fst snd];
    try (split; [exact Hden|];
         replace (0 - IZR units / IZR den) with (IZR (- units) / IZR den)
           by (rewrite opp_IZR; field; lra);
         rewrite Rabs_quotient, Z.abs_opp by exact Hden; reflexivity).
  rewrite <- IZR_signed. set (n := if s then Zneg m else Zpos m).
  destruct e as [|p|p]; cbn [fst snd].
  - split; [exact Hden|]. cbn [powerRZ Z.shiftl]. rewrite Rmult_1_r.
    replace (IZR n - IZR units / IZR den) with (IZR (den * n - units) / IZR den)
      by (rewrite minus_IZR, mult_IZR; field; lra).
    now rewrite Rabs_quotient.
  - split; [exact Hden|].
    rewrite powerRZ_2_IZR, Z.shiftl_mul_pow2 by lia.
    replace (IZR n * IZR (2 ^ Z.pos p) - IZR units / IZR den)
      with (IZR (den * (n * 2 ^ Z.pos p) - units) / IZR den)
      by (rewrite minus_IZR, !mult_IZR; field; lra).
    now rewrite Rabs_quotient.
  - rewrite powerRZ_2_neg, !Z.shiftl_mul_pow2 by lia.
    assert (HP : (0 < 2 ^ Z.pos p)%Z) by (apply Z.pow_pos_nonneg; lia).
    pose proof (IZR_lt _ _ HP) as RP.
    split; [lia|].
    replace (IZR n * / IZR (2 ^ Z.pos p) - IZR units / IZR den)
      with (IZR (den * n - units * 2 ^ Z.pos p) / IZR (den * 2 ^ Z.pos p))
      by (rewrite minus_IZR, !mult_IZR; field; lra).
    rewrite Rabs_quotient by lia. reflexivity.
Qed.

Lemma near_spec (x : float) (units den : Z) (exact : bool) :
  (0 < den)%Z -> near x units den exact = true ->
  Rabs (to_real x - IZR units / IZR den) <= / IZR (2 ^ 44) /\
  (exact = true -> to_real x = IZR units / IZR den).
Proof.
  intros Hden. unfold near.
  destruct (error_over_spec x units den Hden) as [Hs E].
  destruct (error_over x units den) as [num scale]. cbn [fst snd] in Hs, E.
  pose proof (IZR_lt _ _ Hs) as Rs. rewrite E.
  assert (T : 0 < IZR (2 ^ 44)) by (apply IZR_lt; reflexivity).
  destruct exact; intros H.
  - apply Z.eqb_eq in H. subst num.
    unfold Rdiv in *. rewrite Rmult_0_l in *. split.
    + left. now apply Rinv_0_lt_compat.
    + intros _. apply Rminus_diag_uniq.
      destruct (Req_dec (to_real x - IZR units * / IZR den) 0) as [Z|N];
        [exact Z|]. apply Rabs_no_R0 in N. contradiction.
  - split; [|discriminate].
    apply Z.leb_le in H. rewrite Z.shiftl_mul_pow2 in H by lia.
    apply IZR_le in H. rewrite mult_IZR in H.
    apply Rmult_le_reg_r with (r := IZR scale * IZR (2 ^ 44)).
    + apply Rmult_lt_0_compat; assumption.
    + replace (IZR num / IZR scale * (IZR scale * IZR (2 ^ 44)))
        with (IZR num * IZR (2 ^ 44)) by (field; lra).
      replace (/ IZR (2 ^ 44) * (IZR scale * IZR (2 ^ 44)))
        with (IZR scale) by (field; lra).
      exact H.
Qed.

Lemma accurate_cell_range (len : nat) (a b c d : Z * float) :
  In len [2; 4; 6; 8]%nat ->
  In a letter_offsets ->
  In b (tier_offsets (4 <=? len)%nat digit_offsets) ->
  In c (tier_offsets (6 <=? len)%nat letter_offsets) ->
  In d (tier_offsets (len =? 8)%nat digit_offsets) ->
  accurate_cell len a b c d = true.
Proof.
  intros Hl Ha Hb Hc Hd.
  exact (proj1 (forallb_forall _ _)
          (proj1 (forallb_forall _ _)
            (proj1 (forallb_forall _ _)
              (proj1 (forallb_forall _ _)
                (proj1 (forallb_forall _ _) accurate_cells len Hl)
                a Ha) b Hb) c Hc) d Hd).
Qed.

Lemma in_offsets (n : nat) (z : Z) :
  (0 <= z < Z.of_nat n)%Z ->
  In (z, of_Z z) (map (fun k => (Z.of_nat k, of_Z (Z.of_nat k))) (seq 0 n)).
Proof.
  intros Hz. apply in_map_iff. exists (Z.to_nat z).
  split; [now rewrite Z2Nat.id by lia | apply in_seq; lia].
Qed.

(** The doubles of an accepted locator against its units. *)
Lemma center_near_units (grid : string) :
  invalid_format grid = false ->
  near (@center_latitude float double grid) (latitude_units grid) 480
       (String.length grid <=? 4)%nat = true /\
  near (@center_longitude float double grid) (longitude_units grid) 240
       (String.length grid <=? 4)%nat = true.
Proof.
  intros V.
  destruct (valid_offsets grid V) as [Hlen [[A1 A2] [D34 [A56 D78]]]].
  unfold center_latitude, center_longitude, latitude_units, longitude_units,
    digit_of.
  rewrite cell_latitude_lat64, cell_longitude_lon64.
  change (@of_int float double) with of_Z.
  set (o1 := char_offset grid 1 "A") in *. set (o2 := char_offset grid 2 "A") in *.
  set (o3 := char_offset grid 3 "0") in *. set (o4 := char_offset grid 4 "0") in *.
  set (o5 := char_offset grid 5 "A") in *. set (o6 := char_offset grid 6 "A") in *.
  set (o7 := char_offset grid 7 "0") in *. set (o8 := char_offset grid 8 "0") in *.
  assert (L : forall z, (0 <= z <= 25)%Z -> In (z, of_Z z) letter_offsets)
    by (intros z Hz; apply in_offsets; lia).
  assert (G : forall z, (0 <= z <= 9)%Z -> In (z, of_Z z) digit_offsets)
    by (intros z Hz; apply in_offsets; lia).
  assert (Z0 : In (0%Z, of_Z 0) [(0%Z, of_Z 0)]) by (left; reflexivity).
  assert (S : forall a b c d a' b' c' d',
             accurate_cell (String.length grid) a b c d = true ->
             accurate_cell (String.length grid) a' b' c' d' = true ->
             near (lat64 (String.length grid) (snd a) (snd b) (snd c) (snd d))
               (cell_units (String.length grid) (fst a) (fst b) (fst c) (fst d))
               480 (String.length grid <=? 4)%nat = true /\
             near (lon64 (String.length grid) (snd a') (snd b') (snd c') (snd d'))
               (cell_units (String.length grid) (fst a') (fst b') (fst c') (fst d'))
               240 (String.length grid <=? 4)%nat = true).
  { intros a b c d a' b' c' d' H H'. unfold accurate_cell in H, H'.
    apply andb_prop in H, H'. destruct H as [H _], H' as [_ H']. auto. }
  destruct Hlen as [E|[E|[E|E]]]; rewrite E in *.
  - apply (S (o2, of_Z o2) (0%Z, of_Z 0) (0%Z, of_Z 0) (0%Z, of_Z 0)
             (o1, of_Z o1) (0%Z, of_Z 0) (0%Z, of_Z 0) (0%Z, of_Z 0));
      apply accurate_cell_range; solve [cbn [In]; auto | apply L; lia | exact Z0].
  - destruct D34; [lia|].
    apply (S (o2, of_Z o2) (o4, of_Z o4) (0%Z, of_Z 0) (0%Z, of_Z 0)
             (o1, of_Z o1) (o3, of_Z o3) (0%Z, of_Z 0) (0%Z, of_Z 0));
      apply accurate_cell_range;
      solve [cbn [In]; auto | apply L; lia | apply G; lia | exact Z0].
  - destruct D34; [lia|]. destruct A56; [lia|].
    apply (S (o2, of_Z o2) (o4, of_Z o4) (o6, of_Z o6) (0%Z, of_Z 0)
             (o1, of_Z o1) (o3, of_Z o3) (o5, of_Z o5) (0%Z, of_Z 0));
      apply accurate_cell_range;
      solve [cbn [In]; auto | apply L; lia | apply G; lia | exact Z0].
  - destruct D34; [lia|]. destruct A56; [lia|]. destruct D78; [reflexivity|].
    apply (S (o2, of_Z o2) (o4, of_Z o4) (o6, of_Z o6) (o8, of_Z o8)
             (o1, of_Z o1) (o3, of_Z o3) (o5, of_Z o5) (o7, of_Z o7));
      apply accurate_cell_range;
      solve [cbn [In]; auto | apply L; lia | apply G; lia | exact Z0].
Qed.

(** The doubles of an accepted locator, as reals, against its units. *)
Lemma center_accuracy (grid : string) :
  invalid_format grid = false ->
  Rabs (to_real (@center_latitude float double grid)
        - IZR (latitude_units grid) / 480) <= / IZR (2 ^ 44) /\
  Rabs (to_real (@center_longitude float double grid)
        - IZR (longitude_units grid) / 240) <= / IZR (2 ^ 44) /\
  ((String.length grid <= 4)%nat ->
   to_real (@center_latitude float double grid) =
     IZR (latitude_units grid) / 480 /\
   to_real (@center_longitude float double grid) =
     IZR (longitude_units grid) / 240).
Proof.
  intros V. destruct (center_near_units grid V) as [Nlat Nlon].
  apply near_spec in Nlat, Nlon; try lia.
  destruct Nlat as [Blat Elat], Nlon as [Blon Elon].
  split; [exact Blat|]. split; [exact Blon|].
  intros H. apply Nat.leb_le in H. auto.
Qed.

End Accuracy.

(** ** What the decoder guarantees *)

Module Decoding.

Import Units.
Local Open Scope string_scope.
Local Open Scope R_scope.

Lemma tolerance : / IZR (2 ^ 44) < / 960.
Proof. change (2 ^ 44)%Z with 17592186044416%Z. lra. Qed.

(** X8.  A locator of the Maidenhead system proper (field letters up to
    R, subsquare letters up to X) decodes to a point strictly inside the
    globe: latitude in (-90, 90) and longitude in (-180, 180), in exact
    arithmetic and for the doubles of the program. *)
Theorem maidenhead_within_the_globe (grid : string) :
  maidenhead grid = true ->
  (exists coord : Coordinate R,
     toLatLon grid = Ok coord /\
     -90 < latitude coord < 90 /\ -180 < longitude coord < 180) /\
  (exists coord : Coordinate PrimFloat.float,
     toLatLon grid = Ok coord /\
     -90 < Binary64.to_real (latitude coord) < 90 /\
     -180 < Binary64.to_real (longitude coord) < 180).
Proof.
  intros M. destruct (maidenhead_offsets grid M) as [V _].
  destruct (maidenhead_units grid M) as [[L1 L2] [G1 G2]].
  assert (L1' : (-43199 <= latitude_units grid)%Z) by lia.
  assert (L2' : (latitude_units grid <= 43199)%Z) by lia.
  assert (G1' : (-43199 <= longitude_units grid)%Z) by lia.
  assert (G2' : (longitude_units grid <= 43199)%Z) by lia.
  apply IZR_le in L1', L2', G1', G2'.
  split.
  - eexists. split; [now apply toLatLon_units|].
    cbn [latitude longitude]. repeat split; lra.
  - eexists. split; [now apply toLatLon_center|].
    cbn [latitude longitude].
    destruct (Accuracy.center_accuracy grid V) as [Blat [Blon _]].
    apply Binary64Facts.Rabs_le_inv in Blat, Blon.
    pose proof tolerance. repeat split; lra.
Qed.

Lemma maidenhead_within_the_globe_witness :
  (exists coord : Coordinate R,
     toLatLon "FN42hn" = Ok coord /\
     -90 < latitude coord < 90 /\ -180 < longitude coord < 180) /\
  (exists coord : Coordinate PrimFloat.float,
     toLatLon "FN42hn" = Ok coord /\
     -90 < Binary64.to_real (latitude coord) < 90 /\
     -180 < Binary64.to_real (longitude coord) < 180).
Proof. apply (maidenhead_within_the_globe "FN42hn"). reflexivity. Defined.

(** X9.  On the locators of the Maidenhead system proper decoding is
    injective up to case, in exact arithmetic and on doubles: two of them
    with the same coordinates are the same after upper-casing.  Beyond X
    it is not: AA00YA and AA10AA are one point. *)
Theorem toLatLon_injective :
  (forall g1 g2 : string,
     maidenhead g1 = true -> maidenhead g2 = true ->
     @toLatLon R Exact.double g1 = toLatLon g2 ->
     transform toupper g1 = transform toupper g2) /\
  (forall g1 g2 : string,
     maidenhead g1 = true -> maidenhead g2 = true ->
     @toLatLon PrimFloat.float Binary64.double g1 = toLatLon g2 ->
     transform toupper g1 = transform toupper g2) /\
  @toLatLon R Exact.double "AA00YA" = toLatLon "AA10AA" /\
  @toLatLon PrimFloat.float Binary64.double "AA00YA" = toLatLon "AA10AA".
Proof.
  split; [|split; [|split]].
  - intros g1 g2 M1 M2 E.
    destruct (maidenhead_offsets g1 M1) as [V1 _].
    destruct (maidenhead_offsets g2 M2) as [V2 _].
    rewrite (toLatLon_units g1 V1), (toLatLon_units g2 V2) in E.
    injection E as Elat Elon.
    apply units_injective; try assumption; apply eq_IZR; lra.
  - intros g1 g2 M1 M2 E.
    destruct (maidenhead_offsets g1 M1) as [V1 _].
    destruct (maidenhead_offsets g2 M2) as [V2 _].
    rewrite (toLatLon_center g1 V1), (toLatLon_center g2 V2) in E.
    injection E as Elat Elon.
    destruct (Accuracy.center_accuracy g1 V1) as [A1 [B1 _]].
    destruct (Accuracy.center_accuracy g2 V2) as [A2 [B2 _]].
    rewrite Elat in A1. rewrite Elon in B1.
    apply Binary64Facts.Rabs_le_inv in A1, A2, B1, B2.
    pose proof tolerance as T.
    assert (Ulat : latitude_units g1 = latitude_units g2).
    { assert (L : IZR (-1) < IZR (latitude_units g1 - latitude_units g2))
        by (rewrite minus_IZR; lra).
      assert (U : IZR (latitude_units g1 - latitude_units g2) < IZR 1)
        by (rewrite minus_IZR; lra).
      apply lt_IZR in L, U. lia. }
    assert (Ulon : longitude_units g1 = longitude_units g2).
    { assert (L : IZR (-1) < IZR (longitude_units g1 - longitude_units g2))
        by (rewrite minus_IZR; lra).
      assert (U : IZR (longitude_units g1 - longitude_units g2) < IZR 1)
        by (rewrite minus_IZR; lra).
      apply lt_IZR in L, U. lia. }
    now apply units_injective.
  - rewrite !toLatLon_units by reflexivity. reflexivity.
  - vm_compute. reflexivity.
Qed.

Lemma toLatLon_injective_witness :
  transform toupper "fn42HN" = transform toupper "FN42hn".
Proof.
  apply (proj1 (proj2 toLatLon_injective) "fn42HN" "FN42hn");
    vm_compute; reflexivity.
Defined.

(** X10.  One more pair of characters refines the cell: the center of a
    valid locator lies strictly inside the cell of the valid locator it
    extends, provided that added letters are at most X.  This holds of the
    doubles the decoder returns, and in exact arithmetic.  With Y the
    center leaves the cell: AA00YA lies east of AA00. *)
Theorem toLatLon_refines_prefix :
  (forall (prefix : string) (c1 c2 : ascii),
     let grid := (prefix ++ String c1 (String c2 ""))%string in
     invalid_format prefix = false -> invalid_format grid = false ->
     (String.length prefix = 4%nat ->
      (code (toupper c1) <= code "X" /\ code (toupper c2) <= code "X")%Z) ->
     exists coarse fine : Coordinate PrimFloat.float,
       toLatLon prefix = Ok coarse /\ toLatLon grid = Ok fine /\
       Rabs (Binary64.to_real (latitude fine)
             - Binary64.to_real (latitude coarse))
         < half_height (String.length prefix) /\
       Rabs (Binary64.to_real (longitude fine)
             - Binary64.to_real (longitude coarse))
         < half_width (String.length prefix)) /\
  (forall (prefix : string) (c1 c2 : ascii),
     let grid := (prefix ++ String c1 (String c2 ""))%string in
     invalid_format prefix = false -> invalid_format grid = false ->
     (String.length prefix = 4%nat ->
      (code (toupper c1) <= code "X" /\ code (toupper c2) <= code "X")%Z) ->
     exists coarse fine : Coordinate R,
       toLatLon prefix = Ok coarse /\ toLatLon grid = Ok fine /\
       Rabs (latitude fine - latitude coarse)
         < half_height (String.length prefix) /\
       Rabs (longitude fine - longitude coarse)
         < half_width (String.length prefix)) /\
  (exists coarse fine : Coordinate PrimFloat.float,
     toLatLon "AA00" = Ok coarse /\ toLatLon "AA00YA" = Ok fine /\
     (longitude coarse + #1 <? longitude fine)%dbl = true) /\
  (exists coarse fine : Coordinate R,
     toLatLon "AA00" = Ok coarse /\ toLatLon "AA00YA" = Ok fine /\
     longitude coarse + half_width 4 < longitude fine).
Proof.
  split; [|split; [|split]].
  - intros prefix c1 c2 grid Vp Vg HX.
    destruct (refined_units prefix c1 c2 Vp Vg HX) as [Hlen [[L1 L2] [G1 G2]]].
    fold grid in L1, L2, G1, G2.
    destruct (half_height_units _ Hlen) as [-> ->].
    set (half := match String.length prefix with
                 | 2%nat => 2400 | 4%nat => 240 | _ => 10
                 end%Z) in *.
    destruct (Accuracy.center_accuracy prefix Vp) as [Ac [Bc _]].
    destruct (Accuracy.center_accuracy grid Vg) as [Af [Bf _]].
    do 2 eexists.
    split; [now apply toLatLon_center|]. split; [now apply toLatLon_center|].
    cbn [latitude longitude].
    apply Binary64Facts.Rabs_le_inv in Ac, Bc, Af, Bf.
    pose proof tolerance as T.
    assert (L1' : (- half + 1 <= latitude_units grid - latitude_units prefix)%Z)
      by lia.
    assert (L2' : (latitude_units grid - latitude_units prefix <= half - 1)%Z)
      by lia.
    assert (G1' : (- half + 1 <= longitude_units grid - longitude_units prefix)%Z)
      by lia.
    assert (G2' : (longitude_units grid - longitude_units prefix <= half - 1)%Z)
      by lia.
    apply IZR_le in L1', L2', G1', G2'.
    rewrite minus_IZR in L2', G2'.
    rewrite plus_IZR, opp_IZR, minus_IZR in L1', G1'.
    rewrite minus_IZR in L2', G2'.
    split; apply Rabs_def1; lra.
  - intros prefix c1 c2 grid Vp Vg HX.
    destruct (refined_units prefix c1 c2 Vp Vg HX) as [Hlen [[L1 L2] [G1 G2]]].
    fold grid in L1, L2, G1, G2.
    destruct (half_height_units _ Hlen) as [-> ->].
    set (half := match String.length prefix with
                 | 2%nat => 2400 | 4%nat => 240 | _ => 10
                 end%Z) in *.
    exists {| latitude := IZR (latitude_units prefix) / 480;
              longitude := IZR (longitude_units prefix) / 240 |},
           {| latitude := IZR (latitude_units grid) / 480;
              longitude := IZR (longitude_units grid) / 240 |}.
    split; [now apply toLatLon_units|]. split; [now apply toLatLon_units|].
    cbn [latitude longitude].
    apply IZR_lt in L1, L2, G1, G2.
    rewrite minus_IZR in L2, G2. rewrite opp_IZR, minus_IZR in L1, G1.
    split; apply Rabs_def1; lra.
  - do 2 eexists. split; [vm_compute; reflexivity|].
    split; [vm_compute; reflexivity|]. vm_compute. reflexivity.
  - do 2 eexists. split; [now apply toLatLon_units|].
    split; [now apply toLatLon_units|].
    cbn [latitude longitude]. unfold half_width. exact_arith.
    change (longitude_units "AA00") with (-42960)%Z.
    change (longitude_units "AA00YA") with (-42710)%Z. lra.
Qed.

Lemma toLatLon_refines_prefix_witness :
  exists coarse fine : Coordinate PrimFloat.float,
    toLatLon "FN42" = Ok coarse /\ toLatLon "FN42hn" = Ok fine /\
    Rabs (Binary64.to_real (latitude fine)
          - Binary64.to_real (latitude coarse)) < half_height 4 /\
    Rabs (Binary64.to_real (longitude fine)
          - Binary64.to_real (longitude coarse)) < half_width 4.
Proof.
  apply (proj1 toLatLon_refines_prefix "FN42" "h"%char "n"%char);
    [reflexivity | reflexivity |].
  intros _. split; vm_compute; discriminate.
Defined.

(** X11.  The doubles the decoder returns are within [2^-44] degree of
    the exact center of the cell on both axes, for every accepted locator;
    for locators of 2 and 4 characters they are the exact center. *)
Theorem toLatLon_accuracy (grid : string) :
  invalid_format grid = false ->
  exists (c64 : Coordinate PrimFloat.float) (c : Coordinate R),
    toLatLon grid = Ok c64 /\ toLatLon grid = Ok c /\
    Rabs (Binary64.to_real (latitude c64) - latitude c) <= / IZR (2 ^ 44) /\
    Rabs (Binary64.to_real (longitude c64) - longitude c) <= / IZR (2 ^ 44) /\
    ((String.length grid <= 4)%nat ->
     Binary64.to_real (latitude c64) = latitude c /\
     Binary64.to_real (longitude c64) = longitude c).
Proof.
  intros V. destruct (Accuracy.center_accuracy grid V) as [Blat [Blon E]].
  do 2 eexists.
  split; [now apply toLatLon_center|].
  split; [now apply toLatLon_units|].
  cbn [latitude longitude]. auto.
Qed.

Lemma toLatLon_accuracy_witness :
  exists (c64 : Coordinate PrimFloat.float) (c : Coordinate R),
    toLatLon "FN42hn17" = Ok c64 /\ toLatLon "FN42hn17" = Ok c /\
    Rabs (Binary64.to_real (latitude c64) - latitude c) <= / IZR (2 ^ 44) /\
    Rabs (Binary64.to_real (longitude c64) - longitude c) <= / IZR (2 ^ 44) /\
    ((8 <= 4)%nat ->
     Binary64.to_real (latitude c64) = latitude c /\
     Binary64.to_real (longitude c64) = longitude c).
Proof. apply (toLatLon_accuracy "FN42hn17"). reflexivity. Defined.

End Decoding.

(** ** Geodesy in exact arithmetic *)

Module Geodesy.

Local Open Scope R_scope.

(** *** Angles modulo 360 *)

Lemma Rfmod_congruent (x y : R) : exists k : Z, Rfmod x y = x + y * IZR k.
Proof.
  exists (- Rtrunc (x / y))%Z. unfold Rfmod. rewrite opp_IZR. ring.
Qed.

Lemma normalizeAngle_congruent (angle : R) :
  exists k : Z, normalizeAngle angle = angle + 360 * IZR k.
Proof.
  unfold normalizeAngle. exact_arith.
  replace (360 * / 1) with 360 by lra.
  destruct (Rfmod_congruent angle 360) as [k E]. rewrite E.
  destruct (Rltb (angle + 360 * IZR k) 0).
  - exists (k + 1)%Z. rewrite plus_IZR. ring.
  - exists k. reflexivity.
Qed.

(** One representative of each class in [[0, 360)]. *)
Lemma representative_unique (r r' : R) (k : Z) :
  0 <= r < 360 -> 0 <= r' < 360 -> r = r' + 360 * IZR k -> r = r'.
Proof.
  intros H H' E.
  assert (L : IZR (-1) < IZR k) by lra.
  assert (U : IZR k < IZR 1) by lra.
  apply lt_IZR in L, U. assert (k = 0%Z) by lia. subst k. lra.
Qed.

Lemma normalizeAngle_periodic (angle : R) (n : Z) :
  normalizeAngle (angle + 360 * IZR n) = normalizeAngle angle.
Proof.
  destruct (normalizeAngle_congruent (angle + 360 * IZR n)) as [k Ek].
  destruct (normalizeAngle_congruent angle) as [k' Ek'].
  apply (representative_unique _ _ (n + k - k')%Z);
    try apply normalizeAngle_range.
  rewrite minus_IZR, plus_IZR. lra.
Qed.

Lemma normalizeAngle_idempotent (angle : R) :
  normalizeAngle (normalizeAngle angle) = normalizeAngle angle.
Proof. apply normalizeAngle_small, normalizeAngle_range. Qed.

(** *** The central angle *)

Lemma Ratan2_quadrant (y x : R) :
  0 <= y -> 0 <= x -> 0 <= Ratan2 y x <= PI / 2.
Proof.
  intros Hy Hx. pose proof PI2_RGT_0 as HP. unfold Ratan2.
  destruct (Rlt_dec 0 x) as [Px|Nx].
  - destruct (atan_bound (y / x)) as [_ U]. split; [|lra].
    destruct (Req_dec y 0) as [->|Ny].
    + unfold Rdiv. rewrite Rmult_0_l, atan_0. lra.
    + left. rewrite <- atan_0. apply atan_increasing.
      apply Rdiv_lt_0_compat; lra.
  - destruct (Rlt_dec x 0) as [Qx|_]; [lra|].
    destruct (Rlt_dec 0 y) as [_|_]; [lra|].
    destruct (Rlt_dec y 0) as [Qy|_]; lra.
Qed.

Lemma central_angle_range (coord1 coord2 : Coordinate R) :
  0 <= central_angle coord1 coord2 <= PI.
Proof.
  unfold central_angle. exact_arith.
  destruct (haversine_unit_interval coord1 coord2) as [H0 H1].
  destruct (Ratan2_quadrant (sqrt (haversine coord1 coord2))
              (sqrt (1 * / 1 - haversine coord1 coord2))) as [A0 A1];
    try apply sqrt_pos.
  lra.
Qed.

Lemma radius_pos (unit : Unit) : 0 < @radius R double unit.
Proof.
  destruct unit; unfold radius, EARTH_RADIUS_KM, EARTH_RADIUS_MI,
    EARTH_RADIUS_NM; exact_arith; lra.
Qed.

Lemma calculateDistance_range (coord1 coord2 : Coordinate R) (unit : Unit) :
  0 <= calculateDistance coord1 coord2 unit <= radius unit * PI.
Proof.
  unfold calculateDistance. exact_arith.
  pose proof (radius_pos unit) as HR.
  destruct (central_angle_range coord1 coord2) as [C0 C1].
  split.
  - apply Rmult_le_pos; lra.
  - apply Rmult_le_compat_l; lra.
Qed.

(** The angle whose sine and cosine are given, in the first quadrant. *)
Lemma Ratan2_sin_cos (h : R) :
  0 <= h <= PI / 2 -> Ratan2 (sin h) (cos h) = h.
Proof.
  intros [H0 H1]. unfold Ratan2.
  destruct (Req_dec h (PI / 2)) as [->|N].
  - rewrite cos_PI2, sin_PI2.
    destruct (Rlt_dec 0 0) as [F|_]; [lra|].
    destruct (Rlt_dec 0 1) as [_|F]; [reflexivity | lra].
  - assert (Hc : 0 < cos h) by (apply cos_gt_0; lra).
    destruct (Rlt_dec 0 (cos h)) as [_|F]; [|contradiction].
    change (sin h / cos h) with (tan h). apply atan_tan. lra.
Qed.

(** When the Haversine intermediate is the squared sine of half an angle
    of at most 180 degrees, the central angle is that angle. *)
Lemma central_angle_of_half (coord1 coord2 : Coordinate R) (h : R) :
  0 <= h <= PI / 2 ->
  haversine coord1 coord2 = sin h * sin h ->
  central_angle coord1 coord2 = 2 * h.
Proof.
  intros Hh E. unfold central_angle. rewrite E. exact_arith.
  replace (1 * / 1 - sin h * sin h) with (cos h * cos h)
    by (pose proof (sin2_cos2 h) as S; unfold Rsqr in S; lra).
  rewrite !sqrt_square.
  - rewrite Ratan2_sin_cos by exact Hh. lra.
  - apply cos_ge_0; lra.
  - apply sin_ge_0; pose proof PI_RGT_0; lra.
Qed.

Lemma toRadians_abs (d : R) : toRadians (Rabs d) = Rabs (toRadians d).
Proof.
  unfold toRadians. exact_arith. pose proof PI_RGT_0 as HP.
  unfold Rdiv. rewrite !Rabs_mult.
  rewrite (Rabs_pos_eq PI) by lra.
  rewrite (Rabs_pos_eq (/ (180 * / 1))); [reflexivity|].
  left. apply Rinv_0_lt_compat. lra.
Qed.

Lemma sin_sqr_abs (x : R) : sin (Rabs x) * sin (Rabs x) = sin x * sin x.
Proof.
  unfold Rabs. destruct (Rcase_abs x); [rewrite sin_neg; ring | reflexivity].
Qed.

Lemma toRadians_half_range (d : R) :
  -180 <= d <= 180 -> 0 <= Rabs (toRadians d) / 2 <= PI / 2.
Proof.
  intros Hd. rewrite <- toRadians_abs.
  assert (Ha : 0 <= Rabs d <= 180).
  { split; [apply Rabs_pos | apply Rabs_le; lra]. }
  unfold toRadians. exact_arith. pose proof PI_RGT_0 as HP.
  replace (Rabs d * PI / (180 * / 1) / 2) with (PI / 2 * (Rabs d / 180)) by field.
  split.
  - apply Rmult_le_pos; lra.
  - rewrite <- (Rmult_1_r (PI / 2)) at 2. apply Rmult_le_compat_l; lra.
Qed.

Lemma half_abs (x : R) : Rabs x / 2 = Rabs (x / 2).
Proof.
  unfold Rdiv. rewrite Rabs_mult. f_equal. symmetry. apply Rabs_pos_eq.
  lra.
Qed.

Lemma toDegrees_PI : toDegrees PI = 180.
Proof. unfold toDegrees. exact_arith. pose proof PI_RGT_0. field. lra. Qed.

Lemma toDegrees_PI2 : toDegrees (PI / 2) = 90.
Proof. unfold toDegrees. exact_arith. pose proof PI_RGT_0. field. lra. Qed.

Lemma toDegrees_opp (x : R) : toDegrees (- x) = - toDegrees x.
Proof. unfold toDegrees. exact_arith. pose proof PI_RGT_0. field. lra. Qed.

Lemma toRadians_neg_range (d : R) : -180 < d < 0 -> - PI < toRadians d < 0.
Proof.
  intros Hd. replace d with (- - d) by ring. rewrite toRadians_opp.
  destruct (toRadians_range (- d)); lra.
Qed.

(** The compass points of the four cardinal bearings. *)
Lemma cardinal_directions :
  bearingToDirection 0 = Some "N"%string /\
  bearingToDirection 90 = Some "E"%string /\
  bearingToDirection 180 = Some "S"%string /\
  bearingToDirection 270 = Some "W"%string.
Proof.
  repeat split.
  - rewrite (bearingToDirection_round 0 0); [reflexivity | lra | lra |].
    unfold INT_MAX. lia.
  - rewrite (bearingToDirection_round 90 4); [reflexivity | lra | lra |].
    unfold INT_MAX. lia.
  - rewrite (bearingToDirection_round 180 8); [reflexivity | lra | lra |].
    unfold INT_MAX. lia.
  - rewrite (bearingToDirection_round 270 12); [reflexivity | lra | lra |].
    unfold INT_MAX. lia.
Qed.

Section Meridian.

Variables lat1 lat2 lon : R.
Hypothesis Hlat1 : -90 <= lat1 <= 90.
Hypothesis Hlat2 : -90 <= lat2 <= 90.

Let c1 : Coordinate R := {| latitude := lat1; longitude := lon |}.
Let c2 : Coordinate R := {| latitude := lat2; longitude := lon |}.

Lemma meridian_central_angle :
  central_angle c1 c2 = toRadians (Rabs (lat2 - lat1)).
Proof.
  rewrite toRadians_abs.
  replace (Rabs (toRadians (lat2 - lat1)))
    with (2 * (Rabs (toRadians (lat2 - lat1)) / 2)) by field.
  apply central_angle_of_half; [apply toRadians_half_range; lra|].
  unfold haversine, c1, c2. cbn [latitude longitude]. exact_arith.
  replace (lon - lon) with 0 by ring. rewrite toRadians_0.
  replace (0 / (2 * / 1)) with 0 by field. rewrite sin_0.
  replace (2 * / 1) with 2 by lra.
  rewrite half_abs, sin_sqr_abs. ring.
Qed.

Lemma meridian_bearing_y :
  cos (toRadians lat1) * sin (toRadians lat2) -
  sin (toRadians lat1) * cos (toRadians lat2) * cos (toRadians (lon - lon)) =
  sin (toRadians (lat2 - lat1)).
Proof.
  replace (lon - lon) with 0 by ring. rewrite toRadians_0, cos_0.
  rewrite toRadians_sub, sin_minus. ring.
Qed.

Lemma meridian_north : lat1 < lat2 < lat1 + 180 -> calculateBearing c1 c2 = 0.
Proof.
  intros H. unfold calculateBearing, c1, c2. cbn [latitude longitude].
  exact_arith. rewrite meridian_bearing_y.
  replace (lon - lon) with 0 by ring. rewrite toRadians_0, sin_0, Rmult_0_l.
  assert (Hr : 0 < toRadians (lat2 - lat1) < PI) by (apply toRadians_range; lra).
  assert (Hs : 0 < sin (toRadians (lat2 - lat1))) by (apply sin_gt_0; lra).
  unfold Ratan2. destruct (Rlt_dec 0 _) as [_|N]; [|contradiction].
  unfold Rdiv. rewrite Rmult_0_l, atan_0, toDegrees_0.
  apply normalizeAngle_small. lra.
Qed.

Lemma meridian_south : lat2 < lat1 < lat2 + 180 -> calculateBearing c1 c2 = 180.
Proof.
  intros H. unfold calculateBearing, c1, c2. cbn [latitude longitude].
  exact_arith. rewrite meridian_bearing_y.
  replace (lon - lon) with 0 by ring. rewrite toRadians_0, sin_0, Rmult_0_l.
  assert (Hr : - PI < toRadians (lat2 - lat1) < 0)
    by (apply toRadians_neg_range; lra).
  assert (Hs : sin (toRadians (lat2 - lat1)) < 0) by (apply sin_lt_0_var; lra).
  unfold Ratan2. destruct (Rlt_dec 0 _) as [P|_]; [lra|].
  destruct (Rlt_dec _ 0) as [_|N]; [|contradiction].
  destruct (Rle_dec 0 0) as [_|N]; [|lra].
  unfold Rdiv. rewrite Rmult_0_l, atan_0, Rplus_0_l, toDegrees_PI.
  apply normalizeAngle_small. lra.
Qed.

End Meridian.

Section Equator.

Variables lon1 lon2 : R.
Hypothesis Hlon : -180 <= lon2 - lon1 <= 180.

Let c1 : Coordinate R := {| latitude := 0; longitude := lon1 |}.
Let c2 : Coordinate R := {| latitude := 0; longitude := lon2 |}.

Lemma equator_central_angle :
  central_angle c1 c2 = toRadians (Rabs (lon2 - lon1)).
Proof.
  rewrite toRadians_abs.
  replace (Rabs (toRadians (lon2 - lon1)))
    with (2 * (Rabs (toRadians (lon2 - lon1)) / 2)) by field.
  apply central_angle_of_half; [apply toRadians_half_range; lra|].
  unfold haversine, c1, c2. cbn [latitude longitude]. exact_arith.
  replace (0 - 0) with 0 by ring. rewrite toRadians_0.
  replace (0 / (2 * / 1)) with 0 by field. rewrite sin_0, cos_0.
  replace (2 * / 1) with 2 by lra.
  rewrite half_abs, sin_sqr_abs. ring.
Qed.

Lemma equator_bearing_xy :
  calculateBearing c1 c2 =
  normalizeAngle (toDegrees (Ratan2 (sin (toRadians (lon2 - lon1))) 0)).
Proof.
  unfold calculateBearing, c1, c2. cbn [latitude longitude]. exact_arith.
  rewrite toRadians_0, sin_0, cos_0. do 2 f_equal. f_equal; ring.
Qed.

Lemma equator_east : 0 < lon2 - lon1 < 180 -> calculateBearing c1 c2 = 90.
Proof.
  intros H. rewrite equator_bearing_xy.
  assert (Hr : 0 < toRadians (lon2 - lon1) < PI) by (apply toRadians_range; lra).
  assert (Hs : 0 < sin (toRadians (lon2 - lon1))) by (apply sin_gt_0; lra).
  unfold Ratan2. destruct (Rlt_dec 0 0) as [F|_]; [lra|].
  destruct (Rlt_dec 0 _) as [_|N]; [|contradiction].
  rewrite toDegrees_PI2. apply normalizeAngle_small. lra.
Qed.

Lemma equator_west : -180 < lon2 - lon1 < 0 -> calculateBearing c1 c2 = 270.
Proof.
  intros H. rewrite equator_bearing_xy.
  assert (Hr : - PI < toRadians (lon2 - lon1) < 0)
    by (apply toRadians_neg_range; lra).
  assert (Hs : sin (toRadians (lon2 - lon1)) < 0) by (apply sin_lt_0_var; lra).
  unfold Ratan2. destruct (Rlt_dec 0 0) as [F|_]; [lra|].
  destruct (Rlt_dec 0 _) as [P|_]; [lra|].
  destruct (Rlt_dec _ 0) as [_|N]; [|contradiction].
  replace (- PI / 2) with (- (PI / 2)) by field.
  rewrite toDegrees_opp, toDegrees_PI2, normalizeAngle_neg by lra. lra.
Qed.

End Equator.

(** In exact arithmetic [normalizeAngle] picks the representative
    of an angle modulo 360 in [0, 360): the result differs from the angle
    by a whole number of turns, adding turns to the angle does not change
    it, and normalizing twice is normalizing once. *)
Theorem normalizeAngle_modulo_360 (angle : R) :
  0 <= normalizeAngle angle < 360 /\
  (exists k : Z, normalizeAngle angle = angle + 360 * IZR k) /\
  (forall n : Z, normalizeAngle (angle + 360 * IZR n) = normalizeAngle angle) /\
  normalizeAngle (normalizeAngle angle) = normalizeAngle angle.
Proof.
  split; [apply normalizeAngle_range|].
  split; [apply normalizeAngle_congruent|].
  split; [intros n; apply normalizeAngle_periodic|].
  apply normalizeAngle_idempotent.
Qed.

(** In exact arithmetic a distance is never negative and never more
    than half the circumference, [pi] times the radius of the unit; the
    central angle lies in [0, pi]. *)
Theorem calculateDistance_at_most_half_way
    (coord1 coord2 : Coordinate R) (unit : Unit) :
  0 <= central_angle coord1 coord2 <= PI /\
  0 <= calculateDistance coord1 coord2 unit <= radius unit * PI.
Proof.
  split; [apply central_angle_range | apply calculateDistance_range].
Qed.

(** Along a meridian, in exact arithmetic: between two points of
    one longitude the distance is the radius times the difference of the
    latitudes in radians; the bearing is 0 (N) toward the north and 180 (S)
    toward the south. *)
Theorem along_a_meridian (lat1 lat2 lon : R) (unit : Unit) :
  -90 <= lat1 <= 90 -> -90 <= lat2 <= 90 ->
  let coord1 := {| latitude := lat1; longitude := lon |} in
  let coord2 := {| latitude := lat2; longitude := lon |} in
  calculateDistance coord1 coord2 unit =
    radius unit * toRadians (Rabs (lat2 - lat1)) /\
  (lat1 < lat2 < lat1 + 180 ->
   calculateBearing coord1 coord2 = 0 /\
   bearingToDirection (calculateBearing coord1 coord2) = Some "N"%string) /\
  (lat2 < lat1 < lat2 + 180 ->
   calculateBearing coord1 coord2 = 180 /\
   bearingToDirection (calculateBearing coord1 coord2) = Some "S"%string).
Proof.
  intros H1 H2 coord1 coord2. subst coord1 coord2.
  destruct cardinal_directions as [DN [_ [DS _]]].
  split; [|split].
  - unfold calculateDistance. exact_arith.
    now rewrite (meridian_central_angle lat1 lat2 lon H1 H2).
  - intros H. rewrite (meridian_north lat1 lat2 lon H). auto.
  - intros H. rewrite (meridian_south lat1 lat2 lon H). auto.
Qed.

Lemma along_a_meridian_witness :
  let coord1 := {| latitude := 10; longitude := 20 |} in
  let coord2 := {| latitude := 40; longitude := 20 |} in
  calculateBearing coord1 coord2 = 0 /\
  bearingToDirection (calculateBearing coord1 coord2) = Some "N"%string.
Proof.
  apply (proj1 (proj2 (along_a_meridian 10 40 20 KILOMETERS
                         ltac:(lra) ltac:(lra)))).
  lra.
Defined.

(** Along the equator, in exact arithmetic: between two points of
    latitude 0 at most 180 degrees of longitude apart the distance is the
    radius times the difference of the longitudes in radians; the bearing
    is 90 (E) toward the east and 270 (W) toward the west. *)
Theorem along_the_equator (lon1 lon2 : R) (unit : Unit) :
  -180 <= lon2 - lon1 <= 180 ->
  let coord1 := {| latitude := 0; longitude := lon1 |} in
  let coord2 := {| latitude := 0; longitude := lon2 |} in
  calculateDistance coord1 coord2 unit =
    radius unit * toRadians (Rabs (lon2 - lon1)) /\
  (0 < lon2 - lon1 < 180 ->
   calculateBearing coord1 coord2 = 90 /\
   bearingToDirection (calculateBearing coord1 coord2) = Some "E"%string) /\
  (-180 < lon2 - lon1 < 0 ->
   calculateBearing coord1 coord2 = 270 /\
   bearingToDirection (calculateBearing coord1 coord2) = Some "W"%string).
Proof.
  intros H coord1 coord2. subst coord1 coord2.
  destruct cardinal_directions as [_ [DE [_ DW]]].
  split; [|split].
  - unfold calculateDistance. exact_arith.
    now rewrite (equator_central_angle lon1 lon2 H).
  - intros H'. rewrite (equator_east lon1 lon2 H'). auto.
  - intros H'. rewrite (equator_west lon1 lon2 H'). auto.
Qed.

Lemma along_the_equator_witness :
  let coord1 := {| latitude := 0; longitude := 30 |} in
  let coord2 := {| latitude := 0; longitude := -60 |} in
  calculateBearing coord1 coord2 = 270 /\
  bearingToDirection (calculateBearing coord1 coord2) = Some "W"%string.
Proof.
  apply (proj2 (proj2 (along_the_equator 30 (-60) MILES ltac:(lra)))).
  lra.
Defined.

(** In exact arithmetic the compass point of a computed bearing is
    always one of the 16 labels: [bearingToDirection] never reads outside
    its table on a result of [calculateBearing]. *)
Theorem bearing_has_direction (coord1 coord2 : Coordinate R) :
  exists label : string,
    In label directions /\
    bearingToDirection (calculateBearing coord1 coord2) = Some label.
Proof.
  assert (Hb : 0 <= calculateBearing coord1 coord2 < 360)
    by (unfold calculateBearing; apply normalizeAngle_range).
  set (b := calculateBearing coord1 coord2) in *.
  destruct (round_quotient_exists b) as [n [Hn Hq]]; [lra|].
  rewrite (bearingToDirection_round b n); [| lra | exact Hq |].
  2:{ unfold INT_MAX. lia. }
  destruct (nth_error directions (Z.to_nat (n mod 16))) as [label|] eqn:E.
  - exists label. split; [now apply nth_error_In in E | reflexivity].
  - apply nth_error_None in E. simpl in E.
    pose proof (Z.mod_pos_bound n 16). lia.
Qed.

End Geodesy.


(** ** The command-line tool *)

Module CommandLineFacts.

Local Open Scope string_scope.

Section Loop.

Context {D : Type} {dbl : Double D} {libm : Libm D}.

(** A list is handled one or two arguments at a time. *)
Lemma args_ind2 (P : list string -> Prop) :
  P [] -> (forall a, P [a]) ->
  (forall a b rest, P rest -> P (b :: rest) -> P (a :: b :: rest)) ->
  forall args, P args.
Proof.
  intros H0 H1 H2.
  assert (H : forall args, P args /\ forall a, P (a :: args)).
  { induction args as [|b rest [IH1 IH2]].
    - split; [exact H0 | exact H1].
    - split; [apply IH2|]. intros a. apply H2; [exact IH1 | apply IH2]. }
  intros args. apply H.
Qed.

Lemma parse_reported (programName : string) (args : list string) :
  forall (st : Options) (output : list (Output D)) (code : Z),
    parse programName st args = Return output code ->
    well_reported output code.
Proof.
  induction args as [|a|a b rest IH1 IH2] using args_ind2; intros st output code.
  - discriminate.
  - cbn [parse].
    destruct ((a =? "--help") || (a =? "-h")); [intros [= <- <-]; reflexivity|].
    destruct ((a =? "--verbose") || (a =? "-v")); [discriminate|].
    destruct ((a =? "--unit") || (a =? "-u")); [intros [= <- <-]; reflexivity|].
    destruct (Ascii.eqb (char_at a 0) "-"); [intros [= <- <-]; reflexivity|].
    destruct (empty (opt_grid1 st)); [discriminate|].
    destruct (empty (opt_grid2 st)); [discriminate|].
    intros [= <- <-]; reflexivity.
  - cbn [parse].
    destruct ((a =? "--help") || (a =? "-h")); [intros [= <- <-]; reflexivity|].
    destruct ((a =? "--verbose") || (a =? "-v")); [apply IH2|].
    destruct ((a =? "--unit") || (a =? "-u")).
    { destruct (b =? "km"); [apply IH1|].
      destruct (b =? "mi"); [apply IH1|].
      destruct (b =? "nm"); [apply IH1|].
      intros [= <- <-]; reflexivity. }
    destruct (Ascii.eqb (char_at a 0) "-"); [intros [= <- <-]; reflexivity|].
    destruct (empty (opt_grid1 st)); [apply IH2|].
    destruct (empty (opt_grid2 st)); [apply IH2|].
    intros [= <- <-]; reflexivity.
Qed.

Lemma main_reported (programName : string) (args : list string) :
  well_reported (fst (main programName args)) (snd (main programName args)).
Proof.
  unfold main. destruct args as [|a rest]; [cbn; reflexivity|].
  destruct (parse programName _ (a :: rest)) as [output code|st] eqn:E.
  - exact (parse_reported _ _ _ _ _ E).
  - cbv zeta. destruct (empty (opt_grid1 st) || empty (opt_grid2 st));
      [cbn; reflexivity|].
    unfold printVerboseResult, printSimpleResult, Locators.distance, calculate.
    destruct (opt_verbose st);
      destruct (toLatLon (opt_grid1 st)) as [coord1|what]; try reflexivity;
      destruct (toLatLon (opt_grid2 st)) as [coord2|what]; reflexivity.
Qed.

(** Arguments that the loop gets through, then more arguments: the loop
    goes on from where the first ones left it. *)
Lemma parse_app (programName : string) (pre rest : list string) :
  forall st st' : Options,
    @parse D programName st pre = Parsed st' ->
    @parse D programName st (pre ++ rest) = parse programName st' rest.
Proof.
  induction pre as [|a|a b pre IH1 IH2] using args_ind2; intros st st'.
  - intros [= ->]. reflexivity.
  - cbn [parse app].
    destruct ((a =? "--help") || (a =? "-h")); [discriminate|].
    destruct ((a =? "--verbose") || (a =? "-v")).
    { intros [= <-]. reflexivity. }
    destruct ((a =? "--unit") || (a =? "-u")); [discriminate|].
    destruct (Ascii.eqb (char_at a 0) "-"); [discriminate|].
    destruct (empty (opt_grid1 st)); [intros [= <-]; reflexivity|].
    destruct (empty (opt_grid2 st)); [intros [= <-]; reflexivity|].
    discriminate.
  - cbn [parse app].
    destruct ((a =? "--help") || (a =? "-h")); [discriminate|].
    destruct ((a =? "--verbose") || (a =? "-v")); [apply (IH2 _ st')|].
    destruct ((a =? "--unit") || (a =? "-u")).
    { destruct (b =? "km"); [apply IH1|].
      destruct (b =? "mi"); [apply IH1|].
      destruct (b =? "nm"); [apply IH1|].
      discriminate. }
    destruct (Ascii.eqb (char_at a 0) "-"); [discriminate|].
    destruct (empty (opt_grid1 st)); [apply (IH2 _ st')|].
    destruct (empty (opt_grid2 st)); [apply (IH2 _ st')|].
    discriminate.
Qed.

(** A positional argument is none of the options. *)
Lemma positional_first (arg : string) :
  positional arg = true ->
  exists c rest, arg = String c rest /\ Ascii.eqb c "-" = false.
Proof.
  unfold positional. destruct arg as [|c rest]; [discriminate|].
  cbn. intros H. apply negb_true_iff in H. eauto.
Qed.

Lemma parse_positional (programName : string) (st : Options)
    (arg : string) (rest : list string) :
  positional arg = true ->
  @parse D programName st (arg :: rest) =
  if empty (opt_grid1 st) then
    parse programName
      (mkOptions arg (opt_grid2 st) (opt_unit st) (opt_verbose st)) rest
  else if empty (opt_grid2 st) then
    parse programName
      (mkOptions (opt_grid1 st) arg (opt_unit st) (opt_verbose st)) rest
  else Return [ErrorLine "Too many arguments"; Usage programName] 1.
Proof.
  intros P. destruct (positional_first arg P) as [c [s [-> E]]].
  cbn [parse String.eqb char_at String.get]. rewrite E. reflexivity.
Qed.

(** The result of the simple mode and of the verbose mode. *)
Lemma main_two_locators (programName grid1 grid2 : string) :
  positional grid1 = true -> positional grid2 = true ->
  main programName [grid1; grid2] =
  match Locators.distance grid1 grid2 KILOMETERS with
  | Ok d => ([SimpleResult d "km"], 0%Z)
  | InvalidArgument what => ([ErrorLine what], 1%Z)
  end.
Proof.
  intros P1 P2. unfold main.
  rewrite parse_positional by exact P1. cbn [opt_grid1 empty].
  rewrite parse_positional by exact P2.
  destruct (positional_first grid1 P1) as [c1 [s1 [-> _]]].
  destruct (positional_first grid2 P2) as [c2 [s2 [-> _]]].
  cbn [opt_grid1 opt_grid2 opt_unit opt_verbose empty parse orb].
  destruct (Locators.distance _ _ _); reflexivity.
Qed.

(** [--unit] with a name: the unit is set, or the name is refused. *)
Lemma parse_unit (programName : string) (st : Options)
    (flag name : string) (rest : list string) :
  flag = "--unit" \/ flag = "-u" ->
  @parse D programName st (flag :: name :: rest) =
  match unit_of_name name with
  | Some unit =>
      parse programName
        (mkOptions (opt_grid1 st) (opt_grid2 st) unit (opt_verbose st)) rest
  | None =>
      Return [ErrorLine ("Unknown unit '" ++ name ++ "'. Use km, mi, or nm.")] 1
  end.
Proof.
  intros [-> | ->]; cbn [parse String.eqb Ascii.eqb Bool.eqb andb orb];
    unfold unit_of_name;
    destruct (name =? "km"); try reflexivity;
    destruct (name =? "mi"); try reflexivity;
    destruct (name =? "nm"); reflexivity.
Qed.

Lemma parse_verbose (programName : string) (st : Options)
    (flag : string) (rest : list string) :
  flag = "--verbose" \/ flag = "-v" ->
  @parse D programName st (flag :: rest) =
  parse programName
    (mkOptions (opt_grid1 st) (opt_grid2 st) (opt_unit st) true) rest.
Proof. intros [-> | ->]; reflexivity. Qed.

(** What [main] does once the loop has run through: [printVerboseResult]
    cannot fail after [calculate] has succeeded, and its distances are
    those of the coordinates shown. *)
Lemma verbose_result (grid1 grid2 : string) (unit : Unit) :
  (res <- calculate grid1 grid2 unit ;; printVerboseResult grid1 grid2 res) =
  (res <- calculate grid1 grid2 unit ;;
   Ok (VerboseResult grid1 grid2 res
         (calculateDistance (from res) (to res) KILOMETERS)
         (calculateDistance (from res) (to res) MILES)
         (calculateDistance (from res) (to res) NAUTICAL_MILES)
         (bearingToDirection (bearing res))
         (bearingToDirection (backBearing res)))).
Proof.
  unfold calculate, printVerboseResult, Locators.distance.
  destruct (toLatLon grid1) as [c1|w]; [|reflexivity].
  destruct (toLatLon grid2) as [c2|w]; reflexivity.
Qed.

Lemma positional_nonempty (arg : string) :
  positional arg = true -> empty arg = false.
Proof.
  unfold positional. intros H. apply andb_prop in H. destruct H as [H _].
  now apply negb_true_iff in H.
Qed.

(** The four built-in examples are accepted. *)
Lemma examples_succeed :
  Forall (fun line : string * result ExampleResult =>
            is_error (snd line) = false) runExamples.
Proof.
  unfold runExamples, examples. cbn [map].
  repeat constructor; cbn [snd]; unfold calculate, Locators.distance;
    rewrite !toLatLon_center by reflexivity; reflexivity.
Qed.

(** [main] after a loop that ran through. *)
Lemma main_parsed (programName : string) (a : string) (rest : list string)
    (st : Options) :
  @parse D programName (mkOptions "" "" KILOMETERS false) (a :: rest)
    = Parsed st ->
  empty (opt_grid1 st) = false -> empty (opt_grid2 st) = false ->
  main programName (a :: rest) =
  if opt_verbose st
  then verbose_mode (opt_grid1 st) (opt_grid2 st) (opt_unit st)
  else simple_mode (opt_grid1 st) (opt_grid2 st) (opt_unit st).
Proof.
  intros E E1 E2. unfold main. rewrite E. cbv zeta. rewrite E1, E2. cbn [orb].
  unfold verbose_mode, simple_mode, printSimpleResult.
  destruct (opt_verbose st).
  - rewrite verbose_result. destruct (calculate _ _ _); reflexivity.
  - destruct (Locators.distance _ _ _); reflexivity.
Qed.

Lemma main_returned (programName : string) (a : string) (rest : list string)
    (output : list (Output D)) (code : Z) :
  parse programName (mkOptions "" "" KILOMETERS false) (a :: rest)
    = Return output code ->
  main programName (a :: rest) = (output, code).
Proof. intros E. unfold main. now rewrite E. Qed.

End Loop.

(** One turn of the loop on a known kind of argument. *)
Ltac loop :=
  repeat first
    [ rewrite parse_positional by assumption
    | rewrite parse_unit by auto
    | rewrite parse_verbose by auto
    | progress cbn [opt_grid1 opt_grid2 opt_unit opt_verbose empty]
    | match goal with
      | H : empty _ = false |- _ => rewrite H
      | H : unit_of_name _ = _ |- _ => rewrite H
      end ].

(** X17.  The exit status of [main] is 0 or 1, and it is 1 exactly when
    the first thing written is an error line.  Without arguments [main]
    shows the built-in examples, none of which fails, and returns 0. *)
Theorem main_exit_status
    (D : Type) (dbl : Double D) (libm : Libm D)
    (programName : string) (args : list string) :
  let output := fst (main programName args) in
  let code := snd (main programName args) in
  (code = 0 \/ code = 1)%Z /\
  (code = 1%Z <->
   exists (message : string) (more : list (Output D)),
     output = ErrorLine message :: more) /\
  main programName [] = ([Examples runExamples; Hint programName], 0%Z) /\
  Forall (fun line : string * result ExampleResult =>
            is_error (snd line) = false) runExamples.
Proof.
  intros output code.
  pose proof (main_reported programName args) as W. fold output code in W.
  split; [|split; [|split]].
  - destruct output as [|[m|p|l|p|d u|g1 g2 r k m n b1 b2] more];
      cbn in W; auto.
  - destruct output as [|[m|p|l|p|d u|g1 g2 r k m n b1 b2] more];
      cbn in W; split;
      try (intros H; rewrite W in H; discriminate H);
      try (intros [m' [more' H]]; discriminate H).
    + intros _. eauto.
    + intros _. exact W.
  - reflexivity.
  - apply examples_succeed.
Qed.

(** X18.  A help flag wins: when the arguments before it are in order,
    [main] writes the usage message and returns 0, whatever follows the
    flag and whatever the locators are. *)
Theorem main_help
    (D : Type) (dbl : Double D) (libm : Libm D)
    (programName : string) (before after : list string)
    (flag : string) (st : Options) :
  @parse D programName (mkOptions "" "" KILOMETERS false) before = Parsed st ->
  flag = "--help" \/ flag = "-h" ->
  main programName (before ++ flag :: after) = ([Usage programName], 0%Z).
Proof.
  intros E F.
  assert (P : @parse D programName (mkOptions "" "" KILOMETERS false)
                (before ++ flag :: after) = Return [Usage programName] 0).
  { rewrite (parse_app programName before (flag :: after) _ st E).
    destruct F as [-> | ->]; reflexivity. }
  destruct (before ++ flag :: after)%list as [|a rest] eqn:L.
  - destruct before; discriminate L.
  - now apply main_returned.
Qed.

Lemma main_help_witness :
  @main R Exact.double Exact.libm "grid_calc" ["FN42"; "-v"; "-h"; "--unit"] =
  ([Usage "grid_calc"], 0%Z).
Proof.
  apply (main_help R Exact.double Exact.libm "grid_calc" ["FN42"; "-v"]
           ["--unit"] "-h" (mkOptions "FN42" "" KILOMETERS true)).
  - reflexivity.
  - right. reflexivity.
Defined.

(** X19.  With two locators [main] writes the distance in kilometers with
    its unit and returns 0, or writes the decoder's message for the first
    locator it rejects and returns 1.  [--unit] with "km", "mi" or "nm"
    selects the unit and [--verbose] the long form, before, between or
    after the locators; the long form shows the distances between the
    coordinates of [calculate] in the three units. *)
Theorem main_modes
    (D : Type) (dbl : Double D) (libm : Libm D)
    (programName grid1 grid2 name : string) (unit : Unit) :
  positional grid1 = true -> positional grid2 = true ->
  unit_of_name name = Some unit ->
  main programName [grid1; grid2] = simple_mode grid1 grid2 KILOMETERS /\
  main programName [grid1; grid2; "--unit"; name] =
    simple_mode grid1 grid2 unit /\
  main programName ["-u"; name; grid1; grid2] = simple_mode grid1 grid2 unit /\
  main programName ["--verbose"; grid1; grid2; "-u"; name] =
    verbose_mode grid1 grid2 unit /\
  main programName [grid1; "--unit"; name; grid2; "-v"] =
    verbose_mode grid1 grid2 unit.
Proof.
  intros P1 P2 U.
  pose proof (positional_nonempty _ P1) as N1.
  pose proof (positional_nonempty _ P2) as N2.
  repeat split.
  - apply (main_parsed programName _ _ (mkOptions grid1 grid2 KILOMETERS false));
      [|exact N1|exact N2]. loop. reflexivity.
  - apply (main_parsed programName _ _ (mkOptions grid1 grid2 unit false));
      [|exact N1|exact N2]. loop. reflexivity.
  - apply (main_parsed programName _ _ (mkOptions grid1 grid2 unit false));
      [|exact N1|exact N2]. loop. reflexivity.
  - apply (main_parsed programName _ _ (mkOptions grid1 grid2 unit true));
      [|exact N1|exact N2]. loop. reflexivity.
  - apply (main_parsed programName _ _ (mkOptions grid1 grid2 unit true));
      [|exact N1|exact N2]. loop. reflexivity.
Qed.

Lemma main_modes_witness :
  @main R Exact.double Exact.libm "grid_calc" ["FN42"; "JO01"; "--unit"; "mi"] =
  simple_mode "FN42" "JO01" MILES.
Proof.
  apply (proj1 (proj2 (main_modes R Exact.double Exact.libm "grid_calc"
                         "FN42" "JO01" "mi" MILES eq_refl eq_refl eq_refl))).
Defined.

(** X20.  The names of the units: [--unit] accepts "km", "mi" and "nm",
    so of the names [unitToString] writes it takes back "km" and "nm" but
    refuses "miles"; a repeated [--unit] leaves the last one in force; and
    [--unit] as the last argument is an error. *)
Theorem main_unit_names
    (D : Type) (dbl : Double D) (libm : Libm D) (programName : string) :
  (forall unit : Unit,
     unit_of_name (unitToString unit) =
     match unit with MILES => None | _ => Some unit end) /\
  (forall (grid1 grid2 : string) (rest : list string),
     positional grid1 = true -> positional grid2 = true ->
     main programName
       (grid1 :: grid2 :: "--unit" :: unitToString MILES :: rest) =
     ([ErrorLine "Unknown unit 'miles'. Use km, mi, or nm."], 1%Z)) /\
  (forall (st : Options) (name1 name2 : string) (unit1 unit2 : Unit)
          (rest : list string),
     unit_of_name name1 = Some unit1 -> unit_of_name name2 = Some unit2 ->
     @parse D programName st ("-u" :: name1 :: "--unit" :: name2 :: rest) =
     parse programName st ("--unit" :: name2 :: rest)) /\
  (forall grid1 grid2 : string,
     positional grid1 = true -> positional grid2 = true ->
     main programName [grid1; grid2; "--unit"] =
     ([ErrorLine "--unit requires an argument"], 1%Z)).
Proof.
  split; [|split; [|split]].
  - intros []; reflexivity.
  - intros grid1 grid2 rest P1 P2.
    pose proof (positional_nonempty _ P1) as N1.
    apply main_returned. loop. reflexivity.
  - intros st name1 name2 unit1 unit2 rest U1 U2. loop. reflexivity.
  - intros grid1 grid2 P1 P2.
    pose proof (positional_nonempty _ P1) as N1.
    apply main_returned. loop. reflexivity.
Qed.

Lemma main_unit_names_witness :
  @main R Exact.double Exact.libm "grid_calc"
    ["FN42"; "JO01"; "--unit"; "miles"; "-v"] =
  ([ErrorLine "Unknown unit 'miles'. Use km, mi, or nm."], 1%Z).
Proof.
  apply (proj1 (proj2 (main_unit_names R Exact.double Exact.libm "grid_calc"))
           "FN42" "JO01" ["-v"]); reflexivity.
Defined.

(** X21.  The locators on the command line: a third one is an error
    whatever follows it; an empty argument is passed over; one locator
    alone is an error; and an argument that starts with a dash and is none
    of the six options is an error.  In each case the usage message
    follows and the status is 1. *)
Theorem main_positionals
    (D : Type) (dbl : Double D) (libm : Libm D) (programName : string) :
  (forall (grid1 grid2 grid3 : string) (rest : list string),
     positional grid1 = true -> positional grid2 = true ->
     positional grid3 = true ->
     @main D dbl libm programName (grid1 :: grid2 :: grid3 :: rest) =
     ([ErrorLine "Too many arguments"; Usage programName], 1%Z)) /\
  (forall (arg : string) (rest : list string),
     @main D dbl libm programName ("" :: arg :: rest) =
     main programName (arg :: rest)) /\
  (forall grid : string,
     positional grid = true ->
     @main D dbl libm programName [grid] =
     ([ErrorLine "Both GRID1 and GRID2 are required"; Usage programName],
      1%Z)) /\
  (forall (arg : string) (rest : list string),
     Ascii.eqb (char_at arg 0) "-" = true ->
     existsb (String.eqb arg)
       ["--help"; "-h"; "--verbose"; "-v"; "--unit"; "-u"] = false ->
     @main D dbl libm programName (arg :: rest) =
     ([ErrorLine ("Unknown option '" ++ arg ++ "'"); Usage programName],
      1%Z)).
Proof.
  split; [|split; [|split]].
  - intros grid1 grid2 grid3 rest P1 P2 P3.
    pose proof (positional_nonempty _ P1) as N1.
    pose proof (positional_nonempty _ P2) as N2.
    apply main_returned. loop. reflexivity.
  - intros arg rest. reflexivity.
  - intros grid P. pose proof (positional_nonempty _ P) as N.
    unfold main. loop. cbn [parse]. loop. reflexivity.
  - intros arg rest Hd Hn. apply main_returned.
    cbn [existsb] in Hn. rewrite orb_false_r in Hn.
    repeat (apply orb_false_elim in Hn; destruct Hn as [? Hn]).
    cbn [parse].
    repeat match goal with H : (arg =? _) = false |- _ => rewrite H; clear H end.
    rewrite Hd. reflexivity.
Qed.

Lemma main_positionals_witness :
  @main R Exact.double Exact.libm "grid_calc" ["FN42"; "JO01"; "CN87"; "-x"] =
  ([ErrorLine "Too many arguments"; Usage "grid_calc"], 1%Z).
Proof.
  apply (proj1 (main_positionals R Exact.double Exact.libm "grid_calc")
           "FN42" "JO01" "CN87" ["-x"]); reflexivity.
Defined.

End CommandLineFacts.
